(** * Academic Scheduler: import parsing and recurrence scheduling

    A shallow embedding of the import parsers and the reminder schedulers
    of the application ([app/(tabs)/routine.tsx], [app/import.tsx],
    [context/ScheduleContext.tsx]), of the screens and the provider that
    call them and of the lecture store, and the properties proved about
    them.

    Conventions of the embedding.
    - A JavaScript string is the list of its UTF-16 code units ([jsstring]).
    - A JavaScript number is an extended rational ([number]): [NaN], the two
      infinities, and the finite values, with the integers kept apart in
      [Int] so that integer code computes on [Z].  Arithmetic on finite
      values is exact; binary64 rounding is not modelled, which changes
      nothing for integers of magnitude below 2^53.
    - A thrown exception is the [Throw] case of [outcome].
    - Regular expressions are values of [regex], run by a backtracking
      matcher that follows the ECMAScript matching rules. *)

From Stdlib Require Import String Ascii ZArith NArith QArith Qround Bool Lia Arith List.
From Stdlib Require Import DecimalString DecimalN.
Import ListNotations.

Set Implicit Arguments.
Close Scope Q_scope.
Open Scope list_scope.

(* ================================================================== *)
(** * Strings *)
(* ================================================================== *)

Definition jsstring := list N.

Definition chr (a : ascii) : N := N_of_ascii a.

Definition str (s : string) : jsstring := map N_of_ascii (list_ascii_of_string s).

Fixpoint jseq (a b : jsstring) : bool :=
  match a, b with
  | [], [] => true
  | x :: a', y :: b' => N.eqb x y && jseq a' b'
  | _, _ => false
  end.

(** [!s]: the empty text is the only falsy one. *)
Definition is_empty (s : jsstring) : bool :=
  match s with [] => true | _ => false end.

Definition includes (l : list jsstring) (s : jsstring) : bool := existsb (jseq s) l.

(** Character classes of the regular expressions ([\d], [\s]) and the
    white space that [String.prototype.trim] strips (the same set). *)
Definition is_digit (c : N) : bool := (48 <=? c)%N && (c <=? 57)%N.

Definition is_space (c : N) : bool :=
  existsb (N.eqb c)
    [9; 10; 11; 12; 13; 32; 160; 5760; 8192; 8193; 8194; 8195; 8196; 8197; 8198;
     8199; 8200; 8201; 8202; 8232; 8233; 8239; 8287; 12288; 65279]%N.

Definition is_upper (c : N) : bool := (65 <=? c)%N && (c <=? 90)%N.
Definition is_lower (c : N) : bool := (97 <=? c)%N && (c <=? 122)%N.

(** [toLowerCase] and [toUpperCase].  The callers of [toLowerCase]
    compare its result with ASCII words only, and it is exact for that:
    on the Latin-1 range, and on the Kelvin sign (U+212A), the one code
    unit beyond it whose lower case is an ASCII letter.  The other code
    units are kept as they are; none of them gives an ASCII word.
    [toUpperCase] is applied to a captured [AM] or [PM] marker and to the
    section name that is compared with [M1], [M2], [A] and [B]; the only
    code units whose upper case holds one of these letters are the ASCII
    letters themselves. *)
Definition lower_char (c : N) : N :=
  if is_upper c then (c + 32)%N
  else if (192 <=? c)%N && (c <=? 222)%N && negb (c =? 215)%N then (c + 32)%N
  else if (c =? 8490)%N then 107%N
  else c.

Definition upper_char (c : N) : N :=
  if is_lower c then (c - 32)%N
  else if (224 <=? c)%N && (c <=? 254)%N && negb (c =? 247)%N then (c - 32)%N
  else c.

Definition toLowerCase (s : jsstring) : jsstring := map lower_char s.
Definition toUpperCase (s : jsstring) : jsstring := map upper_char s.

Fixpoint trimStart (s : jsstring) : jsstring :=
  match s with
  | c :: s' => if is_space c then trimStart s' else s
  | [] => []
  end.

Definition trimEnd (s : jsstring) : jsstring := rev (trimStart (rev s)).
Definition trim (s : jsstring) : jsstring := trimEnd (trimStart s).

(** [s.split(sep)] for a one-character separator. *)
Fixpoint split_on (sep : N) (s : jsstring) : list jsstring :=
  match s with
  | [] => [[]]
  | c :: s' =>
      if (c =? sep)%N then [] :: split_on sep s'
      else match split_on sep s' with
           | p :: ps => (c :: p) :: ps
           | [] => [[c]]
           end
  end.

(** [String(n).padStart(2, '0')] on the text of a number. *)
Definition padStart2 (s : jsstring) : jsstring :=
  match s with
  | [] => [chr "0"; chr "0"]
  | [c] => [chr "0"; c]
  | _ => s
  end.

(** Decimal text of an integer, as [String(n)] prints it. *)
Definition digits_of_N (n : N) : jsstring :=
  str (DecimalString.NilZero.string_of_uint (N.to_uint n)).

Definition string_of_Z (z : Z) : jsstring :=
  match z with
  | Zneg p => chr "-" :: digits_of_N (Npos p)
  | _ => digits_of_N (Z.to_N z)
  end.

Definition digit_val (c : N) : Z := Z.of_N c - 48.

(** Value of a digit string in base 10, most significant digit first. *)
Definition digits_val (s : jsstring) : Z :=
  fold_left (fun acc c => acc * 10 + digit_val c)%Z s 0%Z.

Fixpoint span (p : N -> bool) (s : jsstring) : jsstring * jsstring :=
  match s with
  | c :: s' => if p c then let (a, b) := span p s' in (c :: a, b) else ([], s)
  | [] => ([], [])
  end.

(* ================================================================== *)
(** * Numbers *)
(* ================================================================== *)

Inductive number :=
| NaN
| PInf
| NInf
| Int (z : Z)
| Real (q : Q).

(** Finite values are kept normalised: an integral rational is an [Int]. *)
Definition of_Q (q : Q) : number :=
  let r := Qred q in
  if (Zpos (Qden r) =? 1)%Z then Int (Qnum r) else Real r.

Definition to_Q (n : number) : option Q :=
  match n with
  | Int z => Some (inject_Z z)
  | Real q => Some q
  | _ => None
  end.

Definition isFinite (n : number) : bool :=
  match n with Int _ | Real _ => true | _ => false end.

Definition isNaN (n : number) : bool :=
  match n with NaN => true | _ => false end.

Definition nneg (n : number) : number :=
  match n with
  | NaN => NaN | PInf => NInf | NInf => PInf
  | Int z => Int (- z) | Real q => of_Q (- q)
  end.

Definition nadd (a b : number) : number :=
  match a, b with
  | NaN, _ | _, NaN => NaN
  | PInf, NInf | NInf, PInf => NaN
  | PInf, _ | _, PInf => PInf
  | NInf, _ | _, NInf => NInf
  | Int x, Int y => Int (x + y)
  | Int x, Real q => of_Q (inject_Z x + q)
  | Real q, Int y => of_Q (q + inject_Z y)
  | Real p, Real q => of_Q (p + q)
  end.

Definition nsub (a b : number) : number := nadd a (nneg b).

(** The binary64 value nearest to an integer, ties to the even
    significand: an integer of magnitude up to [2^53] is its own value,
    a larger one keeps its 53 leading bits, and what rounds to [2^1024]
    or beyond is an infinity. *)
Definition round64 (z : Z) : number :=
  let a := Z.abs z in
  if (a <=? 2 ^ 53)%Z then Int z
  else
    let e := (Z.log2 a - 52)%Z in
    let q := (a / 2 ^ e)%Z in
    let r := (a mod 2 ^ e)%Z in
    let half := (2 ^ (e - 1))%Z in
    let q' := if (r <? half)%Z then q
              else if (half <? r)%Z then (q + 1)%Z
              else if Z.even q then q else (q + 1)%Z in
    let m := (q' * 2 ^ e)%Z in
    if (2 ^ 1024 <=? m)%Z then (if (z <? 0)%Z then NInf else PInf)
    else Int (Z.sgn z * m).

(** Sum and difference with the rounding of binary64 on integers, for
    the loop whose end depends on it. *)
Definition nadd64 (a b : number) : number :=
  match a, b with
  | Int x, Int y => round64 (x + y)
  | _, _ => nadd a b
  end.

Definition nsub64 (a b : number) : number := nadd64 a (nneg b).

Definition sign_of (n : number) : Z :=
  match n with
  | NaN => 0 | PInf => 1 | NInf => -1
  | Int z => Z.sgn z
  | Real q => Z.sgn (Qnum q)
  end.

Definition of_sign (s : Z) : number :=
  match s with Z0 => NaN | Zpos _ => PInf | Zneg _ => NInf end.

Definition nmul (a b : number) : number :=
  match a, b with
  | NaN, _ | _, NaN => NaN
  | Int x, Int y => Int (x * y)
  | Int x, Real q => of_Q (inject_Z x * q)
  | Real q, Int y => of_Q (q * inject_Z y)
  | Real p, Real q => of_Q (p * q)
  | _, _ => of_sign (sign_of a * sign_of b)
  end.

(** [a / b]; a zero divisor gives an infinity of the sign of [a], or
    [NaN] for [0 / 0] (the sign of zero is not modelled). *)
Definition ndiv (a b : number) : number :=
  match to_Q a, to_Q b with
  | Some p, Some q =>
      if Qeq_bool q 0%Q then of_sign (sign_of a) else of_Q (p / q)
  | Some _, None => match b with NaN => NaN | _ => Int 0 end
  | None, Some q =>
      match a with
      | NaN => NaN
      | _ => if Qeq_bool q 0%Q then a else of_sign (sign_of a * sign_of b)
      end
  | None, None => NaN
  end.

(** Integer part towards zero. *)
Definition Qtrunc (q : Q) : Z := Z.quot (Qnum q) (Zpos (Qden q)).

(** The remainder operator [%]: the result has the sign of the dividend. *)
Definition nrem (a b : number) : number :=
  match a, b with
  | Int x, Int y => if (y =? 0)%Z then NaN else Int (Z.rem x y)
  | _, _ =>
      match to_Q a, to_Q b with
      | Some p, Some q =>
          if Qeq_bool q 0%Q then NaN
          else of_Q (p - q * inject_Z (Qtrunc (p / q)))
      | Some _, None => match b with NaN => NaN | _ => a end
      | None, _ => NaN
      end
  end.

Definition Math_floor (n : number) : number :=
  match n with
  | Real q => Int (Qfloor q)
  | _ => n
  end.

(** [Math.round] on a finite value: the nearest integer, halves upwards. *)
Definition Math_round (q : Q) : Z := Qfloor (q + (1 # 2))%Q.

Definition ncompare (a b : number) : option comparison :=
  match a, b with
  | NaN, _ | _, NaN => None
  | PInf, PInf | NInf, NInf => Some Eq
  | PInf, _ | _, NInf => Some Gt
  | NInf, _ | _, PInf => Some Lt
  | Int x, Int y => Some (x ?= y)%Z
  | Int x, Real q => Some (inject_Z x ?= q)%Q
  | Real q, Int y => Some (q ?= inject_Z y)%Q
  | Real p, Real q => Some (p ?= q)%Q
  end.

Definition nlt (a b : number) : bool :=
  match ncompare a b with Some Lt => true | _ => false end.
Definition nle (a b : number) : bool :=
  match ncompare a b with Some Lt | Some Eq => true | _ => false end.
Definition ngt (a b : number) : bool := nlt b a.
Definition nge (a b : number) : bool := nle b a.
Definition neq (a b : number) : bool :=
  match ncompare a b with Some Eq => true | _ => false end.

(** [Number(s)]: the numeric value of a string (StringToNumber).  White
    space around the literal is ignored, the empty string is [0], a text
    that is no numeric literal is [NaN], and a decimal literal beyond the
    binary64 range is an infinity. *)
Definition is_hex_digit (c : N) : bool :=
  is_digit c || ((65 <=? c)%N && (c <=? 70)%N) || ((97 <=? c)%N && (c <=? 102)%N).

Definition hex_val (c : N) : Z :=
  if is_digit c then Z.of_N c - 48
  else if (c <=? 70)%N then Z.of_N c - 55 else Z.of_N c - 87.

Definition radix_val (radix : Z) (s : jsstring) : Z :=
  fold_left (fun acc c => acc * radix + hex_val c)%Z s 0%Z.

Definition is_radix_digit (radix : Z) (c : N) : bool :=
  is_hex_digit c && (hex_val c <? radix)%Z.

Definition pow10 (e : Z) : Q :=
  match e with
  | Zneg p => (1 # (10 ^ p))%Q
  | _ => inject_Z (10 ^ e)%Z
  end.

(** The exponent part [e±ddd] closing a decimal literal; [None] when the
    rest of the text is not an exponent part. *)
Definition exponent_part (s : jsstring) : option Z :=
  match s with
  | [] => Some 0%Z
  | e :: s1 =>
      if (e =? chr "e")%N || (e =? chr "E")%N then
        let (neg, ds) :=
          match s1 with
          | c :: s2 =>
              if (c =? chr "-")%N then (true, s2)
              else if (c =? chr "+")%N then (false, s2) else (false, s1)
          | [] => (false, s1)
          end in
        match ds with
        | [] => None
        | _ => if forallb is_digit ds
               then Some (if neg then - digits_val ds else digits_val ds)%Z
               else None
        end
      else None
  end.

Definition unsigned_decimal (s : jsstring) : option Q :=
  let (ip, r1) := span is_digit s in
  match r1 with
  | c :: r2 =>
      if (c =? chr ".")%N then
        let (fp, r3) := span is_digit r2 in
        match ip, fp with
        | [], [] => None
        | _, _ =>
            match exponent_part r3 with
            | Some e =>
                Some (inject_Z (digits_val (ip ++ fp))
                      * pow10 (e - Z.of_nat (length fp)))%Q
            | None => None
            end
        end
      else
        match ip, exponent_part r1 with
        | _ :: _, Some e => Some (inject_Z (digits_val ip) * pow10 e)%Q
        | _, _ => None
        end
  | [] => match ip with [] => None | _ => Some (inject_Z (digits_val ip)) end
  end.

(** Finite rationals at or beyond [2^1024 - 2^970] round to an infinity. *)
Definition overflow_bound : Q := inject_Z (2 ^ 1024 - 2 ^ 970)%Z.

Definition of_literal (neg : bool) (q : Q) : number :=
  if Qle_bool overflow_bound q then (if neg then NInf else PInf)
  else of_Q (if neg then - q else q).

Definition signed_decimal (neg : bool) (s : jsstring) : number :=
  if jseq s (str "Infinity") then (if neg then NInf else PInf)
  else match unsigned_decimal s with
       | Some q => of_literal neg q
       | None => NaN
       end.

Definition radix_literal (radix : Z) (ds : jsstring) : number :=
  match ds with
  | [] => NaN
  | _ => if forallb (is_radix_digit radix) ds
         then of_literal false (inject_Z (radix_val radix ds)) else NaN
  end.

Definition Number_ (text : jsstring) : number :=
  match trim text with
  | [] => Int 0
  | (c :: s1) as s =>
      if (c =? chr "+")%N then signed_decimal false s1
      else if (c =? chr "-")%N then signed_decimal true s1
      else match s with
           | z :: x :: ds =>
               if (z =? chr "0")%N && ((x =? chr "x")%N || (x =? chr "X")%N)
               then radix_literal 16 ds
               else if (z =? chr "0")%N && ((x =? chr "o")%N || (x =? chr "O")%N)
               then radix_literal 8 ds
               else if (z =? chr "0")%N && ((x =? chr "b")%N || (x =? chr "B")%N)
               then radix_literal 2 ds
               else signed_decimal false s
           | _ => signed_decimal false s
           end
  end.

(** [parseInt(s, radix)] for a radix of 10 or 8: leading white space, an
    optional sign, then the longest run of digits; [None] stands for
    [NaN]. *)
Definition parseInt (s : jsstring) (radix : Z) : option Z :=
  let s0 := trimStart s in
  let (neg, s1) :=
    match s0 with
    | c :: r =>
        if (c =? chr "-")%N then (true, r)
        else if (c =? chr "+")%N then (false, r) else (false, s0)
    | [] => (false, s0)
    end in
  match fst (span (is_radix_digit radix) s1) with
  | [] => None
  | ds => Some (if neg then - radix_val radix ds else radix_val radix ds)%Z
  end.

(** Text of a number as [String(n)] gives it.  Integers below 10^21 in
    magnitude print in decimal; the text of the other finite values is
    left to [exotic], the engine's Number::toString on them, which the
    application never inspects. *)
Definition numberToString (exotic : number -> jsstring) (n : number) : jsstring :=
  match n with
  | NaN => str "NaN"
  | PInf => str "Infinity"
  | NInf => str "-Infinity"
  | Int z => if (Z.abs z <? 10 ^ 21)%Z then string_of_Z z else exotic n
  | Real _ => exotic n
  end.

(* ================================================================== *)
(** * Thrown exceptions *)
(* ================================================================== *)

Inductive error :=
| Error (message : jsstring)
| RangeError            (* Maximum call stack size exceeded *)
| TypeError             (* a property read on null, an object without a primitive value *)
| Rejected (what : jsstring).   (* a rejected promise of a collaborator *)

(** What running a piece of code gives: a value, an exception, or
    [Unfinished] when a loop is still running after the number of
    iterations the model was given. *)
Inductive outcome (A : Type) :=
| Ret (a : A)
| Throw (e : error)
| Unfinished.

Arguments Ret {A} a.
Arguments Throw {A} e.
Arguments Unfinished {A}.

Definition bind {A B} (m : outcome A) (f : A -> outcome B) : outcome B :=
  match m with
  | Ret a => f a
  | Throw e => Throw e
  | Unfinished => Unfinished
  end.

(** A loop that gathers one result per element, in order, and ends at
    the first element on which its body does not return. *)
Fixpoint mapM {A B} (f : A -> outcome B) (l : list A) : outcome (list B) :=
  match l with
  | [] => Ret []
  | a :: l' => bind (f a) (fun b => bind (mapM f l') (fun bs => Ret (b :: bs)))
  end.

(** ** Calls to the collaborators

    Asynchronous code is run in program order against a log of the calls
    it issues to its collaborators (notification service, storage, user
    interface); a computation maps the log so far to its outcome and the
    extended log. *)
Definition M (C A : Type) : Type := list C -> outcome A * list C.

Definition ret {C A} (a : A) : M C A := fun log => (Ret a, log).

Definition mbind {C A B} (m : M C A) (f : A -> M C B) : M C B :=
  fun log =>
    match m log with
    | (Ret a, log') => f a log'
    | (Throw e, log') => (Throw e, log')
    | (Unfinished, log') => (Unfinished, log')
    end.

Definition lift {C A} (o : outcome A) : M C A := fun log => (o, log).

(** A call whose result the collaborator decides from the log, the call
    included. *)
Definition perform {C A} (c : C) (result : list C -> outcome A) : M C A :=
  fun log => let log' := log ++ [c] in (result log', log').

(** [promise.catch(() => {})] *)
Definition catch_ignore {C} (m : M C unit) : M C unit :=
  fun log =>
    match m log with
    | (Throw _, log') => (Ret tt, log')
    | r => r
    end.

Fixpoint forEach {C A} (f : A -> M C unit) (l : list A) : M C unit :=
  match l with
  | [] => ret tt
  | a :: l' => mbind (f a) (fun _ => forEach f l')
  end.

Declare Scope effect_scope.
Delimit Scope effect_scope with effect.
Notation "x <- m ;; k" := (mbind m (fun x => k))
  (at level 61, m at next level, right associativity) : effect_scope.
Notation "m ;;; k" := (mbind m (fun _ => k))
  (at level 61, right associativity) : effect_scope.

(* ================================================================== *)
(** * Regular expressions *)
(* ================================================================== *)

(** The fragment of the pattern language the sources use.  [Rep] is a
    quantifier [{min,max}] ([max = None] for no upper bound), greedy or
    lazy; [Group i] is the i-th capturing group; [Bol] and [Eol] are [^]
    and [$] (the sources never set the multiline flag). *)
Inductive regex :=
| Empty
| Char (p : N -> bool)
| Seq (r1 r2 : regex)
| Alt (r1 r2 : regex)
| Rep (min : nat) (max : option nat) (greedy : bool) (r : regex)
| Group (i : nat) (r : regex)
| Bol
| Eol.

(** Matcher state: the index reached, the text that remains from there,
    and the captures so far (most recent first). *)
Record mstate := MState {
  pos : nat;
  rest : jsstring;
  caps : list (nat * jsstring)
}.

Definition orElse {A} (a b : option A) : option A :=
  match a with
  | Some _ => a
  | None => b
  end.

Definition is_zero_max (max : option nat) : bool :=
  match max with Some O => true | _ => false end.

(** The backtracking matcher in continuation-passing style, as the
    language standard defines it: alternatives left to right; a greedy
    quantifier tries one more iteration before the continuation, a lazy
    one the continuation first; an iteration of an exhausted quantifier
    ([min = 0]) that consumes nothing is rejected.  Every iteration thus
    lowers [min] or shortens the remaining text, and the counter [fuel]
    of [repLoop], set to their sum plus one, is never used up. *)
Fixpoint repLoop (m : mstate -> (mstate -> option mstate) -> option mstate)
    (fuel min : nat) (max : option nat) (greedy : bool) (x : mstate)
    (k : mstate -> option mstate) {struct fuel} : option mstate :=
  match fuel with
  | O => None
  | S fuel' =>
      if is_zero_max max then k x
      else
        let d := fun y =>
          if Nat.eqb min 0 && Nat.eqb (pos y) (pos x) then None
          else repLoop m fuel' (Nat.pred min) (option_map Nat.pred max) greedy y k in
        if negb (Nat.eqb min 0) then m x d
        else if greedy then orElse (m x d) (k x)
        else orElse (k x) (m x d)
  end.

Fixpoint mt (r : regex) (x : mstate) (k : mstate -> option mstate) {struct r}
  : option mstate :=
  match r with
  | Empty => k x
  | Char p =>
      match rest x with
      | c :: s => if p c then k (MState (S (pos x)) s (caps x)) else None
      | [] => None
      end
  | Seq r1 r2 => mt r1 x (fun y => mt r2 y k)
  | Alt r1 r2 => orElse (mt r1 x k) (mt r2 x k)
  | Group i r1 =>
      mt r1 x (fun y =>
        k (MState (pos y) (rest y)
             ((i, firstn (pos y - pos x) (rest x)) :: caps y)))
  | Bol => if Nat.eqb (pos x) 0 then k x else None
  | Eol => match rest x with [] => k x | _ :: _ => None end
  | Rep min max greedy r1 =>
      repLoop (mt r1) (S (min + length (rest x))) min max greedy x k
  end.

(** A successful match: where it starts and ends, the matched text, the
    captures. *)
Record rmatch := RMatch {
  index : nat;
  endIndex : nat;
  matched : jsstring;
  groups : list (nat * jsstring)
}.

Definition match_at (r : regex) (i : nat) (s : jsstring) : option rmatch :=
  match mt r (MState i s []) Some with
  | Some y => Some (RMatch i (pos y) (firstn (pos y - i) s) (caps y))
  | None => None
  end.

(** Leftmost match at or after index [i], where [s] is the text from [i]. *)
Fixpoint search (r : regex) (i : nat) (s : jsstring) : option rmatch :=
  match match_at r i s with
  | Some m => Some m
  | None =>
      match s with
      | [] => None
      | _ :: s' => search r (S i) s'
      end
  end.

(** [re.exec(s)] / [s.match(re)] without the global flag, and [re.test]. *)
Definition exec (r : regex) (s : jsstring) : option rmatch := search r 0 s.

Definition test (r : regex) (s : jsstring) : bool :=
  match exec r s with Some _ => true | None => false end.

(** [m[i]]: the text of group [i], [None] when the group took no part. *)
Fixpoint assoc_nat (i : nat) (l : list (nat * jsstring)) : option jsstring :=
  match l with
  | [] => None
  | (j, v) :: l' => if Nat.eqb i j then Some v else assoc_nat i l'
  end.

Definition group (m : rmatch) (i : nat) : option jsstring := assoc_nat i (groups m).

(** All matches of a global pattern, left to right without overlap, as
    [matchAll] and the [exec] loop on a [/g] pattern produce them; after
    an empty match the search resumes one code unit further. *)
Fixpoint matchAll_from (fuel : nat) (r : regex) (i : nat) (s : jsstring)
  : list rmatch :=
  match fuel with
  | O => []
  | S fuel' =>
      match search r i s with
      | None => []
      | Some m =>
          let e := if Nat.eqb (endIndex m) (index m) then S (endIndex m)
                   else endIndex m in
          m :: (if Nat.leb (e - i) (length s)
                then matchAll_from fuel' r e (skipn (e - i) s) else [])
      end
  end.

Definition matchAll (r : regex) (s : jsstring) : list rmatch :=
  matchAll_from (S (length s)) r 0 s.

(** Pattern building blocks. *)
Definition lit1 (c : N) : regex := Char (N.eqb c).

(** A character of a pattern under the [i] flag: a letter matches in
    both cases. *)
Definition ci_char (c d : N) : bool :=
  (d =? c)%N || (is_lower d && (d - 32 =? c)%N) || (is_upper d && (d + 32 =? c)%N).

Definition ci1 (c : N) : regex := Char (ci_char c).

(** Character classes [[abc]] and [[^abc]], and [[abc]] under the [i] flag. *)
Definition one_of (s : string) : regex := Char (fun d => existsb (N.eqb d) (str s)).
Definition none_of (s : string) : regex := Char (fun d => negb (existsb (N.eqb d) (str s))).
Definition one_of_ci (s : string) : regex :=
  Char (fun d => existsb (fun c => ci_char c d) (str s)).

Fixpoint seqs (rs : list regex) : regex :=
  match rs with
  | [] => Empty
  | [r] => r
  | r :: rs' => Seq r (seqs rs')
  end.

Definition lit (s : string) : regex := seqs (map lit1 (str s)).
Definition ci (s : string) : regex := seqs (map ci1 (str s)).

Definition any_char : N -> bool := fun _ => true.
(** [.] without the dotAll flag: anything but a line terminator. *)
Definition dot (c : N) : bool :=
  negb ((c =? 10)%N || (c =? 13)%N || (c =? 8232)%N || (c =? 8233)%N).

Definition star (r : regex) : regex := Rep 0 None true r.
Definition lazy_star (r : regex) : regex := Rep 0 None false r.
Definition plus (r : regex) : regex := Rep 1 None true r.
Definition opt (r : regex) : regex := Rep 0 (Some 1) true r.
Definition times (lo hi : nat) (r : regex) : regex := Rep lo (Some hi) true r.

(** Text of a capture handed to [parseInt]; a group that took no part
    reads as [undefined], for which [parseInt] gives [NaN] as it does for
    the empty text. *)
Definition group_text (m : rmatch) (i : nat) : jsstring :=
  match group m i with
  | Some s => s
  | None => []
  end.

(** The trigger handed to the notification service; [repeats] is absent
    from the weekly triggers of the lecture path. *)
Inductive triggerType := CALENDAR | WEEKLY.

Record trigger := Trigger {
  type : triggerType;
  weekday : Z;
  hour : number;
  minute : number;
  repeats : option bool
}.

(* ================================================================== *)
(** * app/(tabs)/routine.tsx *)
(* ================================================================== *)

Module Routine.

(** [getDayNumber]: the number of the table for a weekday name and [-1]
    for any other text, but for the names of the members that objects
    inherit ([constructor], [toString], ...; see [objectMembers] below):
    for those the lookup [map[day] ?? -1] of the source gives the member,
    which is no number.  The embedding gives [-1] for them too; what
    is proved below about the number of a day is stated for a weekday
    name, or for a text that names no such member. *)
Definition getDayNumber (day : jsstring) : Z :=
  if jseq day (str "Sunday") then 0
  else if jseq day (str "Monday") then 1
  else if jseq day (str "Tuesday") then 2
  else if jseq day (str "Wednesday") then 3
  else if jseq day (str "Thursday") then 4
  else if jseq day (str "Friday") then 5
  else if jseq day (str "Saturday") then 6
  else (-1).

(** [const [h, m] = t.split(':').map(Number); return h * 60 + m;] *)
Definition timeToMinutes (t : jsstring) : number :=
  match map Number_ (split_on (chr ":") t) with
  | h :: m :: _ => nadd (nmul h (Int 60)) m
  | _ => NaN
  end.

(** [/^(\d{2}):(\d{2})$/] *)
Definition re_validTime : regex :=
  seqs [Bol; Group 1 (times 2 2 (Char is_digit)); lit ":";
        Group 2 (times 2 2 (Char is_digit)); Eol].

Definition validTime (t : jsstring) : bool :=
  match exec re_validTime t with
  | None => false
  | Some m =>
      match parseInt (group_text m 1) 10, parseInt (group_text m 2) 10 with
      | Some hh, Some mm =>
          (0 <=? hh)%Z && (hh <=? 23)%Z && (0 <=? mm)%Z && (mm <=? 59)%Z
      | _, _ => false
      end
  end.

(** [toHHMM]; every caller passes an integer number of minutes. *)
Definition toHHMM (totalMinutes : Z) : jsstring :=
  let mins := Z.rem (Z.rem totalMinutes 1440 + 1440) 1440 in
  let hh := (mins / 60)%Z in
  let mm := Z.rem mins 60 in
  padStart2 (string_of_Z hh) ++ str ":" ++ padStart2 (string_of_Z mm).


(** The wrap-around loop of [getWeeklyTrigger]:
    [while (mins < 0) { mins += 24 * 60; triggerDay = (triggerDay + 6) % 7; }]
    run for at most [fuel] iterations; [Unfinished] when it is still
    running.  The sum is the binary64 sum: a value of [mins] so far below
    zero that adding 1440 rounds back to it is never left. *)
Fixpoint wrapLoop (fuel : nat) (mins : number) (triggerDay : Z)
  : outcome (number * Z) :=
  if nlt mins (Int 0) then
    match fuel with
    | O => Unfinished
    | S fuel' => wrapLoop fuel' (nadd64 mins (Int (24 * 60))) (Z.rem (triggerDay + 6) 7)
    end
  else Ret (mins, triggerDay).

(** [getWeeklyTrigger(day, time, offsetMins)]; [Ret None] is the [null]
    result.  The day is taken to be a text that names no member that
    objects inherit (see [getDayNumber]). *)
Definition getWeeklyTrigger (fuel : nat) (day time : jsstring) (offsetMins : number)
  : outcome (option trigger) :=
  let dayNum := getDayNumber day in
  if (dayNum <? 0)%Z then Ret None
  else
    bind (wrapLoop fuel (nsub64 (timeToMinutes time) offsetMins) dayNum) (fun r =>
    let (mins, triggerDay) := r in
    let hour := Math_floor (ndiv mins (Int 60)) in
    let minute := nrem mins (Int 60) in
    let weekday := if (triggerDay =? 0)%Z then 1%Z else (triggerDay + 1)%Z in
    Ret (Some (Trigger CALENDAR weekday hour minute (Some true)))).

(** ** Tabular import *)

(** A cell of an imported row, as [JSON.parse] or the sheet reader
    delivers it.  [VDate h m text] is a valid [Date] with its local hours
    and minutes; [VObj text] is any other object that has a text, and
    [text] is what [String(value)] gives; [VBare deep] is an object on
    which [String(value)] throws: a [TypeError] when it has no primitive
    value (parsed JSON with a member named [toString], an array that
    holds one), a [RangeError] when it is an array nested deeper than the
    stack of the engine holds ([deep]). *)
Inductive value :=
| VUndefined
| VNull
| VBool (b : bool)
| VNum (n : number)
| VStr (s : jsstring)
| VDate (hours minutes : Z) (text : jsstring)
| VObj (text : jsstring)
| VBare (deep : bool).

(** The names of the members that every object inherits from
    [Object.prototype]: a lookup [table[key]] in an object literal finds
    them when [key] is no key of the table. *)
Definition objectMembers : list jsstring :=
  map str ["constructor"; "__defineGetter__"; "__defineSetter__";
           "hasOwnProperty"; "__lookupGetter__"; "__lookupSetter__";
           "isPrototypeOf"; "propertyIsEnumerable"; "toString"; "valueOf";
           "__proto__"; "toLocaleString"]%string.

(** What [toFullDay] returns when it is not [null]: the weekday name of
    the table or, for a text that names an inherited member, that member
    (a function or an object, which is not a text and is not falsy). *)
Inductive dayValue :=
| Weekday (name : jsstring)
| Member (key : jsstring).

(** [ImportedRoutine]; the declared type of [day] is [string], and [D]
    is the type of what the member holds: the result of [toFullDay] in
    the rows that [parseImportedRows] returns. *)
Record ImportedRoutine (D : Type) := {
  title : jsstring;
  day : D;
  startTime : jsstring;
  endTime : jsstring;
  notes : jsstring;
  done : bool;
  reminderEnabled : Z
}.

Arguments title {D} _.
Arguments day {D} _.
Arguments startTime {D} _.
Arguments endTime {D} _.
Arguments notes {D} _.
Arguments done {D} _.
Arguments reminderEnabled {D} _.

(** [a ?? b] *)
Definition nullish (a b : value) : value :=
  match a with
  | VUndefined | VNull => b
  | _ => a
  end.

Infix "??" := nullish (at level 45, left associativity).

Section Tabular.

(** Text of the finite numbers that do not print as plain decimal
    integers (the engine's Number::toString). *)
Variable exotic : number -> jsstring.

Definition String_ (v : value) : outcome jsstring :=
  match v with
  | VUndefined => Ret (str "undefined")
  | VNull => Ret (str "null")
  | VBool true => Ret (str "true")
  | VBool false => Ret (str "false")
  | VNum n => Ret (numberToString exotic n)
  | VStr s => Ret s
  | VDate _ _ text => Ret text
  | VObj text => Ret text
  | VBare deep => Throw (if deep then RangeError else TypeError)
  end.

Definition parseBool (v : value) : outcome bool :=
  match v with
  | VBool b => Ret b
  | VNum n => Ret (negb (neq n (Int 0)))
  | _ =>
      bind (String_ (v ?? VStr [])) (fun text =>
      let s := toLowerCase (trim text) in
      Ret (jseq s (str "1") || jseq s (str "true") || jseq s (str "yes")
           || jseq s (str "y")))
  end.

Definition fullDayTable : list (string * string) :=
  [("mon", "Monday"); ("monday", "Monday");
   ("tue", "Tuesday"); ("tues", "Tuesday"); ("tuesday", "Tuesday");
   ("wed", "Wednesday"); ("wednesday", "Wednesday");
   ("thu", "Thursday"); ("thur", "Thursday"); ("thurs", "Thursday");
   ("thursday", "Thursday");
   ("fri", "Friday"); ("friday", "Friday");
   ("sat", "Saturday"); ("saturday", "Saturday");
   ("sun", "Sunday"); ("sunday", "Sunday")]%string.

Fixpoint table_get (key : jsstring) (t : list (string * string)) : option jsstring :=
  match t with
  | [] => None
  | (k, v) :: t' => if jseq key (str k) then Some (str v) else table_get key t'
  end.

(** [map[key] ?? null]: a key of the table, else an inherited member,
    else [null]. *)
Definition lookupDay (key : jsstring) : option dayValue :=
  match table_get key fullDayTable with
  | Some name => Some (Weekday name)
  | None => if includes objectMembers key then Some (Member key) else None
  end.

(** [toFullDay]; [None] is the [null] result. *)
Definition toFullDay (v : value) : outcome (option dayValue) :=
  bind (String_ (v ?? VStr [])) (fun text =>
  let raw := trim text in
  match raw with
  | [] => Ret None
  | _ => Ret (lookupDay (toLowerCase raw))
  end).

(** [String(value ?? '').toLowerCase().replace(/[\s_\-]/g, '')] on a
    column header (a property name, hence a string). *)
Definition normalizeHeader (k : jsstring) : jsstring :=
  filter (fun c => negb (is_space c || (c =? chr "_")%N || (c =? chr "-")%N))
         (toLowerCase k).

(** [/^(\d{1,2})(?::(\d{2}))?(?::\d{2})?\s*([AP]M)$/i] *)
Definition re_ampm : regex :=
  seqs [Bol; Group 1 (times 1 2 (Char is_digit));
        opt (Seq (lit ":") (Group 2 (times 2 2 (Char is_digit))));
        opt (Seq (lit ":") (times 2 2 (Char is_digit)));
        star (Char is_space);
        Group 3 (Seq (one_of_ci "AP") (ci1 (chr "M")));
        Eol].

(** [/^(\d{1,2}):(\d{2})(?::\d{2})?$/] *)
Definition re_plain : regex :=
  seqs [Bol; Group 1 (times 1 2 (Char is_digit)); lit ":";
        Group 2 (times 2 2 (Char is_digit));
        opt (Seq (lit ":") (times 2 2 (Char is_digit))); Eol].

Definition Qlt_bool (a b : Q) : bool := negb (Qle_bool b a).

(** The branch of [parseSpreadsheetTime] for a finite number, on the
    exact value of the number.  The products are taken exactly, where
    the source rounds each of them to binary64: the two differ only for
    a value one rounding step below a half minute, for which the source
    finds the minute after the one found here.  Both are minutes of the
    day, and what is proved of this branch does not depend on which of
    the two it is. *)
Definition numericTime (value : Q) : jsstring :=
  if Qle_bool 0 value && Qlt_bool value 1 then
    toHHMM (Math_round (value * 24 * 60))
  else
    let frac := (value - inject_Z (Qfloor value))%Q in
    if Qlt_bool 0 frac then toHHMM (Math_round (frac * 24 * 60))
    else if Qle_bool 0 value && Qle_bool value 23 then
      toHHMM (Math_round (value * 60))
    else [].

(** The text of [toHHMM(NaN)]. *)
Definition hhmm_NaN : jsstring := str "NaN:NaN".

(** The branches of [parseSpreadsheetTime] for a text that is neither a
    valid time nor numeric. *)
Definition textTime (raw : jsstring) : jsstring :=
  match exec re_ampm raw with
  | Some ampm =>
      let mer := toUpperCase (group_text ampm 3) in
      match parseInt (group_text ampm 1) 10,
            parseInt (match group ampm 2 with Some s => s | None => str "0" end) 10
      with
      | Some h, Some m =>
          let h' := if jseq mer (str "AM")
                    then (if (h =? 12)%Z then 0%Z else h)
                    else (if (h <? 12)%Z then (h + 12)%Z else h) in
          toHHMM (h' * 60 + m)
      | _, _ => hhmm_NaN
      end
  | None =>
      match exec re_plain raw with
      | Some plain =>
          match parseInt (group_text plain 1) 10, parseInt (group_text plain 2) 10 with
          | Some h, Some m =>
              if (0 <=? h)%Z && (h <=? 23)%Z && (0 <=? m)%Z && (m <=? 59)%Z
              then toHHMM (h * 60 + m) else []
          | _, _ => []
          end
      | None => []
      end
  end.

(** [parseSpreadsheetTime(value)].  The function calls itself on the
    numeric reading of a text; [stack] is the number of frames the call
    stack still holds, and running out of them is the engine's
    [RangeError]. *)
Fixpoint parseSpreadsheetTime (stack : nat) (v : value) : outcome jsstring :=
  match stack with
  | O => Throw RangeError
  | S stack' =>
      match v with
      | VUndefined | VNull => Ret []
      | VDate h m _ => Ret (toHHMM (h * 60 + m))
      | _ =>
          match (match v with VNum n => to_Q n | _ => None end) with
          | Some q => Ret (numericTime q)
          | None =>
              bind (String_ v) (fun text =>
              let raw := trim text in
              match raw with
              | [] => Ret []
              | _ =>
                  if validTime raw then Ret raw
                  else
                    let asNum := Number_ raw in
                    if negb (isNaN asNum) then parseSpreadsheetTime stack' (VNum asNum)
                    else Ret (textTime raw)
              end)
          end
      end
  end.

(** The [Map] built from a row: later entries with the same normalised
    header replace earlier ones. *)
Definition byKey_of (row : list (jsstring * value)) : list (jsstring * value) :=
  fold_left (fun m kv => (normalizeHeader (fst kv), snd kv) :: m) row [].

Fixpoint get (m : list (jsstring * value)) (k : string) : value :=
  match m with
  | [] => VUndefined
  | (k', v) :: m' => if jseq (str k) k' then v else get m' k
  end.

(** [!day] *)
Definition no_day (day : option dayValue) : bool :=
  match day with
  | None => true
  | Some (Weekday d) => is_empty d
  | Some (Member _) => false
  end.

Definition row_error (i : nat) (what : string) : error :=
  Error (str "Row " ++ string_of_Z (Z.of_nat i + 2) ++ str what).

(** One turn of the loop of [parseImportedRows]: [Ret None] is the
    [continue] of a blank row.  A row is what [Object.entries] makes of
    it, in that order; [None] is a row that is [null], on which
    [Object.entries] throws a [TypeError] (a row that is a number or a
    boolean has no entry, a text has its characters, an array its
    elements).  The values are computed in the order of the source,
    before the first test. *)
Definition parseRow (stack : nat) (i : nat) (row : option (list (jsstring * value)))
  : outcome (option (ImportedRoutine (option dayValue))) :=
  match row with
  | None => Throw TypeError
  | Some entries =>
      let byKey := byKey_of entries in
      bind (String_ (get byKey "title" ?? get byKey "activity"
                     ?? get byKey "task" ?? VStr [])) (fun titleText =>
      let title := trim titleText in
      bind (toFullDay (get byKey "day" ?? get byKey "weekday")) (fun day =>
      let startRaw := get byKey "starttime" ?? get byKey "start" ?? VStr [] in
      let endRaw := get byKey "endtime" ?? get byKey "end" ?? VStr [] in
      bind (parseSpreadsheetTime stack startRaw) (fun startTime =>
      bind (parseSpreadsheetTime stack endRaw) (fun endTime =>
      bind (String_ (get byKey "notes" ?? get byKey "note" ?? VStr []))
           (fun notesText =>
      let notes := trim notesText in
      bind (parseBool (get byKey "done")) (fun done =>
      bind (parseBool (get byKey "reminderenabled" ?? get byKey "reminder"))
           (fun reminder =>
      let reminderEnabled := if reminder then 1%Z else 0%Z in
      if is_empty title && no_day day && is_empty startTime && is_empty endTime
      then Ret None
      else if is_empty title || no_day day || is_empty startTime
              || is_empty endTime then
        Throw (row_error i " is missing required fields (title/day/startTime/endTime).")
      else if negb (validTime startTime) || negb (validTime endTime) then
        Throw (row_error i " has invalid time. Use HH:MM (24-hour).")
      else if nle (timeToMinutes endTime) (timeToMinutes startTime) then
        Throw (row_error i " has endTime earlier than startTime.")
      else Ret (Some {| title := title; day := day; startTime := startTime;
                        endTime := endTime; notes := notes; done := done;
                        reminderEnabled := reminderEnabled |}))))))))
  end.

Fixpoint parseRowsFrom (stack : nat) (i : nat)
    (rows : list (option (list (jsstring * value))))
  : outcome (list (ImportedRoutine (option dayValue))) :=
  match rows with
  | [] => Ret []
  | row :: rows' =>
      bind (parseRow stack i row) (fun r =>
      bind (parseRowsFrom stack (S i) rows') (fun parsed =>
      Ret (match r with Some item => item :: parsed | None => parsed end)))
  end.

Definition parseImportedRows (stack : nat)
    (rows : list (option (list (jsstring * value))))
  : outcome (list (ImportedRoutine (option dayValue))) :=
  parseRowsFrom stack 0 rows.

End Tabular.

(** ** Routine items and their reminders *)

(** [reminderIds] and [reminderId] are optional; [None] is an absent (or
    [null]) member. *)
Record RoutineItem := {
  r_id : jsstring;
  r_title : jsstring;
  r_day : jsstring;
  r_startTime : jsstring;
  r_endTime : jsstring;
  r_notes : jsstring;
  r_done : bool;
  r_reminderEnabled : Z;
  r_reminderIds : option (list jsstring);
  r_reminderId : option jsstring
}.

(** The calls the screen issues, in the order it issues them. *)
Inductive call :=
| GetPermissions
| RequestPermissions
| Cancel (id : jsstring)
| Schedule (title body : jsstring) (t : trigger)
| Alert (title message : jsstring)
| Persist (sorted : list RoutineItem)   (* [setItems(sorted)], [setItem(key, text of sorted)] *)
| HapticSelection
| CloseModal.

(** The collaborators: what each call answers, given the log up to and
    including that call.  A permission answer is the pair of [granted]
    and the provisional iOS status.  [sortRoutine] is the [sort] of the
    engine on a copy of the list, with the comparator of the source (the
    weight of the day, then [localeCompare] of the start times). *)
Record env := {
  permissions : list call -> bool * bool;
  requested : list call -> bool * bool;
  cancelResult : list call -> outcome unit;
  scheduleResult : list call -> outcome jsstring;
  persistResult : list call -> outcome unit;
  sortRoutine : list RoutineItem -> list RoutineItem;
  now : Z
}.

Local Open Scope effect_scope.

Section Screen.

Variable E : env.

Definition ensureNotificationPermission : M call bool :=
  perms <- perform GetPermissions (fun log => Ret (permissions E log)) ;;
  if fst perms || snd perms then ret true
  else
    req <- perform RequestPermissions (fun log => Ret (requested E log)) ;;
    ret (fst req || snd req).

Definition getRoutineNotificationIds (item : RoutineItem) : list jsstring :=
  match r_reminderIds item with
  | Some (id :: ids) => id :: ids
  | _ =>
      match r_reminderId item with
      | Some (c :: id) => [c :: id]
      | _ => []
      end
  end.

Definition cancelScheduledNotificationAsync (id : jsstring) : M call unit :=
  perform (Cancel id) (cancelResult E).

(** [await Promise.all(ids.map(id => cancel(id).catch(() => {})))]: the
    calls are issued in the order of [ids], each failure is caught. *)
Definition cancelRoutineNotifications (item : RoutineItem) : M call unit :=
  forEach (fun id => catch_ignore (cancelScheduledNotificationAsync id))
          (getRoutineNotificationIds item).

Definition scheduleNotificationAsync (title body : jsstring) (t : trigger)
  : M call jsstring :=
  perform (Schedule title body t) (scheduleResult E).

(** Schedule one reminder when its trigger is not [null]. *)
Definition scheduleIf (fuel : nat) (title : jsstring) (body : jsstring)
    (day time : jsstring) (offset : number) (ids : list jsstring)
  : M call (list jsstring) :=
  tr <- lift (getWeeklyTrigger fuel day time offset) ;;
  match tr with
  | Some t => id <- scheduleNotificationAsync title body t ;; ret (ids ++ [id])
  | None => ret ids
  end.

(** [scheduleRoutineNotifications(item, leadMins)]; [None] is [null]. *)
Definition scheduleRoutineNotifications (fuel : nat) (item : RoutineItem)
    (leadMins : number) : M call (option (list jsstring)) :=
  hasPerms <- ensureNotificationPermission ;;
  if negb hasPerms then ret None
  else
    let body := r_day item ++ str " " ++ r_startTime item ++ str " - "
                ++ r_endTime item
                ++ (if is_empty (r_notes item) then []
                    else [32; 8226; 32]%N ++ r_notes item) in
    ids <- (if ngt leadMins (Int 0)
            then scheduleIf fuel (str "Upcoming routine: " ++ r_title item) body
                   (r_day item) (r_startTime item) leadMins []
            else ret []) ;;
    ids <- scheduleIf fuel (str "Start now: " ++ r_title item) body
             (r_day item) (r_startTime item) (Int 0) ids ;;
    ids <- scheduleIf fuel (str "Ended: " ++ r_title item) body
             (r_day item) (r_endTime item) (Int 0) ids ;;
    ret (match ids with [] => None | _ => Some ids end).

(** The state of the screen that [saveItem] reads. *)
Record screen := {
  items : list RoutineItem;
  editingId : option jsstring;
  f_title : jsstring;
  formDay : jsstring;
  f_startTime : jsstring;
  f_endTime : jsstring;
  f_notes : jsstring;
  f_reminderEnabled : bool;
  reminderLeadTime : number
}.

Definition DAY_FULL (short : jsstring) : option jsstring :=
  table_get short
    [("Mon", "Monday"); ("Tue", "Tuesday"); ("Wed", "Wednesday");
     ("Thu", "Thursday"); ("Fri", "Friday"); ("Sat", "Saturday");
     ("Sun", "Sunday")]%string.

(** [persistRoutine(next)]: the sorted list is shown and stored. *)
Definition persistRoutine (next : list RoutineItem) : M call unit :=
  let sorted := sortRoutine E next in
  perform (Persist sorted) (persistResult E).

Definition alert (title message : string) : M call unit :=
  perform (Alert (str title) (str message)) (fun _ => Ret tt).

(** The reminder members of the saved item, from the identifiers that
    scheduling returned. *)
Definition withScheduled (item : RoutineItem) (scheduledIds : option (list jsstring))
  : RoutineItem :=
  {| r_id := r_id item; r_title := r_title item; r_day := r_day item;
     r_startTime := r_startTime item; r_endTime := r_endTime item;
     r_notes := r_notes item; r_done := r_done item;
     r_reminderEnabled :=
       match scheduledIds with Some (_ :: _) => 1%Z | _ => 0%Z end;
     r_reminderIds := Some (match scheduledIds with Some ids => ids | None => [] end);
     r_reminderId :=
       match scheduledIds with Some (id :: _) => Some id | _ => None end |}.

Definition scheduleFor (fuel : nat) (st : screen) (item : RoutineItem)
  : M call RoutineItem :=
  if f_reminderEnabled st then
    scheduledIds <- scheduleRoutineNotifications fuel item (reminderLeadTime st) ;;
    (match scheduledIds with
     | None => alert "Reminder disabled" "Notification permission not granted."
     | Some _ => ret tt
     end) ;;;
    ret (withScheduled item scheduledIds)
  else ret item.

(** [saveItem()] *)
Definition saveItem (fuel : nat) (st : screen) : M call unit :=
  if is_empty (trim (f_title st)) then
    alert "Missing title" "Please enter a routine title."
  else if negb (validTime (trim (f_startTime st)))
          || negb (validTime (trim (f_endTime st))) then
    alert "Invalid time" "Use 24-hour format like 07:30 and 18:45."
  else if nle (timeToMinutes (trim (f_endTime st)))
              (timeToMinutes (trim (f_startTime st))) then
    alert "Invalid range" "End time must be later than start time."
  else
    let day := match DAY_FULL (formDay st) with
               | Some d => d
               | None => str "Monday"
               end in
    let bit := if f_reminderEnabled st then 1%Z else 0%Z in
    match editingId st with
    | Some (c :: e) =>
        let editing := c :: e in
        match find (fun i => jseq (r_id i) editing) (items st) with
        | None => ret tt
        | Some prev =>
            cancelRoutineNotifications prev ;;;
            let nextBase :=
              {| r_id := r_id prev; r_title := trim (f_title st); r_day := day;
                 r_startTime := trim (f_startTime st);
                 r_endTime := trim (f_endTime st);
                 r_notes := trim (f_notes st); r_done := r_done prev;
                 r_reminderEnabled := bit; r_reminderIds := Some [];
                 r_reminderId := None |} in
            nextBase <- scheduleFor fuel st nextBase ;;
            persistRoutine
              (map (fun i => if jseq (r_id i) editing then nextBase else i)
                   (items st)) ;;;
            perform HapticSelection (fun _ => Ret tt) ;;;
            perform CloseModal (fun _ => Ret tt)
        end
    | _ =>
        let nextItem :=
          {| r_id := string_of_Z (now E); r_title := trim (f_title st);
             r_day := day; r_startTime := trim (f_startTime st);
             r_endTime := trim (f_endTime st); r_notes := trim (f_notes st);
             r_done := false; r_reminderEnabled := bit;
             r_reminderIds := Some []; r_reminderId := None |} in
        nextItem <- scheduleFor fuel st nextItem ;;
        persistRoutine (items st ++ [nextItem]) ;;;
        perform HapticSelection (fun _ => Ret tt) ;;;
        perform CloseModal (fun _ => Ret tt)
    end.

End Screen.

End Routine.

(* ================================================================== *)
(** * context/ScheduleContext.tsx *)
(* ================================================================== *)

Module ScheduleContext.

Record Lecture := {
  id : Z;
  day : jsstring;
  subject : jsstring;
  room : jsstring;
  teacher : jsstring;
  startTime : jsstring;
  endTime : jsstring;
  reminderEnabled : Z
}.

Definition timeToMinutes (time : jsstring) : number :=
  match map Number_ (split_on (chr ":") time) with
  | h :: m :: _ => nadd (nmul h (Int 60)) m
  | _ => NaN
  end.

(** [getDayNumber]: as in the routine screen, the number of the table
    for a weekday name and [-1] for any other text but the names of the
    members that objects inherit ([Routine.objectMembers]), for which
    the lookup [map[day] ?? -1] gives the member.  The embedding gives
    [-1] for those too; where a property below depends on the number of
    a day that is no weekday name, it is stated for the other texts
    only. *)
Definition getDayNumber (day : jsstring) : Z :=
  if jseq day (str "Sunday") then 0
  else if jseq day (str "Monday") then 1
  else if jseq day (str "Tuesday") then 2
  else if jseq day (str "Wednesday") then 3
  else if jseq day (str "Thursday") then 4
  else if jseq day (str "Friday") then 5
  else if jseq day (str "Saturday") then 6
  else (-1).

Inductive call :=
| GetPermissions
| RequestPermissions
| Cancel (identifier : jsstring)
| Schedule (identifier title body : jsstring) (t : trigger).

(** The collaborators: the platform, whether a permission answer has the
    status ['granted'], and what the notification service answers. *)
Record env := {
  platformIsWeb : bool;
  existingGranted : list call -> bool;
  requestGranted : list call -> bool;
  cancelResult : list call -> outcome unit;
  scheduleResult : list call -> outcome jsstring
}.

Local Open Scope effect_scope.

Section Provider.

Variable E : env.

Definition requestNotificationPermissions : M call bool :=
  if platformIsWeb E then ret false
  else
    existing <- perform GetPermissions (fun log => Ret (existingGranted E log)) ;;
    if existing then ret true
    else perform RequestPermissions (fun log => Ret (requestGranted E log)).

Definition lectureIdentifier (lectureId : Z) : jsstring :=
  str "lecture-" ++ string_of_Z lectureId.

(** [scheduleNotification(lecture, leadTime)]; [Ret None] is [null]. *)
Definition scheduleNotification (lecture : Lecture) (leadTime : number)
  : M call (option jsstring) :=
  granted <- requestNotificationPermissions ;;
  if negb granted then ret None
  else
    let dayNum := getDayNumber (day lecture) in
    if (dayNum <? 0)%Z then ret None
    else
      let startMins := timeToMinutes (startTime lecture) in
      let notifyMins := nsub startMins leadTime in
      let notifyHour := Math_floor (ndiv notifyMins (Int 60)) in
      let notifyMinute := nrem notifyMins (Int 60) in
      if nlt notifyHour (Int 0) || nlt notifyMinute (Int 0) then ret None
      else
        catch_ignore
          (perform (Cancel (lectureIdentifier (id lecture))) (cancelResult E)) ;;;
        newId <- perform
          (Schedule (lectureIdentifier (id lecture))
             (str "Upcoming: " ++ subject lecture)
             (room lecture ++ [32; 183; 32]%N ++ teacher lecture
              ++ [32; 183; 32]%N ++ str "Starts at " ++ startTime lecture)
             (Trigger WEEKLY
                (if (dayNum =? 0)%Z then 1%Z else (dayNum + 1)%Z)
                notifyHour notifyMinute None))
          (scheduleResult E) ;;
        ret (Some newId).

Definition cancelNotification (lectureId : Z) : M call unit :=
  catch_ignore (perform (Cancel (lectureIdentifier lectureId)) (cancelResult E)).

End Provider.

End ScheduleContext.

(* ================================================================== *)
(** * app/import.tsx *)
(* ================================================================== *)

Module ImportScreen.

Definition DAYS : list jsstring :=
  map str ["Monday"; "Tuesday"; "Wednesday"; "Thursday"; "Friday";
           "Saturday"; "Sunday"]%string.

Definition SECTION_ORDER : list (Z * jsstring) :=
  [(1, str "M1"); (1, str "M2"); (2, str "M1"); (2, str "M2");
   (3, str "M1"); (3, str "M2"); (4, str "A"); (4, str "B");
   (5, str "A"); (5, str "B")]%Z.

(** [/([1-8])/] *)
Definition re_semesterDigit : regex :=
  Group 1 (Char (fun c => (49 <=? c)%N && (c <=? 56)%N)).

(** [parseSemesterNumber]; [None] is [null]. *)
Definition parseSemesterNumber (value : jsstring) : option Z :=
  match exec re_semesterDigit value with
  | None => None
  | Some m =>
      match parseInt (group_text m 1) 10 with
      | Some n => if (1 <=? n)%Z && (n <=? 8)%Z then Some n else None
      | None => None
      end
  end.

(** [s.replace(/\s+/g, ' ')]: every run of white space becomes one space. *)
Fixpoint collapseSpaces (inRun : bool) (s : jsstring) : jsstring :=
  match s with
  | [] => []
  | c :: s' =>
      if is_space c then
        (if inRun then collapseSpaces true s' else 32%N :: collapseSpaces true s')
      else c :: collapseSpaces false s'
  end.

(** [value.replace(/[\u0000-\u001f]/g, ' ').replace(/\s+/g, ' ').trim()] *)
Definition normalizeTextToken (value : jsstring) : jsstring :=
  trim (collapseSpaces false (map (fun c => if (c <=? 31)%N then 32%N else c) value)).

Inductive meridiem := AM | PM.

Definition meridiem_text (m : meridiem) : jsstring :=
  match m with AM => str "AM" | PM => str "PM" end.

(** [/^(\d{1,2}):(\d{2})(?:\s*([AP]M))?$/i] *)
Definition re_time : regex :=
  seqs [Bol; Group 1 (times 1 2 (Char is_digit)); lit ":";
        Group 2 (times 2 2 (Char is_digit));
        opt (Seq (star (Char is_space))
                 (Group 3 (Seq (one_of_ci "AP") (ci1 (chr "M")))));
        Eol].

(** [h] and [min] come from digit captures; were they [NaN] the text
    would be that of [NaN]. *)
Definition text_or_NaN (n : option Z) : jsstring :=
  match n with Some z => string_of_Z z | None => str "NaN" end.

Definition normalizeTime (value : jsstring) (fallbackMeridiem : meridiem) : jsstring :=
  match exec re_time (trim value) with
  | None => trim value
  | Some m =>
      let h := parseInt (group_text m 1) 10 in
      let min := parseInt (group_text m 2) 10 in
      let mer := match group m 3 with
                 | Some g => toUpperCase g
                 | None => meridiem_text fallbackMeridiem
                 end in
      let h' := if jseq mer (str "AM")
                then option_map (fun h => if (h =? 12)%Z then 0%Z else h) h
                else option_map (fun h => if (h <? 12)%Z then (h + 12)%Z else h) h in
      padStart2 (text_or_NaN h') ++ str ":" ++ padStart2 (text_or_NaN min)
  end.

(** [/S-\d+\s*\(([^)]+)\)/i] *)
Definition re_slot : regex :=
  seqs [ci1 (chr "S"); lit "-"; plus (Char is_digit); star (Char is_space);
        lit "("; Group 1 (plus (none_of ")")); lit ")"].

(** [\d{1,2}:\d{2}(?:[AP]M)?] under the [i] flag *)
Definition re_clock : regex :=
  seqs [times 1 2 (Char is_digit); lit ":"; times 2 2 (Char is_digit);
        opt (Seq (one_of_ci "AP") (ci1 (chr "M")))].

(** [/(\d{1,2}:\d{2}(?:[AP]M)?)\s*[-–]\s*(\d{1,2}:\d{2}(?:[AP]M)?)/i];
    the second member of the class is the en dash U+2013. *)
Definition re_range : regex :=
  seqs [Group 1 re_clock; star (Char is_space);
        Char (fun c => (c =? chr "-")%N || (c =? 8211)%N);
        star (Char is_space); Group 2 re_clock].

(** [/PM$/i] and [/AM$/i] *)
Definition re_PM_end : regex := seqs [ci1 (chr "P"); ci1 (chr "M"); Eol].
Definition re_AM_end : regex := seqs [ci1 (chr "A"); ci1 (chr "M"); Eol].

(** [x >= 8] on the result of [parseInt]. *)
Definition at_least_8 (n : option Z) : bool :=
  match n with Some z => (8 <=? z)%Z | None => false end.

Definition parseSlotRange (token : jsstring) : option (jsstring * jsstring) :=
  match exec re_slot token with
  | None => None
  | Some slotMatch =>
      let raw := filter (fun c => negb (is_space c)) (group_text slotMatch 1) in
      match exec re_range raw with
      | None => None
      | Some rangeMatch =>
          let startRaw := group_text rangeMatch 1 in
          let endRaw := group_text rangeMatch 2 in
          let endMeridiem :=
            if test re_PM_end endRaw then Some PM
            else if test re_AM_end endRaw then Some AM else None in
          let fallbackMeridiem :=
            match endMeridiem with
            | Some m => m
            | None =>
                if at_least_8 (parseInt (hd [] (split_on (chr ":") startRaw)) 10)
                then AM else PM
            end in
          Some (normalizeTime startRaw fallbackMeridiem,
                normalizeTime endRaw fallbackMeridiem)
      end
  end.

(** ** Document token extractor *)

Definition is_octal (c : N) : bool := (48 <=? c)%N && (c <=? 55)%N.

Definition escapes (next : N) : N :=
  if (next =? chr "n")%N then 10
  else if (next =? chr "r")%N then 13
  else if (next =? chr "t")%N then 9
  else if (next =? chr "b")%N then 8
  else if (next =? chr "f")%N then 12
  else next.

(** The octal digits an escape takes: [next], then each of the two
    following characters that is an octal digit. *)
Definition octal_run (next : N) (after : jsstring) : jsstring :=
  next :: (match nth_error after 0 with
           | Some c => if is_octal c then [c] else []
           | None => []
           end)
       ++ (match nth_error after 1 with
           | Some c => if is_octal c then [c] else []
           | None => []
           end).

(** [decodePdfLiteralString]; [skip] counts the characters the loop index
    has jumped over. *)
Fixpoint decodeLiteralFrom (skip : nat) (raw : jsstring) : jsstring :=
  match raw with
  | [] => []
  | ch :: raw' =>
      match skip with
      | S skip' => decodeLiteralFrom skip' raw'
      | O =>
          if negb (ch =? chr "\")%N then ch :: decodeLiteralFrom 0 raw'
          else
            match raw' with
            | [] => []
            | next :: after =>
                if is_octal next then
                  let oct := octal_run next after in
                  (Z.to_N (radix_val 8 oct) mod 65536)%N
                    :: decodeLiteralFrom (length oct) raw'
                else escapes next :: decodeLiteralFrom 1 raw'
            end
      end
  end.

Definition decodePdfLiteralString (raw : jsstring) : jsstring :=
  decodeLiteralFrom 0 raw.

Fixpoint hexPairs (s : jsstring) : list N :=
  match s with
  | a :: b :: s' => Z.to_N (hex_val a * 16 + hex_val b) :: hexPairs s'
  | _ => []
  end.

Fixpoint utf16be (bytes : list N) : jsstring :=
  match bytes with
  | hi :: lo :: bytes' => N.lor (N.shiftl hi 8) lo :: utf16be bytes'
  | _ => []
  end.

Section Extractor.

(** The number of arguments that the engine accepts in one call. *)
Variable argumentLimit : nat.

(** [String.fromCharCode(...bytes)]: every byte is an argument of the
    call, and the engine throws a [RangeError] when there are more of
    them than it accepts. *)
Definition fromCharCodes (bytes : list N) : outcome jsstring :=
  if (length bytes <=? argumentLimit)%nat then Ret bytes else Throw RangeError.

(** [decodePdfHexString]; the bytes after the mark [FE FF] are converted
    two at a time, all other bytes in one call. *)
Definition decodePdfHexString (hex : jsstring) : outcome jsstring :=
  let clean := filter is_hex_digit hex in
  if (length clean <? 2)%nat then Ret []
  else
    let padded := if Nat.even (length clean) then clean else clean ++ [chr "0"] in
    let bytes := hexPairs padded in
    match bytes with
    | 254%N :: 255%N :: bytes' => Ret (utf16be bytes')
    | _ => fromCharCodes bytes
    end.

(** [bytesToBinary]: one code unit per byte, joined chunk by chunk; a
    chunk has at most [0x8000] bytes, a number of arguments that is
    taken to be within what the engine accepts. *)
Definition bytesToBinary (bytes : list N) : jsstring := bytes.

Definition binaryToBytes (binary : jsstring) : list N :=
  map (fun c => N.land c 255) binary.

(** [/stream\r?\n([\s\S]*?)\r?\nendstream/g] *)
Definition re_stream : regex :=
  seqs [lit "stream"; opt (lit1 13); lit1 10;
        Group 1 (lazy_star (Char any_char));
        opt (lit1 13); lit1 10; lit "endstream"].

(** [/\/FlateDecode/] *)
Definition re_flate : regex := lit "/FlateDecode".

(** [/BT[\s\S]*?ET/g] *)
Definition re_textBlock : regex :=
  seqs [lit "BT"; lazy_star (Char any_char); lit "ET"].

(** [/\[(.*?)\]\s*TJ/gs] *)
Definition re_array : regex :=
  seqs [lit "["; Group 1 (lazy_star (Char any_char)); lit "]";
        star (Char is_space); lit "TJ"].

(** [/\((?:\\.|[^\\()])*\)/g] *)
Definition re_literal : regex :=
  seqs [lit "("; star (Alt (Seq (lit "\") (Char dot)) (none_of "\()")); lit ")"].

(** [/<([0-9a-fA-F\s]+)>/g] *)
Definition re_hex : regex :=
  seqs [lit "<"; Group 1 (plus (Char (fun c => is_hex_digit c || is_space c)));
        lit ">"].

(** [/\((?:\\.|[^\\()])*\)\s*Tj/g] *)
Definition re_literalTj : regex :=
  seqs [re_literal; star (Char is_space); lit "Tj"].

(** [/\)\s*Tj$/] *)
Definition re_TjTail : regex :=
  seqs [lit ")"; star (Char is_space); lit "Tj"; Eol].

(** [s.replace(re, '')] for a pattern without the global flag. *)
Definition remove_first (r : regex) (s : jsstring) : jsstring :=
  match exec r s with
  | Some m => firstn (index m) s ++ skipn (endIndex m) s
  | None => s
  end.

(** [s.slice(1, -1)] *)
Definition slice_1_m1 (s : jsstring) : jsstring := removelast (tl s).

Definition push_token (normalized : jsstring) : list jsstring :=
  match normalized with [] => [] | _ => [normalized] end.

(** The token of one [TJ] array: its literal strings, then its
    hexadecimal strings. *)
Definition arrayTokens (arrayMatch : rmatch) : outcome (list jsstring) :=
  let inner := group_text arrayMatch 1 in
  let literals :=
    map (fun literalMatch => decodePdfLiteralString (slice_1_m1 (matched literalMatch)))
        (matchAll re_literal inner) in
  bind (mapM (fun hexMatch => decodePdfHexString (group_text hexMatch 1))
             (matchAll re_hex inner)) (fun hexes =>
  Ret (push_token (normalizeTextToken (concat (literals ++ hexes))))).

(** The tokens of one text block: the [TJ] arrays, then the [Tj] strings. *)
Definition blockTokens (block : jsstring) : outcome (list jsstring) :=
  bind (mapM arrayTokens (matchAll re_array block)) (fun arrays =>
  Ret (concat arrays
       ++ flat_map (fun literalTj =>
            let value :=
              decodePdfLiteralString (tl (remove_first re_TjTail (matched literalTj))) in
            push_token (normalizeTextToken value))
          (matchAll re_literalTj block))).

(** [unzlibSync] of the compression library; [None] when it throws. *)
Variable unzlibSync : list N -> option (list N).

(** The body of the [while] loop for one [stream ... endstream] region;
    [Ret None] is the [continue] after a failed decompression, the only
    failure that the loop catches. *)
Definition streamTokens (binary : jsstring) (streamMatch : rmatch)
  : outcome (option (list jsstring)) :=
  let streamBytes := binaryToBytes (group_text streamMatch 1) in
  let objectHeader :=
    firstn (index streamMatch - (index streamMatch - 500))
           (skipn (index streamMatch - 500) binary) in
  match (if test re_flate objectHeader then unzlibSync streamBytes
         else Some streamBytes) with
  | None => Ret None
  | Some decodedBytes =>
      let decoded := bytesToBinary decodedBytes in
      let textBlocks := map matched (matchAll re_textBlock decoded) in
      bind (mapM blockTokens textBlocks) (fun found => Ret (Some (concat found)))
  end.

(** The [while ((streamMatch = streamRegex.exec(binary)) !== null)] loop,
    which resumes each search where the previous match ended; [i] is
    [streamRegex.lastIndex] and [s] the text from there on. *)
Fixpoint streamLoop (fuel : nat) (binary : jsstring) (i : nat) (s : jsstring)
    (tokens : list jsstring) : outcome (list jsstring) :=
  match search re_stream i s with
  | None => Ret tokens
  | Some streamMatch =>
      match fuel with
      | O => Unfinished
      | S fuel' =>
          bind (streamTokens binary streamMatch) (fun found =>
          let tokens' :=
            match found with
            | Some found => tokens ++ found
            | None => tokens
            end in
          streamLoop fuel' binary (endIndex streamMatch)
            (skipn (endIndex streamMatch - i) s) tokens')
      end
  end.

Definition extractPdfTokens (fuel : nat) (pdfBytes : list N) : outcome (list jsstring) :=
  let binary := bytesToBinary pdfBytes in
  streamLoop fuel binary 0 binary [].

End Extractor.

(** ** Timetable segmentation parser *)

(** A lecture to insert; [T] is the type of its six text members (texts
    on the document path, JSON values on the JSON path). *)
Record InsertLecture (T : Type) := {
  day : T;
  subject : T;
  room : T;
  teacher : T;
  startTime : T;
  endTime : T;
  reminderEnabled : Z
}.

Arguments day {T} _.
Arguments subject {T} _.
Arguments room {T} _.
Arguments teacher {T} _.
Arguments startTime {T} _.
Arguments endTime {T} _.
Arguments reminderEnabled {T} _.

Definition defaultSlots : list (jsstring * jsstring) :=
  map (fun p => (str (fst p), str (snd p)))
    [("08:00", "09:20"); ("09:30", "10:50"); ("11:00", "12:20");
     ("12:30", "13:50"); ("14:00", "15:20"); ("15:30", "16:50")]%string.

Definition controlTokens : list jsstring :=
  map str ["Section"; "Slots"; "Semester";
           "Time Table - Spring 2026 - BS Computer Science (Morning)"]%string
  ++ DAYS
  ++ map snd SECTION_ORDER
  ++ map str ["1st Semester"; "2nd Semester"; "3rd Semester"; "4th Semester";
              "5th Semester"; "6th Semester"; "7th Semester"; "8th Semester"]%string.

(** [/Semester$/i], [/(CR-|CS Lab|DLD Lab|Lab|Room|Floor)/i] and
    [/^(Mr\.|Ms\.|Dr\.)/i] *)
Definition re_SemesterEnd : regex := seqs [ci "Semester"; Eol].

Definition re_room : regex :=
  Group 1 (Alt (ci "CR-") (Alt (ci "CS Lab") (Alt (ci "DLD Lab")
          (Alt (ci "Lab") (Alt (ci "Room") (ci "Floor")))))).

Definition re_teacher : regex :=
  seqs [Bol; Group 1 (Alt (ci "Mr.") (Alt (ci "Ms.") (ci "Dr.")))].

(** The first loop of [parseTimetablePdf]: a weekday token closes the
    segment of the tokens gathered in [pending] and names it. *)
Fixpoint daySegmentsFrom (pending : list jsstring) (tokens : list jsstring)
  : list (jsstring * list jsstring) :=
  match tokens with
  | [] => []
  | token :: tokens' =>
      if includes DAYS token then (token, pending) :: daySegmentsFrom [] tokens'
      else daySegmentsFrom (pending ++ [token]) tokens'
  end.

Definition daySegments (tokens : list jsstring) : list (jsstring * list jsstring) :=
  daySegmentsFrom [] tokens.

(** The variables of the walk over one segment, with the lectures and
    the keys seen so far. *)
Record cursor := {
  currentSemester : Z;
  currentSection : jsstring;
  sectionOrderIndex : nat;
  slotIndex : nat;
  lectures : list (InsertLecture jsstring);
  seen : list jsstring
}.

(** [SECTION_ORDER.findIndex((entry, idx) => idx >= from && entry.section === token)] *)
Fixpoint findIndexFrom (from : nat) (token : jsstring) (idx : nat)
    (l : list (Z * jsstring)) : option nat :=
  match l with
  | [] => None
  | entry :: l' =>
      if Nat.leb from idx && jseq (snd entry) token then Some idx
      else findIndexFrom from token (S idx) l'
  end.

Definition is_section_code (token : jsstring) : bool :=
  jseq token (str "M1") || jseq token (str "M2") || jseq token (str "A")
  || jseq token (str "B").

Definition lecture_key (l : InsertLecture jsstring) : jsstring :=
  day l ++ str "|" ++ startTime l ++ str "|" ++ endTime l ++ str "|"
  ++ subject l ++ str "|" ++ room l ++ str "|" ++ teacher l.

Section Segments.

Variable targetSemester : Z.
Variable targetSection : jsstring.
Variable slotTimes : list (jsstring * jsstring).

(** The cursor after a section code. *)
Definition enterSection (token : jsstring) (c : cursor) : cursor :=
  let resolvedIndex :=
    match nth_error SECTION_ORDER (sectionOrderIndex c) with
    | Some entry =>
        if jseq (snd entry) token then sectionOrderIndex c
        else match findIndexFrom (sectionOrderIndex c) token 0 SECTION_ORDER with
             | Some found => found
             | None => sectionOrderIndex c
             end
    | None =>
        match findIndexFrom (sectionOrderIndex c) token 0 SECTION_ORDER with
        | Some found => found
        | None => sectionOrderIndex c
        end
    end in
  {| currentSemester :=
       match nth_error SECTION_ORDER resolvedIndex with
       | Some resolved => fst resolved
       | None => currentSemester c
       end;
     currentSection := token;
     sectionOrderIndex := Nat.min (resolvedIndex + 1) (length SECTION_ORDER);
     slotIndex := 0;
     lectures := lectures c;
     seen := seen c |}.

(** The cursor after a subject and room pair: the lecture is pushed when
    the semester and section are the requested ones and its key is new,
    and the slot index moves on in any case. *)
Definition takeLecture (dayName token room teacher : jsstring) (c : cursor) : cursor :=
  let c' :=
    if (targetSemester =? currentSemester c)%Z
       && (is_empty targetSection || jseq targetSection (currentSection c)) then
      match nth_error slotTimes (slotIndex c) with
      | Some slot =>
          let lecture :=
            {| day := dayName; subject := token; room := room; teacher := teacher;
               startTime := fst slot; endTime := snd slot; reminderEnabled := 0 |} in
          let key := lecture_key lecture in
          if includes (seen c) key then c
          else {| currentSemester := currentSemester c;
                  currentSection := currentSection c;
                  sectionOrderIndex := sectionOrderIndex c;
                  slotIndex := slotIndex c;
                  lectures := lectures c ++ [lecture];
                  seen := seen c ++ [key] |}
      | None => c
      end
    else c in
  {| currentSemester := currentSemester c'; currentSection := currentSection c';
     sectionOrderIndex := sectionOrderIndex c'; slotIndex := slotIndex c' + 1;
     lectures := lectures c'; seen := seen c' |}.

(** The loop over the tokens of one segment; [skip] counts the tokens
    the loop index has jumped over. *)
Fixpoint walk (dayName : jsstring) (skip : nat) (c : cursor) (tokens : list jsstring)
  : cursor :=
  match tokens with
  | [] => c
  | token :: after =>
      match skip with
      | S skip' => walk dayName skip' c after
      | O =>
          match (if test re_SemesterEnd token then parseSemesterNumber token
                 else None) with
          | Some semesterNum =>
              walk dayName 0
                {| currentSemester := semesterNum; currentSection := [];
                   sectionOrderIndex := sectionOrderIndex c; slotIndex := 0;
                   lectures := lectures c; seen := seen c |} after
          | None =>
              if is_section_code token then walk dayName 0 (enterSection token c) after
              else
                let room := hd [] after in
                if is_empty room || Nat.leb (length slotTimes) (slotIndex c)
                then walk dayName 0 c after
                else if includes controlTokens token || includes controlTokens room
                then walk dayName 0 c after
                else if negb (test re_room room) then walk dayName 0 c after
                else
                  let teacherCandidate := hd [] (tl after) in
                  let hasTeacher := test re_teacher teacherCandidate in
                  let teacher := if hasTeacher then teacherCandidate else str "TBA" in
                  walk dayName (if hasTeacher then 2 else 1)
                       (takeLecture dayName token room teacher c) after
          end
      end
  end.

(** The second loop: each segment starts from fresh cursor variables and
    keeps the lectures and keys gathered so far. *)
Definition walkSegments (segments : list (jsstring * list jsstring))
  : list (InsertLecture jsstring) :=
  lectures
    (fold_left (fun c segment =>
       walk (fst segment) 0
         {| currentSemester := 0; currentSection := []; sectionOrderIndex := 0;
            slotIndex := 0; lectures := lectures c; seen := seen c |}
         (snd segment))
       segments
       {| currentSemester := 0; currentSection := []; sectionOrderIndex := 0;
          slotIndex := 0; lectures := []; seen := [] |}).

End Segments.

(** The slot table: the first six slot markers, or the default table. *)
Definition slotTable (tokens : list jsstring) : list (jsstring * jsstring) :=
  let slots :=
    firstn 6 (flat_map (fun t => match parseSlotRange t with
                                 | Some x => [x]
                                 | None => []
                                 end) tokens) in
  if Nat.leb 6 (length slots) then slots else defaultSlots.

(** [parseTimetablePdf] from the extracted tokens on. *)
Definition timetableOfTokens (targetSemester : Z) (targetSection : jsstring)
    (tokens : list jsstring) : list (InsertLecture jsstring) :=
  match tokens with
  | [] => []
  | _ => walkSegments targetSemester targetSection (slotTable tokens) (daySegments tokens)
  end.

Section Timetable.

Variable argumentLimit : nat.
Variable unzlibSync : list N -> option (list N).

Definition parseTimetablePdf (fuel : nat) (pdfBytes : list N)
    (semesterInput sectionInput : jsstring)
  : outcome (list (InsertLecture jsstring)) :=
  match parseSemesterNumber semesterInput with
  | None => Throw (Error (str "Invalid semester. Use 1 to 8 (example: 5th)."))
  | Some targetSemester =>
      let targetSection := toUpperCase (trim sectionInput) in
      bind (extractPdfTokens argumentLimit unzlibSync fuel pdfBytes) (fun tokens =>
      Ret (timetableOfTokens targetSemester targetSection tokens))
  end.

End Timetable.

(** ** JSON import *)

#[warnings="-register-all"]
Inductive json :=
| JNull
| JBool (b : bool)
| JNum (n : number)
| JStr (s : jsstring)
| JArr (elements : list json)
| JObj (members : list (jsstring * json)).

Fixpoint member (key : jsstring) (members : list (jsstring * json)) : option json :=
  match members with
  | [] => None
  | (k, v) :: members' => if jseq key k then Some v else member key members'
  end.

(** [item.key] for the keys the import reads: a [TypeError] on [null],
    [undefined] ([None]) on a value that is no object or has no such
    member. *)
Definition prop (item : json) (key : string) : outcome (option json) :=
  match item with
  | JNull => Throw TypeError
  | JObj members => Ret (member (str key) members)
  | _ => Ret None
  end.

(** [!v] *)
Definition falsy (v : option json) : bool :=
  match v with
  | None | Some JNull => true
  | Some (JBool b) => negb b
  | Some (JNum n) => isNaN n || neq n (Int 0)
  | Some (JStr s) => is_empty s
  | Some (JArr _) | Some (JObj _) => false
  end.

(** [days.includes(v)] *)
Definition is_day (v : option json) : bool :=
  match v with
  | Some (JStr s) => includes DAYS s
  | _ => false
  end.

(** [elements.join(',')] for the text [element e] of each element. *)
Fixpoint joinTexts (element : json -> outcome jsstring) (l : list json)
  : outcome jsstring :=
  match l with
  | [] => Ret []
  | [e] => element e
  | e :: l' =>
      bind (element e) (fun t =>
      bind (joinTexts element l') (fun ts => Ret (t ++ str "," ++ ts)))
  end.

Section Json.

Variable exotic : number -> jsstring.

(** The number of nested calls of [join] that the stack of the engine
    holds. *)
Variable stackDepth : nat.

(** [String(v)], as a template literal prints a value that was parsed
    from JSON.  An object prints as [[object Object]] unless it has a
    member named [toString]: that member is no function, the inherited
    [valueOf] gives the object back, and the conversion throws a
    [TypeError].  An array prints its elements joined by commas, [null]
    as the empty text, and fails where an element fails; [depth] is the
    number of nested arrays that the stack still holds, beyond which the
    engine throws a [RangeError]. *)
Fixpoint json_text (depth : nat) (v : json) : outcome jsstring :=
  match v with
  | JNull => Ret (str "null")
  | JBool true => Ret (str "true")
  | JBool false => Ret (str "false")
  | JNum n => Ret (numberToString exotic n)
  | JStr s => Ret s
  | JArr elements =>
      match depth with
      | O => Throw RangeError
      | S depth' =>
          joinTexts (fun e => match e with JNull => Ret [] | _ => json_text depth' e end)
                    elements
      end
  | JObj members =>
      match member (str "toString") members with
      | Some _ => Throw TypeError
      | None => Ret (str "[object Object]")
      end
  end.

Definition text_of (v : option json) : outcome jsstring :=
  match v with Some j => json_text stackDepth j | None => Ret (str "undefined") end.

Definition missing_error (i : nat) : error :=
  Error (str "Item " ++ string_of_Z (Z.of_nat i + 1) ++ str " is missing required fields.").

(** The error of the second test, for the text [day] of the day. *)
Definition invalid_day_error (day : jsstring) (i : nat) : error :=
  Error (str "Invalid day " ++ [34%N] ++ day ++ [34%N] ++ str " in item "
         ++ string_of_Z (Z.of_nat i + 1) ++ str ".").

(** The callback of [raw.map] in [parseJsonLectures].  The members are
    read in the order of the test; reading a member of parsed JSON has no
    effect, so that the short cut of [||] cannot be observed.  The
    message of the second error is built before it is thrown, and
    building it converts the day to a text. *)
Definition parseItem (item : json) (i : nat) : outcome (InsertLecture (option json)) :=
  bind (prop item "day") (fun d =>
  bind (prop item "subject") (fun s =>
  bind (prop item "room") (fun r =>
  bind (prop item "teacher") (fun t =>
  bind (prop item "startTime") (fun st =>
  bind (prop item "endTime") (fun en =>
  if falsy d || falsy s || falsy r || falsy t || falsy st || falsy en then
    Throw (missing_error i)
  else if negb (is_day d) then
    bind (text_of d) (fun text => Throw (invalid_day_error text i))
  else Ret {| day := d; subject := s; room := r; teacher := t;
              startTime := st; endTime := en; reminderEnabled := 0 |})))))).

Fixpoint mapItems (items : list json) (i : nat)
  : outcome (list (InsertLecture (option json))) :=
  match items with
  | [] => Ret []
  | item :: items' =>
      bind (parseItem item i) (fun l =>
      bind (mapItems items' (S i)) (fun ls => Ret (l :: ls)))
  end.

(** [JSON.parse] of the engine. *)
Variable JSON_parse : jsstring -> outcome json.

Definition parseJsonLectures (text : jsstring)
  : outcome (list (InsertLecture (option json))) :=
  bind (JSON_parse text) (fun raw =>
  match raw with
  | JArr items => mapItems items 0
  | _ => Throw (Error (str "JSON must be an array of lectures."))
  end).

(** The calls of [handleImportJson]. *)
Inductive call :=
| AlertEmpty
| SetImporting (b : bool)
| ImportLectures (lectures : list (InsertLecture (option json)))
| HapticSuccess
| AlertImported (count : nat)
| AlertImportFailed (cause : error).

(** What the storage answers to [importLectures]. *)
Variable importResult : list call -> outcome unit.

Local Open Scope effect_scope.

(** [try { ... } catch (e) { handler(e) }] *)
Definition try_catch {A} (m : M call A) (handler : error -> M call A) : M call A :=
  fun log =>
    match m log with
    | (Throw e, log') => handler e log'
    | r => r
    end.

(** [try { ... } finally { cleanup }] for a cleanup that cannot fail. *)
Definition finally {A} (m : M call A) (cleanup : M call unit) : M call A :=
  fun log =>
    match m log with
    | (r, log') => (r, snd (cleanup log'))
    end.

Definition handleImportJson (jsonText : jsstring) : M call unit :=
  if is_empty (trim jsonText) then perform AlertEmpty (fun _ => Ret tt)
  else
    perform (SetImporting true) (fun _ => Ret tt) ;;;
    finally
      (try_catch
         (lectures <- lift (parseJsonLectures (trim jsonText)) ;;
          perform (ImportLectures lectures) importResult ;;;
          perform HapticSuccess (fun _ => Ret tt) ;;;
          perform (AlertImported (length lectures)) (fun _ => Ret tt))
         (fun e => perform (AlertImportFailed e) (fun _ => Ret tt)))
      (perform (SetImporting false) (fun _ => Ret tt)).

End Json.

End ImportScreen.

(* ================================================================== *)
(** * app/(tabs)/routine.tsx: the form and the list *)
(* ================================================================== *)

Module RoutineForm.

Import Routine.

(** [value.replace(/\D/g, '').slice(0, 4)], then a colon after the
    first two digits when there are more than two. *)
Definition normalizeTimeInput (value : jsstring) : jsstring :=
  let digits := firstn 4 (filter is_digit value) in
  if (length digits <=? 2)%nat then digits
  else firstn 2 digits ++ str ":" ++ skipn 2 digits.

Section Display.

Variable exotic : number -> jsstring.

(** [const [h, m] = t.split(':').map(Number)]: a part that is not there
    is [undefined], here [None]. *)
Definition hourMinute (t : jsstring) : option number * option number :=
  match map Number_ (split_on (chr ":") t) with
  | h :: m :: _ => (Some h, Some m)
  | [h] => (Some h, None)
  | [] => (None, None)
  end.

(** [String(x)] and [`${x}`] for a number that may be [undefined]. *)
Definition text_of (x : option number) : jsstring :=
  match x with
  | Some n => numberToString exotic n
  | None => str "undefined"
  end.

(** [formatTime(t)]: the 12-hour text shown for a stored time. *)
Definition formatTime (t : jsstring) : jsstring :=
  let (h, m) := hourMinute t in
  let ampm :=
    if match h with Some x => nge x (Int 12) | None => false end
    then str "PM" else str "AM" in
  let h12 :=
    match h with
    | Some x =>
        if neq x (Int 0) then Some (Int 12)
        else if ngt x (Int 12) then Some (nsub x (Int 12)) else Some x
    | None => None
    end in
  text_of h12 ++ str ":" ++ padStart2 (text_of m) ++ str " " ++ ampm.

End Display.

Local Open Scope effect_scope.

Section Actions.

Variable E : env.

(** [{ ...i, reminderEnabled, reminderIds, reminderId }] *)
Definition withReminder (i : RoutineItem) (enabled : Z) (ids : list jsstring)
    (first : option jsstring) : RoutineItem :=
  {| r_id := r_id i; r_title := r_title i; r_day := r_day i;
     r_startTime := r_startTime i; r_endTime := r_endTime i;
     r_notes := r_notes i; r_done := r_done i;
     r_reminderEnabled := enabled;
     r_reminderIds := Some ids; r_reminderId := first |}.

(** [toggleReminder(item, value)] *)
Definition toggleReminder (fuel : nat) (items : list RoutineItem)
    (leadTime : number) (item : RoutineItem) (value : bool) : M call unit :=
  perform HapticSelection (fun _ => Ret tt) ;;;
  if negb value then
    cancelRoutineNotifications E item ;;;
    persistRoutine E
      (map (fun i => if jseq (r_id i) (r_id item)
                     then withReminder i 0 [] None else i) items)
  else
    ids <- scheduleRoutineNotifications E fuel item leadTime ;;
    match ids with
    | None => alert "Reminder disabled" "Notification permission not granted."
    | Some ids =>
        persistRoutine E
          (map (fun i => if jseq (r_id i) (r_id item)
                         then withReminder i 1 ids (hd_error ids) else i) items)
    end.

End Actions.

End RoutineForm.

(* ================================================================== *)
(** * The lecture store over AsyncStorage (unnamed/part_000) *)
(* ================================================================== *)

Module Database.

(** A stored lecture.  Its [id] is a number, or [null] ([None]) once a
    [NaN] has gone through the JSON text of the store. *)
Record Lecture := {
  id : option number;
  day : jsstring;
  subject : jsstring;
  room : jsstring;
  teacher : jsstring;
  startTime : jsstring;
  endTime : jsstring;
  reminderEnabled : Z
}.

(** A lecture to insert; [reminderEnabled] is optional. *)
Record InsertLecture := {
  i_day : jsstring;
  i_subject : jsstring;
  i_room : jsstring;
  i_teacher : jsstring;
  i_startTime : jsstring;
  i_endTime : jsstring;
  i_reminderEnabled : option Z
}.

(** AsyncStorage: the texts under the counter and the settings keys,
    most recent first, and the cell of the lectures key.  That cell is
    written by [saveLectures] alone, as the JSON text of an array of
    lectures, and read back by [JSON.parse]; it is kept as the array
    that text stands for. *)
Record store := {
  texts : list (jsstring * jsstring);
  lectureRows : option (list Lecture)
}.

Definition COUNTER_KEY : jsstring := str "unischedule_counter".
Definition SETTINGS_KEY : jsstring := str "unischedule_settings".

Fixpoint getItem (key : jsstring) (m : list (jsstring * jsstring)) : option jsstring :=
  match m with
  | [] => None
  | (k, v) :: m' => if jseq k key then Some v else getItem key m'
  end.

Definition setItem (key value : jsstring) (st : store) : store :=
  {| texts := (key, value) :: texts st; lectureRows := lectureRows st |}.

(** What [JSON.stringify] and [JSON.parse] make of a lecture: an [id]
    that is no finite number becomes [null]. *)
Definition throughJson (l : Lecture) : Lecture :=
  {| id := match id l with
           | Some n => if isFinite n then Some n else None
           | None => None
           end;
     day := day l; subject := subject l; room := room l; teacher := teacher l;
     startTime := startTime l; endTime := endTime l;
     reminderEnabled := reminderEnabled l |}.

(** [a === b] on ids. *)
Definition same_id (a b : option number) : bool :=
  match a, b with
  | None, None => true
  | Some x, Some y => neq x y
  | _, _ => false
  end.

Section Store.

Variable exotic : number -> jsstring.

(** [getNextId()] *)
Definition getNextId (st : store) : number * store :=
  let val := getItem COUNTER_KEY (texts st) in
  let next :=
    match parseInt (match val with Some v => v | None => str "0" end) 10 with
    | Some n => Int (n + 1)
    | None => NaN
    end in
  (next, setItem COUNTER_KEY (numberToString exotic next) st).

Definition loadLectures (st : store) : list Lecture :=
  match lectureRows st with
  | Some rows => rows
  | None => []
  end.

Definition saveLectures (lectures : list Lecture) (st : store) : store :=
  {| texts := texts st; lectureRows := Some (map throughJson lectures) |}.

(** [{ ...lecture, id, reminderEnabled: lecture.reminderEnabled ?? 0 }] *)
Definition withId (lecture : InsertLecture) (newId : number) : Lecture :=
  {| id := Some newId; day := i_day lecture; subject := i_subject lecture;
     room := i_room lecture; teacher := i_teacher lecture;
     startTime := i_startTime lecture; endTime := i_endTime lecture;
     reminderEnabled := match i_reminderEnabled lecture with
                        | Some r => r
                        | None => 0%Z
                        end |}.

Definition insertLecture (lecture : InsertLecture) (st : store) : number * store :=
  let all := loadLectures st in
  let (newId, st1) := getNextId st in
  (newId, saveLectures (all ++ [withId lecture newId]) st1).

(** [all[idx] = f(all[idx])] at the first index whose lecture has the
    id, when there is one. *)
Fixpoint atFirst (target : option number) (f : Lecture -> Lecture)
    (all : list Lecture) : list Lecture :=
  match all with
  | [] => []
  | l :: all' =>
      if same_id (id l) target then f l :: all' else l :: atFirst target f all'
  end.

Definition updateLecture (lecture : Lecture) (st : store) : store :=
  saveLectures (atFirst (id lecture) (fun _ => lecture) (loadLectures st)) st.

Definition deleteLecture (target : option number) (st : store) : store :=
  saveLectures (filter (fun l => negb (same_id (id l) target)) (loadLectures st)) st.

Definition withFlag (enabled : bool) (l : Lecture) : Lecture :=
  {| id := id l; day := day l; subject := subject l; room := room l;
     teacher := teacher l; startTime := startTime l; endTime := endTime l;
     reminderEnabled := if enabled then 1%Z else 0%Z |}.

Definition toggleReminder (target : option number) (enabled : bool) (st : store)
  : store :=
  saveLectures (atFirst target (withFlag enabled) (loadLectures st)) st.

Definition settingKey (key : jsstring) : jsstring := SETTINGS_KEY ++ str "_" ++ key.

(** [getSetting(key)]; [None] is [null]. *)
Definition getSetting (key : jsstring) (st : store) : option jsstring :=
  match getItem (settingKey key) (texts st) with
  | Some val => Some val
  | None => if jseq key (str "reminderLeadTime") then Some (str "10") else None
  end.

Definition setSetting (key value : jsstring) (st : store) : store :=
  setItem (settingKey key) value st.

(** The loop of [insertLectures]: one new id per lecture, in order. *)
Fixpoint pushAll (lectures : list InsertLecture) (all : list Lecture) (st : store)
  : list Lecture * store :=
  match lectures with
  | [] => (all, st)
  | l :: lectures' =>
      let (newId, st1) := getNextId st in
      pushAll lectures' (all ++ [withId l newId]) st1
  end.

Definition insertLectures (lectures : list InsertLecture) (st : store) : store :=
  let (all, st1) := pushAll lectures (loadLectures st) st in
  saveLectures all st1.

End Store.

End Database.

(* ================================================================== *)
(** * context/ScheduleContext.tsx: the provider *)
(* ================================================================== *)

(** A computation whose calls [C] are part of the calls [D] of its
    caller runs on its own calls of the caller's log (its collaborators
    answer from those), and what it adds is added to the caller's log. *)
Definition own {C D} (proj : D -> option C) (log : list D) : list C :=
  flat_map (fun d => match proj d with Some c => [c] | None => [] end) log.

Definition within {C D A} (inj : C -> D) (proj : D -> option C) (m : M C A)
  : M D A :=
  fun log =>
    let inner := own proj log in
    let (r, inner') := m inner in
    (r, log ++ map inj (skipn (length inner) inner')).

(** [try { ... } catch (e) { handler(e) }] *)
Definition tryCatch {C A} (m : M C A) (handler : error -> M C A) : M C A :=
  fun log =>
    match m log with
    | (Throw e, log') => handler e log'
    | r => r
    end.

(** [try { ... } finally { cleanup }] for a cleanup that cannot fail. *)
Definition tryFinally {C A} (m : M C A) (cleanup : M C unit) : M C A :=
  fun log =>
    match m log with
    | (r, log') => (r, snd (cleanup log'))
    end.

Module ScheduleProvider.

Import ScheduleContext.

Definition InsertLecture := ImportScreen.InsertLecture jsstring.

(** The calls of the provider: those of the notification code, the
    operations of the lecture store, the updates of its state
    ([setLectures] with a list, with the filter of [removeLecture] and
    with the map of [toggleLectureReminder]; the lead time), and the
    error message of [refresh]. *)
Inductive call :=
| Notification (c : ScheduleContext.call)
| GetAllLectures
| InsertLecture_ (lecture : InsertLecture)
| UpdateLecture (lecture : Lecture)
| DeleteLecture (lectureId : Z)
| ToggleReminder (lectureId : Z) (enabled : bool)
| SetSetting (key value : jsstring)
| SetLectures (all : list Lecture)
| DropLecture (lectureId : Z)
| FlagLecture (lectureId : Z) (enabled : bool)
| SetReminderLeadTime (mins : number)
| ConsoleError (e : error).

Definition notification (c : call) : option ScheduleContext.call :=
  match c with Notification n => Some n | _ => None end.

(** What the lecture store answers. *)
Record database := {
  allLectures : list call -> outcome (list Lecture);
  insertedId : list call -> outcome Z;
  done : list call -> outcome unit
}.

Local Open Scope effect_scope.

Section Provider.

Variable exotic : number -> jsstring.
Variable E : env.
Variable D : database.

Definition notify {A} (m : M ScheduleContext.call A) : M call A :=
  within Notification notification m.

(** [try { ... } catch (e) { console.error(..., e) }] *)
Definition refresh : M call unit :=
  fun log =>
    match (all <- perform GetAllLectures (allLectures D) ;;
           perform (SetLectures all) (fun _ => Ret tt)) log with
    | (Throw e, log') => perform (ConsoleError e) (fun _ => Ret tt) log'
    | r => r
    end.

(** [for (const l of all) { if (l.reminderEnabled) await scheduleNotification(l, mins); }] *)
Definition rescheduleAll (all : list Lecture) (mins : number) : M call unit :=
  forEach (fun l =>
      if (reminderEnabled l =? 0)%Z then ret tt
      else notify (scheduleNotification E l mins) ;;; ret tt) all.

Definition setReminderLeadTime (mins : number) : M call unit :=
  perform (SetReminderLeadTime mins) (fun _ => Ret tt) ;;;
  perform (SetSetting (str "reminderLeadTime") (numberToString exotic mins)) (done D) ;;;
  all <- perform GetAllLectures (allLectures D) ;;
  rescheduleAll all mins.

(** [{ ...lecture, id, reminderEnabled: 1 }] *)
Definition inserted (lecture : InsertLecture) (newId : Z) : Lecture :=
  {| id := newId; day := ImportScreen.day lecture;
     subject := ImportScreen.subject lecture; room := ImportScreen.room lecture;
     teacher := ImportScreen.teacher lecture;
     startTime := ImportScreen.startTime lecture;
     endTime := ImportScreen.endTime lecture; reminderEnabled := 1 |}.

Definition addLecture (reminderLeadTime : number) (lecture : InsertLecture)
  : M call unit :=
  newId <- perform (InsertLecture_ lecture) (insertedId D) ;;
  refresh ;;;
  if (ImportScreen.reminderEnabled lecture =? 0)%Z then ret tt
  else notify (scheduleNotification E (inserted lecture newId) reminderLeadTime) ;;;
       ret tt.

Definition editLecture (reminderLeadTime : number) (lecture : Lecture) : M call unit :=
  perform (UpdateLecture lecture) (done D) ;;;
  refresh ;;;
  if (reminderEnabled lecture =? 0)%Z
  then notify (cancelNotification E (id lecture))
  else notify (scheduleNotification E lecture reminderLeadTime) ;;; ret tt.

Definition removeLecture (lectureId : Z) : M call unit :=
  notify (cancelNotification E lectureId) ;;;
  perform (DeleteLecture lectureId) (done D) ;;;
  perform (DropLecture lectureId) (fun _ => Ret tt).

Definition toggleLectureReminder (reminderLeadTime : number) (lectureId : Z)
    (enabled : bool) : M call unit :=
  perform (ToggleReminder lectureId enabled) (done D) ;;;
  perform (FlagLecture lectureId enabled) (fun _ => Ret tt) ;;;
  all <- perform GetAllLectures (allLectures D) ;;
  match find (fun l => (id l =? lectureId)%Z) all with
  | None => ret tt
  | Some lecture =>
      if enabled
      then notify (scheduleNotification E lecture reminderLeadTime) ;;; ret tt
      else notify (cancelNotification E lectureId)
  end.

End Provider.

End ScheduleProvider.

(* ================================================================== *)
(** * app/(tabs)/routine.tsx: importing parsed rows *)
(* ================================================================== *)

Module RoutineImport.

Import Routine.

(** The calls of the import: those of the screen, the importing flag
    and the haptic feedback. *)
Inductive call :=
| Screen (c : Routine.call)
| SetImporting (b : bool)
| HapticSuccess.


Local Open Scope effect_scope.

Section Rows.

Variable E : env.

(** [Date.now()] and [Math.random().toString(36).slice(2, 7)] at the
    row of each index. *)
Variable clock : nat -> Z.
Variable random : nat -> jsstring.




Definition importedMessage (count : nat) : jsstring :=
  string_of_Z (Z.of_nat count) ++ str " routine item"
  ++ (if (count =? 1)%nat then [] else str "s") ++ str " imported.".


End Rows.

End RoutineImport.

(* ================================================================== *)
(** * app/import.tsx: importing a timetable file *)
(* ================================================================== *)

Module PdfScreen.

Import ImportScreen.

Inductive ImportMode := choose | json_ | pdf_info | processing.

(** The calls of [handleImportPdf]; an alert carries its title, its
    message and the texts of its buttons. *)
Inductive call :=
| Alert (title message : jsstring) (buttons : list jsstring)
| SetImporting (b : bool)
| SetMode (mode : ImportMode)
| ReadAsString (uri : jsstring)
| ImportLectures (lectures : list (InsertLecture jsstring))
| HapticSuccess.

(** [binaryToBytes(globalThis.atob(base64))], where [atob] may be
    missing. *)
Definition base64ToBytes (atob : option (jsstring -> outcome jsstring))
    (base64 : jsstring) : outcome (list N) :=
  match atob with
  | None => Throw (Error (str "Base64 decoding is not available on this device."))
  | Some decode => bind (decode base64) (fun binary => Ret (binaryToBytes binary))
  end.

Local Open Scope effect_scope.

Section Pdf.

Variable argumentLimit : nat.
Variable unzlibSync : list N -> option (list N).
Variable atob : option (jsstring -> outcome jsstring).
Variable readResult : list call -> outcome jsstring.
Variable importResult : list call -> outcome unit.

Definition alert (title message : jsstring) (buttons : list jsstring)
  : M call unit :=
  perform (Alert title message buttons) (fun _ => Ret tt).

Definition noLecturesMessage (semester section : jsstring) : jsstring :=
  str "Could not automatically extract lectures from this PDF for semester "
  ++ [34%N] ++ semester ++ [34%N] ++ str " section " ++ [34%N]
  ++ (if is_empty section then str "N/A" else section) ++ [34%N] ++ str "."
  ++ [10; 10]%N
  ++ str "This timetable format may not be supported. Please use JSON import instead.".

Definition importedMessage (count : nat) : jsstring :=
  string_of_Z (Z.of_nat count) ++ str " lecture"
  ++ (if (count =? 1)%nat then [] else str "s") ++ str " imported successfully.".

Definition handleImportPdf (fuel : nat) (semester section pdfUri : jsstring)
  : M call unit :=
  if is_empty (trim semester) then
    alert (str "Missing") (str "Please enter the semester (e.g. 5th).") []
  else if is_empty pdfUri then
    alert (str "No File") (str "Please select a PDF file first.") []
  else
    perform (SetImporting true) (fun _ => Ret tt) ;;;
    perform (SetMode processing) (fun _ => Ret tt) ;;;
    tryFinally
      (tryCatch
         (pdfBase64 <- perform (ReadAsString pdfUri) readResult ;;
          pdfBytes <- lift (base64ToBytes atob pdfBase64) ;;
          lectures <- lift (parseTimetablePdf argumentLimit unzlibSync fuel pdfBytes
                              (trim semester) (trim section)) ;;
          match lectures with
          | [] =>
              alert (str "No Lectures Found") (noLecturesMessage semester section)
                [str "Use JSON Import"; str "Cancel"]
          | _ =>
              perform (ImportLectures lectures) importResult ;;;
              perform HapticSuccess (fun _ => Ret tt) ;;;
              alert (str "Imported") (importedMessage (length lectures)) [str "Done"]
          end)
         (fun _ =>
            alert (str "Error")
              (str "Failed to process PDF. Please try JSON import instead.") [] ;;;
            perform (SetMode pdf_info) (fun _ => Ret tt)))
      (perform (SetImporting false) (fun _ => Ret tt)).

End Pdf.

End PdfScreen.

(* ================================================================== *)
(** * app/(tabs)/routine.tsx: loading the stored routine *)
(* ================================================================== *)

Module RoutineStore.

Import Routine.

(** A stored item: [Partial<RoutineItem> & { time?: string }]; [None]
    is a member that is missing or [null]. *)
Record StoredItem := {
  s_id : option jsstring;
  s_title : option jsstring;
  s_day : option jsstring;
  s_startTime : option jsstring;
  s_time : option jsstring;
  s_endTime : option jsstring;
  s_notes : option jsstring;
  s_done : option bool;
  s_reminderEnabled : option Z;
  s_reminderIds : option (list jsstring);
  s_reminderId : option jsstring
}.

Definition orElse {A} (a : option A) (b : A) : A :=
  match a with Some x => x | None => b end.

(** [item.startTime ?? item.time ?? '08:00'] *)
Definition startOf (item : StoredItem) : jsstring :=
  orElse (s_startTime item) (orElse (s_time item) (str "08:00")).

(** [`${String(Math.min(23, startH + 1)).padStart(2, '0')}:${startM}`] *)
Definition defaultEnd (start : jsstring) : jsstring :=
  let parts := split_on (chr ":") start in
  let startH := parseInt (match parts with h :: _ => h | [] => str "8" end) 10 in
  let startM := match parts with _ :: m :: _ => m | _ => str "00" end in
  padStart2 (match startH with
             | Some h => string_of_Z (Z.min 23 (h + 1))
             | None => str "NaN"
             end) ++ str ":" ++ startM.

Section Load.

(** [Date.now()] at the item of each index. *)
Variable clock : nat -> Z.

(** The callback of [parsed.map]. *)
Definition normalizeItem (item : StoredItem) (idx : nat) : RoutineItem :=
  let start := startOf item in
  {| r_id := orElse (s_id item)
               (str "legacy-" ++ string_of_Z (Z.of_nat idx) ++ str "-"
                ++ string_of_Z (clock idx));
     r_title := orElse (s_title item) (str "Routine");
     r_day := orElse (s_day item) (str "Monday");
     r_startTime := start;
     r_endTime := orElse (s_endTime item) (defaultEnd start);
     r_notes := orElse (s_notes item) [];
     r_done := orElse (s_done item) false;
     r_reminderEnabled := orElse (s_reminderEnabled item) 0%Z;
     r_reminderIds :=
       Some (match s_reminderIds item with
             | Some ids => ids
             | None =>
                 match s_reminderId item with
                 | Some (c :: id) => [c :: id]
                 | _ => []
                 end
             end);
     r_reminderId := s_reminderId item |}.

End Load.

End RoutineStore.

(* ================================================================== *)
(** * Properties *)
(* ================================================================== *)

Unset Implicit Arguments.

(** ** Texts *)

Lemma jseq_spec (a b : jsstring) : jseq a b = true <-> a = b.
Proof.
  revert b; induction a as [|x a IH]; intros [|y b]; simpl; split; intro H;
    try reflexivity; try discriminate.
  - apply andb_true_iff in H as [Hx Hr]. apply N.eqb_eq in Hx.
    apply IH in Hr. now subst.
  - injection H as -> ->. rewrite N.eqb_refl. simpl. now apply IH.
Qed.

(** ** Reasoning on digits by enumeration *)

Definition digit_chars : list N := [48; 49; 50; 51; 52; 53; 54; 55; 56; 57]%N.

Lemma is_digit_In c : is_digit c = true -> In c digit_chars.
Proof.
  unfold is_digit. intro H. apply andb_true_iff in H as [H1 H2].
  apply N.leb_le in H1, H2.
  simpl. lia.
Qed.

Lemma forall_digit (P : N -> bool) :
  forallb P digit_chars = true -> forall c, is_digit c = true -> P c = true.
Proof.
  intros H c Hc. rewrite forallb_forall in H. apply H. now apply is_digit_In.
Qed.

#[local] Arguments N.eqb : simpl never.
#[local] Arguments is_digit : simpl never.

Lemma search_Bol r i s : (0 < i)%nat -> search (Seq Bol r) i s = None.
Proof.
  revert i; induction s as [|c s IH]; intros i Hi; simpl.
  - unfold match_at. simpl. destruct i; [lia|]. reflexivity.
  - unfold match_at. simpl. destruct i; [lia|]. simpl. apply IH. lia.
Qed.

Lemma validTime_shape s :
  Routine.validTime s = true ->
  exists a b c d, s = [a; b; chr ":"; c; d]
    /\ is_digit a = true /\ is_digit b = true /\ is_digit c = true /\ is_digit d = true.
Proof.
  unfold Routine.validTime, exec, Routine.re_validTime.
  intro H.
  destruct s as [|a [|b [|c [|d [|e [|f s]]]]]];
    cbn [search seqs] in H; try rewrite search_Bol in H by lia;
    unfold match_at in H; simpl in H.
  all: repeat match type of H with
       | context [if ?p ?x then _ else _] => destruct (p x) eqn:?; simpl in H
       end; try discriminate.
  apply N.eqb_eq in Heqb2. subst c.
  exists a, b, d, e. repeat split; assumption.
Qed.

Lemma forall_digit2 (P : N -> N -> bool) :
  forallb (fun a => forallb (P a) digit_chars) digit_chars = true ->
  forall a b, is_digit a = true -> is_digit b = true -> P a b = true.
Proof.
  intros H a b Ha Hb.
  apply (forall_digit (fun a => forallb (P a) digit_chars)) with (c := a) in H;
    [|exact Ha].
  now apply (forall_digit (P a)).
Qed.

Definition num_is (n : number) (z : Z) : bool :=
  match n with Int x => (x =? z)%Z | _ => false end.

Definition opt_is (n : option Z) (z : Z) : bool :=
  match n with Some x => (x =? z)%Z | _ => false end.

(** What the enumeration of the hundred two-digit texts establishes. *)
Definition two_digit_check (a b : N) : bool :=
  let v := (digit_val a * 10 + digit_val b)%Z in
  opt_is (parseInt [a; b] 10) v && num_is (Number_ [a; b]) v
  && jseq (padStart2 (string_of_Z v)) [a; b]
  && (0 <=? v)%Z && (v <=? 99)%Z
  && negb (a =? chr ":")%N && negb (b =? chr ":")%N.

Lemma two_digits a b :
  is_digit a = true -> is_digit b = true ->
  let v := (digit_val a * 10 + digit_val b)%Z in
  parseInt [a; b] 10 = Some v /\ Number_ [a; b] = Int v
  /\ padStart2 (string_of_Z v) = [a; b] /\ (0 <= v <= 99)%Z
  /\ (a =? chr ":")%N = false /\ (b =? chr ":")%N = false.
Proof.
  intros Ha Hb v.
  assert (H : two_digit_check a b = true)
    by (apply forall_digit2; [vm_compute; reflexivity | assumption | assumption]).
  unfold two_digit_check in H. fold v in H.
  apply andb_true_iff in H as [H H7]. apply andb_true_iff in H as [H H6].
  apply andb_true_iff in H as [H H5]. apply andb_true_iff in H as [H H4].
  apply andb_true_iff in H as [H H3]. apply andb_true_iff in H as [H1 H2].
  repeat split.
  - unfold opt_is in H1. destruct (parseInt [a; b] 10); [|discriminate].
    apply Z.eqb_eq in H1. now subst.
  - unfold num_is in H2. destruct (Number_ [a; b]); try discriminate.
    apply Z.eqb_eq in H2. now subst.
  - now apply jseq_spec.
  - lia.
  - lia.
  - now apply negb_true_iff.
  - now apply negb_true_iff.
Qed.

Lemma validTime_minutes s :
  Routine.validTime s = true ->
  exists z, Routine.timeToMinutes s = Int z /\ (0 <= z < 1440)%Z /\ Routine.toHHMM z = s.
Proof.
  intro H. destruct (validTime_shape s H) as (a & b & c & d & -> & Ha & Hb & Hc & Hd).
  destruct (two_digits a b Ha Hb) as (Hp1 & Hn1 & Hs1 & Hr1 & Hca & Hcb).
  destruct (two_digits c d Hc Hd) as (Hp2 & Hn2 & Hs2 & Hr2 & Hcc & Hcd).
  set (hh := (digit_val a * 10 + digit_val b)%Z) in *.
  set (mm := (digit_val c * 10 + digit_val d)%Z) in *.
  assert (Hrange : (hh <= 23 /\ mm <= 59)%Z).
  { revert H. unfold Routine.validTime, exec, Routine.re_validTime.
    cbn [search seqs]. unfold match_at. simpl. rewrite Ha, Hb, Hc, Hd. simpl.
    unfold group_text, group. simpl. rewrite Hp1, Hp2.
    intro H. repeat (apply andb_true_iff in H as [H ?]). lia. }
  exists (hh * 60 + mm)%Z. split; [|split; [lia|]].
  - unfold Routine.timeToMinutes. change (chr ":") with 58%N in *. simpl.
    rewrite Hca, Hcb, Hcc, Hcd. simpl.
    rewrite Hn1, Hn2. reflexivity.
  - unfold Routine.toHHMM.
    replace (Z.rem (Z.rem (hh * 60 + mm) 1440 + 1440) 1440) with (hh * 60 + mm)%Z.
    2:{ rewrite (Z.rem_small (hh * 60 + mm) 1440) by lia.
        rewrite Z.rem_mod_nonneg by lia.
        rewrite <- (Z.mul_1_l 1440) at 1. rewrite Z.mod_add by lia.
        rewrite Z.mod_small by lia. reflexivity. }
    replace ((hh * 60 + mm) / 60)%Z with hh
      by (rewrite Z.add_comm, Z.div_add by lia; rewrite Z.div_small by lia; lia).
    replace (Z.rem (hh * 60 + mm) 60) with mm
      by (rewrite Z.rem_mod_nonneg by lia; rewrite Z.add_comm, Z.mod_add by lia;
          now rewrite Z.mod_small by lia).
    rewrite Hs1, Hs2. reflexivity.
Qed.

(** ** Time of day *)

Lemma wrap_minutes z : Z.rem (Z.rem z 1440 + 1440) 1440 = (z mod 1440)%Z.
Proof.
  assert (Hb : (- 1440 < Z.rem z 1440 < 1440)%Z).
  { pose proof (Z.rem_bound_abs z 1440 ltac:(lia)). lia. }
  rewrite Z.rem_mod_nonneg by lia.
  replace (Z.rem z 1440 + 1440)%Z with (Z.rem z 1440 + 1 * 1440)%Z by lia.
  rewrite Z.mod_add by lia.
  rewrite (Z.quot_rem' z 1440) at 2.
  rewrite Z.add_comm, Z.mul_comm, Z.mod_add by lia. reflexivity.
Qed.

Lemma nlt_Int a b : nlt (Int a) (Int b) = (a <? b)%Z.
Proof. unfold nlt, ncompare, Z.ltb. now destruct (a ?= b)%Z. Qed.

Lemma nle_Int a b : nle (Int a) (Int b) = (a <=? b)%Z.
Proof. unfold nle, ncompare, Z.leb. now destruct (a ?= b)%Z. Qed.

Definition stepBack (d : Z) : Z := Z.rem (d + 6) 7.

Lemma round64_small z : (Z.abs z <= 2 ^ 53)%Z -> round64 z = Int z.
Proof. intro H. unfold round64. apply Z.leb_le in H. now rewrite H. Qed.

Lemma nadd64_small a b : (Z.abs (a + b) <= 2 ^ 53)%Z -> nadd64 (Int a) (Int b) = Int (a + b).
Proof. intro H. unfold nadd64. now apply round64_small. Qed.

Lemma wrapLoop_steps n : forall fuel m d,
  (n <= fuel)%nat -> (- 2 ^ 53 <= m)%Z -> (0 <= m + 1440 * Z.of_nat n < 1440)%Z ->
  Routine.wrapLoop fuel (Int m) d = Ret (Int (m + 1440 * Z.of_nat n), Nat.iter n stepBack d).
Proof.
  induction n as [|n IH]; intros fuel m d Hf Hlow Hm.
  - replace (m + 1440 * Z.of_nat 0)%Z with m by lia.
    destruct fuel; simpl; rewrite nlt_Int;
      (destruct (m <? 0)%Z eqn:E; [apply Z.ltb_lt in E; lia | reflexivity]).
  - destruct fuel as [|fuel]; [lia|]. cbn [Routine.wrapLoop]. rewrite nlt_Int.
    destruct (m <? 0)%Z eqn:E; [|apply Z.ltb_ge in E; lia].
    apply Z.ltb_lt in E. change (24 * 60)%Z with 1440%Z.
    rewrite nadd64_small by lia. rewrite IH by lia.
    f_equal. f_equal.
    + f_equal. lia.
    + rewrite Nat.iter_succ_r. reflexivity.
Qed.

Lemma stepBack_iter n : forall d, (0 <= d < 7)%Z ->
  Nat.iter n stepBack d = ((d - Z.of_nat n) mod 7)%Z.
Proof.
  induction n as [|n IH]; intros d Hd.
  - simpl. rewrite Z.sub_0_r, Z.mod_small by lia. reflexivity.
  - rewrite Nat.iter_succ_r. rewrite IH.
    + unfold stepBack. rewrite Z.rem_mod_nonneg by lia.
      rewrite Zminus_mod_idemp_l.
      replace (d + 6 - Z.of_nat n)%Z with (d - Z.of_nat (S n) + 1 * 7)%Z by lia.
      now rewrite Z.mod_add by lia.
    + unfold stepBack. rewrite Z.rem_mod_nonneg by lia.
      apply Z.mod_pos_bound. lia.
Qed.

Lemma floor_of_Q q : Math_floor (of_Q q) = Int (Qfloor q).
Proof.
  unfold of_Q. pose proof (Qred_correct q) as Hq.
  destruct (Z.pos (Qden (Qred q)) =? 1)%Z eqn:E; simpl.
  - f_equal. rewrite <- (Qfloor_comp _ _ Hq).
    apply Z.eqb_eq in E.
    destruct (Qred q) as [n d]. unfold Qfloor. simpl in *.
    rewrite E. now rewrite Z.div_1_r.
  - f_equal. now apply Qfloor_comp.
Qed.

Lemma floor_div_Int a b : (0 < b)%Z ->
  Math_floor (ndiv (Int a) (Int b)) = Int (a / b).
Proof.
  intro Hb. unfold ndiv. simpl to_Q.
  destruct b as [|p|p]; try lia.
  replace (Qeq_bool (inject_Z (Z.pos p)) 0%Q) with false by reflexivity.
  rewrite floor_of_Q. f_equal.
  unfold Qdiv, Qinv, Qmult, inject_Z. simpl.
  rewrite Z.mul_1_r. reflexivity.
Qed.

(** C9.  Converting a valid zero-padded [HH:MM] text to minutes since
    midnight and back gives the text again; the conversion from minutes
    wraps modulo 1440, so that [-30] is ["23:30"]. *)
Theorem hhmm_roundtrip :
  (forall s, Routine.validTime s = true ->
     exists z, Routine.timeToMinutes s = Int z /\ Routine.toHHMM z = s)
  /\ (forall z, Routine.toHHMM z = Routine.toHHMM (z mod 1440))
  /\ Routine.toHHMM (-30) = str "23:30".
Proof.
  split; [|split].
  - intros s H. destruct (validTime_minutes s H) as (z & Hz & _ & Hs).
    now exists z.
  - intro z. unfold Routine.toHHMM. rewrite !wrap_minutes.
    now rewrite Z.mod_mod by lia.
  - reflexivity.
Qed.

Lemma hhmm_roundtrip_witness :
  Routine.validTime (str "09:45") = true
  /\ exists z, Routine.timeToMinutes (str "09:45") = Int z
               /\ Routine.toHHMM z = str "09:45".
Proof.
  split; [reflexivity | apply (proj1 hhmm_roundtrip); reflexivity].
Defined.

(** ** Weekly triggers of the routine path *)

Definition weekdayNames : list jsstring :=
  map str ["Sunday"; "Monday"; "Tuesday"; "Wednesday"; "Thursday"; "Friday";
           "Saturday"]%string.

Lemma getDayNumber_canonical day :
  In day weekdayNames -> (0 <= Routine.getDayNumber day < 7)%Z.
Proof.
  intro H. simpl in H.
  repeat (destruct H as [<- | H]; [vm_compute; split; [discriminate | reflexivity] |]).
  destruct H.
Qed.

(** C1, as the code has it.  For a canonical weekday, a valid [HH:MM]
    time and an offset [k] from 0 to [2^53], the integers on which the
    arithmetic of the code is exact, [getWeeklyTrigger] returns the
    repeating trigger obtained from [m = minutes(time) - k] by adding
    1440 once per day stepped back ([back] times, until the minutes are
    not negative), with hour [mins div 60], minute [mins mod 60], and
    weekday 1 for day index 0 and index + 1 otherwise.  Monday 09:00 less
    15 is weekday 2, 8:45; Sunday 00:10 less 30 wraps to weekday 7,
    23:40. *)
Theorem getWeeklyTrigger_wraps :
  (forall day time offset,
     In day weekdayNames -> Routine.validTime time = true ->
     (0 <= offset <= 2 ^ 53)%Z ->
     exists t, Routine.timeToMinutes time = Int t /\
       let m := (t - offset)%Z in
       let back := (- (m / 1440))%Z in
       let mins := (m + 1440 * back)%Z in
       let index := ((Routine.getDayNumber day - back) mod 7)%Z in
       (0 <= back)%Z /\ (0 <= mins < 1440)%Z /\ (back = 0 <-> 0 <= m)%Z /\
       forall fuel, (Z.to_nat back <= fuel)%nat ->
         Routine.getWeeklyTrigger fuel day time (Int offset)
         = Ret (Some (Trigger CALENDAR
                        (if (index =? 0)%Z then 1 else index + 1)%Z
                        (Int (mins / 60)) (Int (mins mod 60)) (Some true))))
  /\ Routine.getWeeklyTrigger 0 (str "Monday") (str "09:00") (Int 15)
     = Ret (Some (Trigger CALENDAR 2 (Int 8) (Int 45) (Some true)))
  /\ Routine.getWeeklyTrigger 1 (str "Sunday") (str "00:10") (Int 30)
     = Ret (Some (Trigger CALENDAR 7 (Int 23) (Int 40) (Some true))).
Proof.
  split; [|split; reflexivity].
  intros day time offset Hday Htime Hoff.
  destruct (validTime_minutes time Htime) as (t & Ht & Hrange & _).
  exists t. split; [exact Ht|]. intros m back mins index.
  pose proof (getDayNumber_canonical day Hday) as Hd.
  assert (Hm : (m <= 1439)%Z) by (unfold m; lia).
  assert (Hmins : mins = (m mod 1440)%Z).
  { unfold mins, back. rewrite (Z.mod_eq m 1440) by lia. lia. }
  assert (Hb : (0 <= back)%Z).
  { unfold back. assert (m / 1440 <= 0)%Z; [|lia].
    destruct (Z_lt_le_dec m 0) as [Hneg | Hpos].
    - assert (m / 1440 < 0)%Z by (apply Z.div_lt_upper_bound; lia). lia.
    - rewrite Z.div_small by lia. lia. }
  assert (Hr : (0 <= mins < 1440)%Z).
  { rewrite Hmins. apply Z.mod_pos_bound. lia. }
  split; [exact Hb|]. split; [exact Hr|]. split.
  { unfold back. split; intro H.
    - destruct (Z_lt_le_dec m 0) as [Hneg | Hpos]; [|exact Hpos].
      assert (m / 1440 < 0)%Z by (apply Z.div_lt_upper_bound; lia). lia.
    - rewrite Z.div_small by lia. lia. }
  intros fuel Hfuel.
  unfold Routine.getWeeklyTrigger.
  destruct (Routine.getDayNumber day <? 0)%Z eqn:E; [apply Z.ltb_lt in E; lia|].
  rewrite Ht. unfold nsub64. cbn [nneg].
  rewrite nadd64_small by lia.
  replace (t + - offset)%Z with m by (unfold m; lia).
  rewrite (wrapLoop_steps (Z.to_nat back));
    [|exact Hfuel|unfold m; lia|rewrite Z2Nat.id by lia; exact Hr].
  rewrite Z2Nat.id by lia.
  fold mins. cbn [bind].
  rewrite stepBack_iter by exact Hd. rewrite Z2Nat.id by lia. fold index.
  rewrite floor_div_Int by lia.
  unfold nrem. replace (60 =? 0)%Z with false by reflexivity.
  rewrite Z.rem_mod_nonneg by lia. reflexivity.
Qed.

Lemma getWeeklyTrigger_wraps_witness :
  exists t, Routine.timeToMinutes (str "00:10") = Int t /\
    Routine.getWeeklyTrigger 5 (str "Sunday") (str "00:10") (Int 3000)
    = Ret (Some (Trigger CALENDAR
                   (let index := ((Routine.getDayNumber (str "Sunday")
                                   - - ((t - 3000) / 1440)) mod 7)%Z in
                    if (index =? 0)%Z then 1 else index + 1)%Z
                   (Int (((t - 3000) + 1440 * - ((t - 3000) / 1440)) / 60))
                   (Int (((t - 3000) + 1440 * - ((t - 3000) / 1440)) mod 60))
                   (Some true))).
Proof.
  destruct (proj1 getWeeklyTrigger_wraps (str "Sunday") (str "00:10") 3000%Z)
    as (t & Ht & H).
  - simpl. tauto.
  - reflexivity.
  - lia.
  - exists t. split; [exact Ht|].
    destruct H as (_ & _ & _ & H). apply H.
    assert (Ht' : t = 10%Z) by (vm_compute in Ht; congruence).
    rewrite Ht'. vm_compute. lia.
Defined.

(** The loop is never left from minutes so far below zero that the sum
    with 1440 rounds back to them. *)
Lemma wrapLoop_stuck m :
  (m < 0)%Z -> nadd64 (Int m) (Int 1440) = Int m ->
  forall fuel d, Routine.wrapLoop fuel (Int m) d = Unfinished.
Proof.
  intros Hm Hsum. induction fuel as [|fuel IH]; intro d; cbn [Routine.wrapLoop];
    rewrite nlt_Int; (replace (m <? 0)%Z with true by (symmetry; now apply Z.ltb_lt));
    [reflexivity|].
  change (24 * 60)%Z with 1440%Z. rewrite Hsum. apply IH.
Qed.

(** C1, as stated, fails: an offset of [10^20] minutes is a non-negative
    integer, the minutes before Monday 09:00 less this offset are
    [-10^20] in binary64, adding 1440 to them gives them back, and the
    loop of [getWeeklyTrigger] never ends: no descriptor is returned. *)
Lemma getWeeklyTrigger_huge_offset_hangs :
  nsub64 (Routine.timeToMinutes (str "09:00")) (Int (10 ^ 20)) = Int (- 10 ^ 20)
  /\ nadd64 (Int (- 10 ^ 20)) (Int 1440) = Int (- 10 ^ 20)
  /\ forall fuel,
       Routine.getWeeklyTrigger fuel (str "Monday") (str "09:00") (Int (10 ^ 20))
       = Unfinished.
Proof.
  assert (H1 : nsub64 (Routine.timeToMinutes (str "09:00")) (Int (10 ^ 20))
               = Int (- 10 ^ 20)) by (vm_compute; reflexivity).
  assert (H2 : nadd64 (Int (- 10 ^ 20)) (Int 1440) = Int (- 10 ^ 20))
    by (vm_compute; reflexivity).
  split; [exact H1|]. split; [exact H2|].
  intro fuel. unfold Routine.getWeeklyTrigger.
  replace (Routine.getDayNumber (str "Monday") <? 0)%Z with false by reflexivity.
  rewrite H1. rewrite wrapLoop_stuck; [reflexivity | reflexivity | exact H2].
Qed.

(** ** The value of a finite number *)

Definition val (n : number) (q : Q) : Prop :=
  exists q', to_Q n = Some q' /\ (q' == q)%Q.

Lemma val_of_Q q : val (of_Q q) q.
Proof.
  unfold of_Q. pose proof (Qred_correct q) as Hq.
  destruct (Z.pos (Qden (Qred q)) =? 1)%Z eqn:E.
  - exists (inject_Z (Qnum (Qred q))). split; [reflexivity|].
    transitivity (Qred q); [|exact Hq]. clear Hq.
    apply Z.eqb_eq in E. destruct (Qred q) as [n d]. simpl in *.
    injection E as ->. reflexivity.
  - exists (Qred q). split; [reflexivity | exact Hq].
Qed.

Lemma val_Int z : val (Int z) (inject_Z z).
Proof. exists (inject_Z z). split; reflexivity. Qed.

Lemma val_finite n : isFinite n = true -> exists q, val n q.
Proof.
  destruct n; try discriminate; intros _.
  - exists (inject_Z z). apply val_Int.
  - exists q. exists q. split; reflexivity.
Qed.

Lemma val_isFinite n q : val n q -> isFinite n = true.
Proof. intros (q' & H & _). destruct n; try discriminate; reflexivity. Qed.

Lemma val_nneg a p : val a p -> val (nneg a) (- p)%Q.
Proof.
  intros (p' & Ha & Hp). destruct a; try discriminate; simpl in *.
  - injection Ha as <-. exists (inject_Z (- z)). split; [reflexivity|].
    rewrite <- Hp. unfold inject_Z, Qopp. simpl. reflexivity.
  - injection Ha as <-. destruct (val_of_Q (- q)%Q) as (r & Hr & Hrq).
    exists r. split; [exact Hr|]. rewrite Hrq, Hp. reflexivity.
Qed.

Lemma val_nadd a b p q : val a p -> val b q -> val (nadd a b) (p + q)%Q.
Proof.
  intros (p' & Ha & Hp) (q' & Hb & Hq).
  destruct a, b; try discriminate; simpl in *;
    injection Ha as <-; injection Hb as <-.
  - exists (inject_Z (z + z0)). split; [reflexivity|].
    rewrite <- Hp, <- Hq, inject_Z_plus. reflexivity.
  - destruct (val_of_Q (inject_Z z + q0)%Q) as (r & Hr & Hrq).
    exists r. split; [exact Hr|]. now rewrite Hrq, Hp, Hq.
  - destruct (val_of_Q (q0 + inject_Z z)%Q) as (r & Hr & Hrq).
    exists r. split; [exact Hr|]. now rewrite Hrq, Hp, Hq.
  - destruct (val_of_Q (q0 + q1)%Q) as (r & Hr & Hrq).
    exists r. split; [exact Hr|]. now rewrite Hrq, Hp, Hq.
Qed.

Lemma nlt_val a b p q : val a p -> val b q -> nlt a b = true -> (p < q)%Q.
Proof.
  intros (p' & Ha & Hp) (q' & Hb & Hq) H. rewrite <- Hp, <- Hq.
  unfold nlt in H.
  destruct a, b; try discriminate; simpl in *;
    injection Ha as <-; injection Hb as <-.
  - destruct (z ?= z0)%Z eqn:E; try discriminate.
    rewrite <- Zlt_Qlt. exact E.
  - destruct (inject_Z z ?= q0)%Q eqn:E; try discriminate. now apply Qlt_alt.
  - destruct (q0 ?= inject_Z z)%Q eqn:E; try discriminate. now apply Qlt_alt.
  - destruct (q0 ?= q1)%Q eqn:E; try discriminate. now apply Qlt_alt.
Qed.

Lemma floor_div_negative n p :
  val n p -> (p < 0)%Q -> nlt (Math_floor (ndiv n (Int 60))) (Int 0) = true.
Proof.
  intros (p' & Hn & Hp) Hneg. unfold ndiv. rewrite Hn. cbn [to_Q]. cbv beta iota.
  replace (Qeq_bool (inject_Z 60) 0%Q) with false by reflexivity.
  rewrite floor_of_Q, nlt_Int. apply Z.ltb_lt.
  assert (Hq : (p' / inject_Z 60 < 0)%Q).
  { rewrite Hp. apply Qlt_shift_div_r; [reflexivity|]. now rewrite Qmult_0_l. }
  pose proof (Qfloor_le (p' / inject_Z 60)) as Hf.
  rewrite Zlt_Qlt. eapply Qle_lt_trans; [exact Hf | exact Hq].
Qed.

Lemma notify_hour_negative a b :
  nlt a b = true -> nlt (Math_floor (ndiv (nsub a b) (Int 60))) (Int 0) = true.
Proof.
  intro H.
  destruct (isFinite a) eqn:Fa, (isFinite b) eqn:Fb.
  - destruct (val_finite a Fa) as (p & Hp). destruct (val_finite b Fb) as (q & Hq).
    apply floor_div_negative with (p := (p + - q)%Q).
    + unfold nsub. apply val_nadd; [exact Hp | now apply val_nneg].
    + pose proof (nlt_val a b p q Hp Hq H) as Hlt.
      apply (Qplus_lt_l _ _ q). ring_simplify. exact Hlt.
  - destruct b; try discriminate; destruct a; try discriminate; reflexivity.
  - destruct a; try discriminate; destruct b; try discriminate; try reflexivity.
    simpl. unfold nsub, nneg.
    destruct (val_of_Q (- q)%Q) as (r & Hr & _).
    destruct (of_Q (- q)); try discriminate; reflexivity.
  - destruct a; try discriminate; destruct b; try discriminate; reflexivity.
Qed.

(** ** The lecture path *)

Section LecturePath.

Import ScheduleContext.

Definition is_permission_call (c : call) : Prop :=
  c = GetPermissions \/ c = RequestPermissions.

Lemma requestNotificationPermissions_calls E log :
  exists granted calls,
    requestNotificationPermissions E log = (Ret granted, log ++ calls)
    /\ Forall is_permission_call calls.
Proof.
  unfold requestNotificationPermissions.
  destruct (platformIsWeb E).
  - exists false, []. rewrite app_nil_r. split; [reflexivity | constructor].
  - unfold mbind, perform, ret.
    destruct (existingGranted E (log ++ [GetPermissions])) eqn:Ex.
    + exists true, [GetPermissions]. split; [reflexivity|].
      constructor; [now left | constructor].
    + exists (requestGranted E ((log ++ [GetPermissions]) ++ [RequestPermissions])),
        [GetPermissions; RequestPermissions].
      split.
      * now rewrite <- app_assoc.
      * constructor; [now left|]. constructor; [now right | constructor].
Qed.

(** C4.  When the start time in minutes is strictly below the lead time,
    [scheduleNotification] of the lecture path returns [null] after the
    permission calls alone: it issues no schedule (and no cancel) call
    and does not wrap into the previous weekday, where the routine path
    does (Sunday 00:10 less 30 is [null] here and Saturday 23:40 there). *)
Theorem scheduleNotification_skips_negative :
  (forall E lecture leadTime log,
     nlt (timeToMinutes (startTime lecture)) leadTime = true ->
     exists calls,
       scheduleNotification E lecture leadTime log = (Ret None, log ++ calls)
       /\ Forall is_permission_call calls)
  /\ (forall E id_ subject_ room_ teacher_ endTime_ enabled log,
        fst (scheduleNotification E
               (Build_Lecture id_ (str "Sunday") subject_ room_ teacher_
                  (str "00:10") endTime_ enabled) (Int 30) log) = Ret None
        /\ Routine.getWeeklyTrigger 1 (str "Sunday") (str "00:10") (Int 30)
           = Ret (Some (Trigger CALENDAR 7 (Int 23) (Int 40) (Some true)))).
Proof.
  assert (Hmain : forall E lecture leadTime log,
     nlt (timeToMinutes (startTime lecture)) leadTime = true ->
     exists calls,
       scheduleNotification E lecture leadTime log = (Ret None, log ++ calls)
       /\ Forall is_permission_call calls).
  { intros E lecture leadTime log H.
    destruct (requestNotificationPermissions_calls E log)
      as (granted & calls & Hreq & Hcalls).
    exists calls. split; [|exact Hcalls].
    unfold scheduleNotification, mbind at 1. rewrite Hreq.
    destruct granted; [|reflexivity]. cbn [negb].
    destruct (getDayNumber (day lecture) <? 0)%Z; [reflexivity|].
    rewrite (notify_hour_negative _ _ H). reflexivity. }
  split; [exact Hmain|].
  intros E id_ subject_ room_ teacher_ endTime_ enabled log.
  split; [|reflexivity].
  destruct (Hmain E (Build_Lecture id_ (str "Sunday") subject_ room_ teacher_
                       (str "00:10") endTime_ enabled) (Int 30) log) as (calls & Hc & _).
  - reflexivity.
  - now rewrite Hc.
Qed.

Definition env_granted : env :=
  {| platformIsWeb := false;
     existingGranted := fun _ => true;
     requestGranted := fun _ => true;
     cancelResult := fun _ => Ret tt;
     scheduleResult := fun _ => Ret (str "lecture-1") |}.

Definition lecture_sunday : Lecture :=
  {| id := 1; day := str "Sunday"; subject := str "Algebra"; room := str "CR-1";
     teacher := str "Dr. A"; startTime := str "00:10"; endTime := str "01:30";
     reminderEnabled := 1 |}.

Lemma scheduleNotification_skips_negative_witness :
  nlt (timeToMinutes (startTime lecture_sunday)) (Int 30) = true
  /\ exists calls,
       scheduleNotification env_granted lecture_sunday (Int 30) []
       = (Ret None, [] ++ calls)
       /\ Forall is_permission_call calls.
Proof.
  split; [reflexivity|].
  apply (proj1 scheduleNotification_skips_negative). reflexivity.
Defined.

End LecturePath.

(** ** The time parser of the tabular import *)

Section TimeParser.

Import Routine.

Variable exotic : number -> jsstring.

Lemma parseSpreadsheetTime_finite stack n q :
  to_Q n = Some q ->
  parseSpreadsheetTime exotic (S stack) (VNum n) = Ret (numericTime q).
Proof. intro H. simpl. rewrite H. reflexivity. Qed.

Lemma parseSpreadsheetTime_examples :
  parseSpreadsheetTime exotic 1 (VNum (Real (1 # 2))) = Ret (str "12:00")
  /\ parseSpreadsheetTime exotic 1 (VNum (Real (70833 # 100000))) = Ret (str "17:00")
  /\ parseSpreadsheetTime exotic 1 (VNum (Int 17)) = Ret (str "17:00")
  /\ parseSpreadsheetTime exotic 1 (VNum (Int 24)) = Ret []
  /\ parseSpreadsheetTime exotic 1 (VNum NaN) = Ret [].
Proof. repeat split; reflexivity. Qed.

(** C6 (the defect).  On the number [Infinity], and on [-Infinity],
    [parseSpreadsheetTime] never returns: the text of the value reads back
    as the same number and the function calls itself again, whatever the
    depth of the call stack, until the engine throws its [RangeError]. *)
Theorem parseSpreadsheetTime_infinity_overflows :
  forall stack,
    parseSpreadsheetTime exotic stack (VNum PInf) = Throw RangeError
    /\ parseSpreadsheetTime exotic stack (VNum NInf) = Throw RangeError.
Proof.
  induction stack as [|stack [IHp IHn]]; [split; reflexivity|].
  split.
  - change (parseSpreadsheetTime exotic stack (VNum PInf) = Throw RangeError).
    exact IHp.
  - change (parseSpreadsheetTime exotic stack (VNum NInf) = Throw RangeError).
    exact IHn.
Qed.

End TimeParser.

(** ** The tabular import *)

Section RowImport.

Import Routine.

Variable exotic : number -> jsstring.

(** The cells of a row that the loop of [parseImportedRows] reads, and
    the four required values it resolves them to.  The loop converts
    all the cells it reads before its first test, so the values are
    there when none of the conversions fails. *)
Definition titleCell (row : list (jsstring * value)) : value :=
  get (byKey_of row) "title" ?? get (byKey_of row) "activity"
  ?? get (byKey_of row) "task" ?? VStr [].

Definition dayCell (row : list (jsstring * value)) : value :=
  get (byKey_of row) "day" ?? get (byKey_of row) "weekday".

Definition startCell (row : list (jsstring * value)) : value :=
  get (byKey_of row) "starttime" ?? get (byKey_of row) "start" ?? VStr [].

Definition endCell (row : list (jsstring * value)) : value :=
  get (byKey_of row) "endtime" ?? get (byKey_of row) "end" ?? VStr [].

Definition notesCell (row : list (jsstring * value)) : value :=
  get (byKey_of row) "notes" ?? get (byKey_of row) "note" ?? VStr [].

Definition doneCell (row : list (jsstring * value)) : value :=
  get (byKey_of row) "done".

Definition reminderCell (row : list (jsstring * value)) : value :=
  get (byKey_of row) "reminderenabled" ?? get (byKey_of row) "reminder".

Definition resolved (stack : nat) (row : list (jsstring * value))
  : outcome (jsstring * option dayValue * jsstring * jsstring) :=
  bind (String_ exotic (titleCell row)) (fun t =>
  bind (toFullDay exotic (dayCell row)) (fun d =>
  bind (parseSpreadsheetTime exotic stack (startCell row)) (fun s =>
  bind (parseSpreadsheetTime exotic stack (endCell row)) (fun e =>
  bind (String_ exotic (notesCell row)) (fun _ =>
  bind (parseBool exotic (doneCell row)) (fun _ =>
  bind (parseBool exotic (reminderCell row)) (fun _ =>
  Ret (trim t, d, s, e)))))))).

Definition missing_fields : string :=
  " is missing required fields (title/day/startTime/endTime).".






End RowImport.

Definition no_exotic : number -> jsstring := fun _ => [].




(** A day that reads as the name of an inherited member is not empty
    for the loop: alone in its row it is reported as a row with missing
    fields, and in a full row it is the day of the item. *)
Example inherited_member_day :
  Routine.parseImportedRows no_exotic 10
    [Some [(str "day", Routine.VStr (str "constructor"))]]
  = Throw (Error (str "Row 2 is missing required fields (title/day/startTime/endTime)."))
  /\ exists item,
       Routine.parseImportedRows no_exotic 10
         [Some [(str "title", Routine.VStr (str "Gym"));
                (str "day", Routine.VStr (str "Constructor"));
                (str "start", Routine.VStr (str "07:00"));
                (str "end", Routine.VStr (str "08:00"))]]
       = Ret [item]
       /\ Routine.day item = Some (Routine.Member (str "constructor")).
Proof. split; [reflexivity | eexists; split; reflexivity]. Qed.

(** ** The JSON import *)

Section JsonImport.

Import ImportScreen.

Variable exotic : number -> jsstring.
Variable stackDepth : nat.

(** [item.key] on an item that is not [null]. *)
Definition field (item : json) (key : string) : option json :=
  match item with
  | JObj members => member (str key) members
  | _ => None
  end.

Definition lacks_field (item : json) : bool :=
  falsy (field item "day") || falsy (field item "subject")
  || falsy (field item "room") || falsy (field item "teacher")
  || falsy (field item "startTime") || falsy (field item "endTime").

Definition rejected (item : json) : bool :=
  lacks_field item || negb (is_day (field item "day")).

Definition lecture_of (item : json) : InsertLecture (option json) :=
  {| day := field item "day"; subject := field item "subject";
     room := field item "room"; teacher := field item "teacher";
     startTime := field item "startTime"; endTime := field item "endTime";
     reminderEnabled := 0 |}.

(** The conversion to a text ends, with a text or with an error. *)
Lemma joinTexts_finished element l :
  (forall e, element e <> Unfinished) -> joinTexts element l <> Unfinished.
Proof.
  intro He. induction l as [|e l IH]; [discriminate|].
  cbn [joinTexts]. destruct l as [|e' l]; [apply He|].
  specialize (He e). destruct (element e); cbn [bind]; try discriminate;
    [|contradiction].
  destruct (joinTexts element (e' :: l)); cbn [bind]; try discriminate.
  contradiction.
Qed.

Lemma json_text_finished depth : forall v,
  json_text exotic depth v <> Unfinished.
Proof.
  induction depth as [|depth IH]; intros [| [|] | n | s | elements | members];
    cbn [json_text]; try discriminate;
    try (destruct (member (str "toString") members); discriminate).
  apply joinTexts_finished.
  intros [| | | | |]; try discriminate; apply IH.
Qed.

Lemma parseItem_null i : parseItem exotic stackDepth JNull i = Throw TypeError.
Proof. reflexivity. Qed.

(** The callback on an item that is not [null], test by test. *)
Lemma parseItem_not_null item i :
  item <> JNull ->
  parseItem exotic stackDepth item i =
    if lacks_field item then Throw (missing_error i)
    else if is_day (field item "day") then Ret (lecture_of item)
    else bind (text_of exotic stackDepth (field item "day"))
           (fun text => Throw (invalid_day_error text i)).
Proof.
  intro Hn. unfold parseItem, lacks_field, lecture_of.
  destruct item; try contradiction; cbn [prop bind field];
    destruct (falsy _ || falsy _ || falsy _ || falsy _ || falsy _ || falsy _);
    cbn [orb]; try reflexivity;
    destruct (is_day _); reflexivity.
Qed.

Lemma rejected_not_null item : rejected item = false -> item <> JNull.
Proof. intros H ->. discriminate. Qed.

Lemma parseItem_accepts item i :
  rejected item = false -> parseItem exotic stackDepth item i = Ret (lecture_of item).
Proof.
  intro Hr. rewrite parseItem_not_null by now apply rejected_not_null.
  unfold rejected in Hr. apply orb_false_iff in Hr as [-> Hd].
  apply negb_false_iff in Hd. now rewrite Hd.
Qed.

Lemma mapItems_accepts items : forall i,
  Forall (fun item => rejected item = false) items ->
  mapItems exotic stackDepth items i = Ret (map lecture_of items).
Proof.
  induction items as [|item items IH]; intros i H; [reflexivity|].
  inversion H as [|? ? Hr Hrest]; subst.
  cbn [mapItems map]. rewrite parseItem_accepts by exact Hr.
  cbn [bind]. rewrite IH by exact Hrest. reflexivity.
Qed.

(** The items are taken in order: when the items before an item are
    accepted and the callback throws on it, the parse throws there. *)
Lemma mapItems_first_thrown pre : forall i item post e,
  Forall (fun item => rejected item = false) pre ->
  parseItem exotic stackDepth item (i + length pre) = Throw e ->
  mapItems exotic stackDepth (pre ++ item :: post) i = Throw e.
Proof.
  induction pre as [|p pre IH]; intros i item post e Hpre He.
  - cbn [app mapItems length] in *. rewrite Nat.add_0_r in He. now rewrite He.
  - inversion Hpre as [|? ? Hpr Hrest]; subst.
    cbn [app mapItems]. rewrite parseItem_accepts by exact Hpr.
    cbn [bind]. rewrite (IH (S i) item post e); [reflexivity | exact Hrest |].
    cbn [length] in He. rewrite Nat.add_succ_r in He. exact He.
Qed.

Lemma nth_error_split_at {A} (l : list A) n a :
  nth_error l n = Some a -> l = firstn n l ++ a :: skipn (S n) l /\ length (firstn n l) = n.
Proof.
  revert l. induction n as [|n IH]; intros [|x l] H; try discriminate.
  - injection H as ->. now split.
  - cbn [nth_error] in H. destruct (IH l H) as [Hl Hlen].
    split; [|cbn [firstn length]; now rewrite Hlen].
    change (x :: l = x :: (firstn n l ++ a :: skipn (S n) l)). now rewrite <- Hl.
Qed.

Variable JSON_parse : jsstring -> outcome json.
Variable importResult : list call -> outcome unit.

Lemma handleImportJson_failed jsonText e log :
  is_empty (trim jsonText) = false ->
  parseJsonLectures exotic stackDepth JSON_parse (trim jsonText) = Throw e ->
  handleImportJson exotic stackDepth JSON_parse importResult jsonText log
  = (Ret tt, log ++ [SetImporting true; AlertImportFailed e; SetImporting false]).
Proof.
  intros Hne Hp. unfold handleImportJson. rewrite Hne.
  unfold mbind, perform, finally, try_catch, lift. rewrite Hp. cbn.
  now rewrite <- !app_assoc.
Qed.

Lemma handleImportJson_not_parsed jsonText log :
  (forall lectures,
     parseJsonLectures exotic stackDepth JSON_parse (trim jsonText) <> Ret lectures) ->
  exists calls,
    snd (handleImportJson exotic stackDepth JSON_parse importResult jsonText log) = log ++ calls
    /\ forall lectures, ~ In (ImportLectures lectures) calls.
Proof.
  intro Hp. unfold handleImportJson.
  destruct (is_empty (trim jsonText)).
  - exists [AlertEmpty]. split; [reflexivity|].
    intros ls [H|[]]. discriminate.
  - unfold mbind, perform, finally, try_catch, lift.
    destruct (parseJsonLectures exotic stackDepth JSON_parse (trim jsonText)) as [ls|e|] eqn:E.
    + now elim (Hp ls).
    + exists [SetImporting true; AlertImportFailed e; SetImporting false].
      cbn. split; [now rewrite <- !app_assoc|].
      intros ls [H|[H|[H|[]]]]; discriminate.
    + exists [SetImporting true; SetImporting false].
      cbn. split; [now rewrite <- !app_assoc|].
      intros ls [H|[H|[]]]; discriminate.
Qed.

(** C5, as the code has it.  The items of a JSON array are taken in
    order, and the first item that is not accepted decides the error:
    the engine's [TypeError], which names no item, when that item is
    [null]; the missing-fields error with its 1-based position when it
    lacks one of the six members (or has it empty); and when it has the
    six but a day that is not exactly one of the seven weekday names,
    the invalid-day error with the text of the day and the 1-based
    position, or what the conversion of the day to a text throws when it
    fails.  When every item is accepted, every returned lecture carries
    the six members of its item and [reminderEnabled = 0].  And whenever
    the parse does not return, [handleImportJson] issues no persistence
    call. *)
Theorem parseJsonLectures_validates :
  (forall text items,
     JSON_parse text = Ret (JArr items) ->
     (forall n item,
        nth_error items n = Some item ->
        Forall (fun item => rejected item = false) (firstn n items) ->
        (item = JNull ->
         parseJsonLectures exotic stackDepth JSON_parse text = Throw TypeError)
        /\ (item <> JNull -> lacks_field item = true ->
            parseJsonLectures exotic stackDepth JSON_parse text
            = Throw (missing_error n))
        /\ (lacks_field item = false -> is_day (field item "day") = false ->
            parseJsonLectures exotic stackDepth JSON_parse text
            = bind (text_of exotic stackDepth (field item "day"))
                (fun text => Throw (invalid_day_error text n))))
     /\ (Forall (fun item => rejected item = false) items ->
         parseJsonLectures exotic stackDepth JSON_parse text
         = Ret (map lecture_of items)))
  /\ (forall jsonText log,
        (forall lectures,
           parseJsonLectures exotic stackDepth JSON_parse (trim jsonText)
           <> Ret lectures) ->
        exists calls,
          snd (handleImportJson exotic stackDepth JSON_parse importResult jsonText log)
          = log ++ calls
          /\ forall lectures, ~ In (ImportLectures lectures) calls).
Proof.
  split; [|exact handleImportJson_not_parsed].
  intros text items Hparse. unfold parseJsonLectures. rewrite Hparse.
  cbn [bind]. split.
  - intros n item Hn Hpre.
    destruct (nth_error_split_at items n item Hn) as [Hsplit Hlen].
    rewrite Hsplit at 1 2 3.
    repeat split.
    + intros ->. apply mapItems_first_thrown; [exact Hpre | apply parseItem_null].
    + intros Hnull Hlack. apply mapItems_first_thrown; [exact Hpre|].
      rewrite parseItem_not_null, Hlack, Hlen by exact Hnull. reflexivity.
    + intros Hlack Hday.
      assert (Hnull : item <> JNull) by (intros ->; discriminate).
      pose proof (parseItem_not_null item (0 + length (firstn n items)) Hnull) as Hp.
      rewrite Hlack, Hday, Hlen in Hp. cbn [Nat.add] in Hp.
      destruct (text_of exotic stackDepth (field item "day")) as [t|e|] eqn:Et;
        cbn [bind] in Hp.
      * apply mapItems_first_thrown; [exact Hpre | now rewrite Hlen].
      * apply mapItems_first_thrown; [exact Hpre | now rewrite Hlen].
      * exfalso. clear - Et. unfold text_of in Et.
        destruct (field item "day") as [j|]; [|discriminate].
        now apply json_text_finished in Et.
  - intro Hok. now apply mapItems_accepts.
Qed.

End JsonImport.

Definition item_monday : ImportScreen.json :=
  ImportScreen.JObj
    [(str "day", ImportScreen.JStr (str "Monday"));
     (str "subject", ImportScreen.JStr (str "Theory of Automata"));
     (str "room", ImportScreen.JStr (str "CR-35"));
     (str "teacher", ImportScreen.JStr (str "Ms. Hira Arshad"));
     (str "startTime", ImportScreen.JStr (str "11:00"));
     (str "endTime", ImportScreen.JStr (str "12:20"))].

Definition item_funday : ImportScreen.json :=
  ImportScreen.JObj
    [(str "day", ImportScreen.JStr (str "Funday"));
     (str "subject", ImportScreen.JStr (str "Games"));
     (str "room", ImportScreen.JStr (str "CR-1"));
     (str "teacher", ImportScreen.JStr (str "Mr. X"));
     (str "startTime", ImportScreen.JStr (str "09:00"));
     (str "endTime", ImportScreen.JStr (str "10:00"))].

(** An item whose day is the object [{toString: 1}]. *)
Definition item_bare_day : ImportScreen.json :=
  ImportScreen.JObj
    [(str "day", ImportScreen.JObj [(str "toString", ImportScreen.JNum (Int 1))]);
     (str "subject", ImportScreen.JStr (str "Games"));
     (str "room", ImportScreen.JStr (str "CR-1"));
     (str "teacher", ImportScreen.JStr (str "Mr. X"));
     (str "startTime", ImportScreen.JStr (str "09:00"));
     (str "endTime", ImportScreen.JStr (str "10:00"))].

Definition parse_to (j : ImportScreen.json) : jsstring -> outcome ImportScreen.json :=
  fun _ => Ret j.

(** A JSON text, written with an apostrophe for each double quote. *)
Definition json_of (s : string) : jsstring :=
  map (fun c => if (c =? 39)%N then 34%N else c) (str s).

Definition text_monday_funday : jsstring :=
  json_of ("[{'day':'Monday','subject':'Theory of Automata','room':'CR-35',"
           ++ "'teacher':'Ms. Hira Arshad','startTime':'11:00','endTime':'12:20'},"
           ++ "{'day':'Funday','subject':'Games','room':'CR-1',"
           ++ "'teacher':'Mr. X','startTime':'09:00','endTime':'10:00'}]").

Definition text_bare_day : jsstring :=
  json_of ("[{'day':{'toString':1},'subject':'Games','room':'CR-1',"
           ++ "'teacher':'Mr. X','startTime':'09:00','endTime':'10:00'}]").

Lemma parseJsonLectures_validates_witness :
  ImportScreen.parseJsonLectures no_exotic 8
    (parse_to (ImportScreen.JArr [item_monday; item_funday])) text_monday_funday
  = Throw (Error (str "Invalid day " ++ [34%N] ++ str "Funday" ++ [34%N]
                  ++ str " in item 2.")).
Proof.
  refine (proj2 (proj2 (proj1 (proj1 (parseJsonLectures_validates no_exotic 8
                  (parse_to (ImportScreen.JArr [item_monday; item_funday]))
                  (fun _ => Ret tt)) text_monday_funday [item_monday; item_funday]
                  eq_refl) 1%nat item_funday eq_refl _)) _ _).
  - cbn [firstn]. constructor; [reflexivity | constructor].
  - reflexivity.
  - reflexivity.
Defined.

(** C5, as stated, fails on an array with a [null] item, which has no
    day, and on an item whose day is an object with a member named
    [toString], which is no weekday name: the error thrown is the
    engine's [TypeError], which names no item. *)
Lemma null_item_names_no_index :
  ImportScreen.parseJsonLectures no_exotic 8
    (parse_to (ImportScreen.JArr [ImportScreen.JNull])) (str "[null]")
  = Throw TypeError
  /\ ImportScreen.parseJsonLectures no_exotic 8
       (parse_to (ImportScreen.JArr [item_bare_day])) text_bare_day
     = Throw TypeError.
Proof. split; reflexivity. Qed.

(** ** Saving an edited routine item *)

Section SaveItem.

Import Routine.

Local Open Scope effect_scope.

(** A computation that only adds calls satisfying [P] to the log. *)
Definition emits {A} (P : call -> Prop) (m : M call A) : Prop :=
  forall log, exists calls, snd (m log) = log ++ calls /\ Forall P calls.

Lemma emits_ret {A} P (a : A) : emits P (ret a).
Proof. intro log. exists []. now rewrite app_nil_r. Qed.

Lemma emits_lift {A} P (o : outcome A) : emits P (lift o).
Proof. intro log. exists []. now rewrite app_nil_r. Qed.

Lemma emits_perform {A} (P : call -> Prop) c (result : list call -> outcome A) :
  P c -> emits P (perform c result).
Proof. intros Hc log. exists [c]. split; [reflexivity | now constructor]. Qed.

Lemma emits_mbind {A B} P (m : M call A) (f : A -> M call B) :
  emits P m -> (forall a, emits P (f a)) -> emits P (mbind m f).
Proof.
  intros Hm Hf log. unfold mbind.
  destruct (Hm log) as (c1 & H1 & P1).
  destruct (m log) as [[a|e|] log1]; simpl in H1; subst log1.
  - destruct (Hf a (log ++ c1)) as (c2 & H2 & P2).
    exists (c1 ++ c2). rewrite H2, app_assoc. split; [reflexivity|].
    apply Forall_app. now split.
  - now exists c1.
  - now exists c1.
Qed.

Lemma mbind_run {A B} (m : M call A) (f : A -> M call B) log a log' :
  m log = (Ret a, log') -> mbind m f log = f a log'.
Proof. intro H. unfold mbind. now rewrite H. Qed.

Definition not_cancel (c : call) : Prop :=
  match c with Cancel _ => False | _ => True end.

Variable E : env.

Lemma ensureNotificationPermission_emits :
  emits not_cancel (ensureNotificationPermission E).
Proof.
  unfold ensureNotificationPermission.
  apply emits_mbind; [now apply emits_perform|]. intros perms.
  destruct (fst perms || snd perms); [apply emits_ret|].
  apply emits_mbind; [now apply emits_perform|]. intros req. apply emits_ret.
Qed.

Lemma scheduleIf_emits fuel title body day time offset ids :
  emits not_cancel (scheduleIf E fuel title body day time offset ids).
Proof.
  unfold scheduleIf. apply emits_mbind; [apply emits_lift|].
  intros [t|]; [|apply emits_ret].
  apply emits_mbind; [now apply emits_perform|]. intros. apply emits_ret.
Qed.

Lemma scheduleRoutineNotifications_emits fuel item leadMins :
  emits not_cancel (scheduleRoutineNotifications E fuel item leadMins).
Proof.
  unfold scheduleRoutineNotifications.
  apply emits_mbind; [apply ensureNotificationPermission_emits|].
  intros hasPerms. destruct (negb hasPerms); [apply emits_ret|].
  apply emits_mbind.
  { destruct (ngt leadMins (Int 0)); [apply scheduleIf_emits | apply emits_ret]. }
  intros ids1. apply emits_mbind; [apply scheduleIf_emits|].
  intros ids2. apply emits_mbind; [apply scheduleIf_emits|].
  intros ids3. apply emits_ret.
Qed.

Lemma scheduleFor_emits fuel st item :
  emits not_cancel (scheduleFor E fuel st item).
Proof.
  unfold scheduleFor. destruct (f_reminderEnabled st); [|apply emits_ret].
  apply emits_mbind; [apply scheduleRoutineNotifications_emits|].
  intros ids. apply emits_mbind.
  - destruct ids; [apply emits_ret | now apply emits_perform].
  - intros _. apply emits_ret.
Qed.

(** The cancellations of [cancelRoutineNotifications]: one call per
    stored identifier, in order, and no failure leaves the function. *)
Lemma cancelRoutineNotifications_log item log :
  (forall l, cancelResult E l <> Unfinished) ->
  cancelRoutineNotifications E item log
  = (Ret tt, log ++ map Cancel (getRoutineNotificationIds item)).
Proof.
  intro Hsettle. unfold cancelRoutineNotifications.
  generalize (getRoutineNotificationIds item) as ids.
  intro ids. revert log. induction ids as [|id ids IH]; intro log.
  - simpl. unfold ret. now rewrite app_nil_r.
  - simpl. unfold mbind, catch_ignore, cancelScheduledNotificationAsync, perform.
    destruct (cancelResult E (log ++ [Cancel id])) as [[]|e|] eqn:Ec.
    + rewrite IH. now rewrite <- app_assoc.
    + rewrite IH. now rewrite <- app_assoc.
    + now elim (Hsettle (log ++ [Cancel id])).
Qed.

Definition with_cancelResult (c : list call -> outcome unit) : env :=
  {| permissions := permissions E; requested := requested E; cancelResult := c;
     scheduleResult := scheduleResult E; persistResult := persistResult E;
     sortRoutine := sortRoutine E; now := now E |}.

End SaveItem.

(** What [getRoutineNotificationIds] returns, member by member: the
    list [reminderIds] when it is there and not empty; otherwise the
    single [reminderId] when it is there and not empty; otherwise
    nothing. *)
Lemma getRoutineNotificationIds_stored item stored :
  (Routine.r_reminderIds item = Some stored /\ stored <> [])
  \/ ((Routine.r_reminderIds item = None \/ Routine.r_reminderIds item = Some [])
      /\ ((exists id, Routine.r_reminderId item = Some id /\ id <> [] /\ stored = [id])
          \/ ((Routine.r_reminderId item = None \/ Routine.r_reminderId item = Some [])
              /\ stored = []))) ->
  Routine.getRoutineNotificationIds item = stored.
Proof.
  unfold Routine.getRoutineNotificationIds.
  intros [[Hids Hne] | [Hids Hid]].
  - rewrite Hids. destruct stored; [contradiction | reflexivity].
  - assert (Hnone : match Routine.r_reminderIds item with
                    | Some (_ :: _) => False | _ => True end)
      by (destruct Hids as [-> | ->]; exact I).
    destruct (Routine.r_reminderIds item) as [[|i ids]|]; try contradiction;
      (destruct Hid as [(id & Hid & Hne & ->) | [[Hid | Hid] ->]]; rewrite Hid;
       [destruct id; [contradiction | reflexivity] | reflexivity | reflexivity]).
Qed.

(** C8.  Saving an edited item whose form passes validation, where
    [stored] are the identifiers kept with the previous version of the
    item (its list [reminderIds] when that is not empty, otherwise its
    single [reminderId], otherwise none): the calls added to the log
    start with one cancel call per stored identifier, in order, and no
    cancel call comes after them, so that every cancellation precedes
    every schedule call; and the outcome and the log are those of a run
    in which no cancellation fails, that is, cancellation failures never
    surface. *)
Theorem saveItem_cancels_first :
  forall E fuel st editing prev stored log,
    Routine.editingId st = Some editing -> editing <> [] ->
    find (fun i => jseq (Routine.r_id i) editing) (Routine.items st) = Some prev ->
    (Routine.r_reminderIds prev = Some stored /\ stored <> [])
    \/ ((Routine.r_reminderIds prev = None \/ Routine.r_reminderIds prev = Some [])
        /\ ((exists id, Routine.r_reminderId prev = Some id /\ id <> []
                        /\ stored = [id])
            \/ ((Routine.r_reminderId prev = None \/ Routine.r_reminderId prev = Some [])
                /\ stored = []))) ->
    is_empty (trim (Routine.f_title st)) = false ->
    Routine.validTime (trim (Routine.f_startTime st)) = true ->
    Routine.validTime (trim (Routine.f_endTime st)) = true ->
    nle (Routine.timeToMinutes (trim (Routine.f_endTime st)))
        (Routine.timeToMinutes (trim (Routine.f_startTime st))) = false ->
    (forall l, Routine.cancelResult E l <> Unfinished) ->
    (exists rest,
       snd (Routine.saveItem E fuel st log)
       = log ++ map Routine.Cancel stored ++ rest
       /\ Forall not_cancel rest)
    /\ Routine.saveItem E fuel st log
       = Routine.saveItem (with_cancelResult E (fun _ => Ret tt)) fuel st log.
Proof.
  intros E fuel st editing prev stored log Hid Hne Hfind Hstored Ht Hs He Hle Hsettle.
  apply getRoutineNotificationIds_stored in Hstored.
  unfold Routine.saveItem. rewrite Hid, Ht, Hs, He, Hle. cbn [negb orb].
  destruct editing as [|c e]; [contradiction|]. rewrite Hfind.
  match goal with
  | |- context [mbind (Routine.cancelRoutineNotifications E prev) ?K log] =>
      rewrite (mbind_run _ K log tt _ (cancelRoutineNotifications_log E prev log Hsettle))
  end.
  match goal with
  | |- context [mbind (Routine.cancelRoutineNotifications ?E' prev) ?K log] =>
      rewrite (mbind_run _ K log tt _
                 (cancelRoutineNotifications_log E' prev log ltac:(discriminate)))
  end.
  rewrite Hstored.
  split; [|reflexivity].
  match goal with
  | |- exists rest, snd (?k ?l) = _ /\ _ =>
      assert (Hk : emits not_cancel k)
  end.
  { apply emits_mbind; [apply scheduleFor_emits|]. intros nextBase.
    apply emits_mbind; [now apply emits_perform|]. intros _.
    apply emits_mbind; [now apply emits_perform|]. intros _.
    now apply emits_perform. }
  destruct (Hk (log ++ map Routine.Cancel stored)) as (rest & Hrest & Hnc).
  exists rest. split; [|exact Hnc]. rewrite Hrest. now rewrite app_assoc.
Qed.

(** [sortRoutine] on items whose days are weekday names or their short
    forms and whose start times are [HH:MM] texts, which [localeCompare]
    orders as their code units do: the stable sort by the weight of the
    day, then by the start time. *)
Definition dayWeight (day : jsstring) : Z :=
  let full := match Routine.DAY_FULL day with Some full => full | None => day end in
  if jseq full (str "Monday") then 1
  else if jseq full (str "Tuesday") then 2
  else if jseq full (str "Wednesday") then 3
  else if jseq full (str "Thursday") then 4
  else if jseq full (str "Friday") then 5
  else if jseq full (str "Saturday") then 6
  else if jseq full (str "Sunday") then 7
  else 8.

Fixpoint compareUnits (a b : jsstring) : Z :=
  match a, b with
  | [], [] => 0
  | [], _ :: _ => -1
  | _ :: _, [] => 1
  | c :: a', d :: b' =>
      if (c <? d)%N then -1 else if (d <? c)%N then 1 else compareUnits a' b'
  end.

Definition compareItems (a b : Routine.RoutineItem) : Z :=
  let d := (dayWeight (Routine.r_day a) - dayWeight (Routine.r_day b))%Z in
  if negb (d =? 0)%Z then d
  else compareUnits (Routine.r_startTime a) (Routine.r_startTime b).

Fixpoint insertItem (a : Routine.RoutineItem) (l : list Routine.RoutineItem)
  : list Routine.RoutineItem :=
  match l with
  | [] => [a]
  | b :: l' => if (compareItems a b <=? 0)%Z then a :: l else b :: insertItem a l'
  end.

Definition sortWeek (items : list Routine.RoutineItem) : list Routine.RoutineItem :=
  fold_right insertItem [] items.

Definition env_cancel_fails : Routine.env :=
  {| Routine.permissions := fun _ => (true, false);
     Routine.requested := fun _ => (true, false);
     Routine.cancelResult := fun _ => Throw (Rejected (str "unknown identifier"));
     Routine.scheduleResult := fun log => Ret (str "n" ++ string_of_Z (Z.of_nat (length log)));
     Routine.persistResult := fun _ => Ret tt;
     Routine.sortRoutine := sortWeek;
     Routine.now := 1700000000000 |}.

Definition gym_item : Routine.RoutineItem :=
  {| Routine.r_id := str "1"; Routine.r_title := str "Gym";
     Routine.r_day := str "Monday"; Routine.r_startTime := str "07:00";
     Routine.r_endTime := str "08:00"; Routine.r_notes := [];
     Routine.r_done := false; Routine.r_reminderEnabled := 1;
     Routine.r_reminderIds := Some [str "a"; str "b"];
     Routine.r_reminderId := Some (str "a") |}.

Definition gym_edit : Routine.screen :=
  {| Routine.items := [gym_item]; Routine.editingId := Some (str "1");
     Routine.f_title := str "Gym "; Routine.formDay := str "Tue";
     Routine.f_startTime := str "07:30"; Routine.f_endTime := str "08:30";
     Routine.f_notes := []; Routine.f_reminderEnabled := true;
     Routine.reminderLeadTime := Int 15 |}.

Lemma saveItem_cancels_first_witness :
  (exists rest,
     snd (Routine.saveItem env_cancel_fails 0 gym_edit [])
     = [] ++ map Routine.Cancel [str "a"; str "b"] ++ rest
     /\ Forall not_cancel rest)
  /\ Routine.saveItem env_cancel_fails 0 gym_edit []
     = Routine.saveItem (with_cancelResult env_cancel_fails (fun _ => Ret tt)) 0
         gym_edit [].
Proof.
  apply (saveItem_cancels_first env_cancel_fails 0 gym_edit (str "1") gym_item
           [str "a"; str "b"] []);
    try reflexivity; try discriminate.
  left. split; [reflexivity | discriminate].
Defined.

(** The run of the witness, call by call: the two cancellations, which
    both fail, then the permission check, the three schedule calls for
    Tuesday 07:15, 07:30 and 08:30, and the save. *)
Lemma saveItem_gym_log :
  exists saved,
    Routine.saveItem env_cancel_fails 0 gym_edit []
    = (Ret tt,
       [Routine.Cancel (str "a"); Routine.Cancel (str "b"); Routine.GetPermissions;
        Routine.Schedule (str "Upcoming routine: Gym") (str "Tuesday 07:30 - 08:30")
          (Trigger CALENDAR 3 (Int 7) (Int 15) (Some true));
        Routine.Schedule (str "Start now: Gym") (str "Tuesday 07:30 - 08:30")
          (Trigger CALENDAR 3 (Int 7) (Int 30) (Some true));
        Routine.Schedule (str "Ended: Gym") (str "Tuesday 07:30 - 08:30")
          (Trigger CALENDAR 3 (Int 8) (Int 30) (Some true));
        Routine.Persist [saved]; Routine.HapticSelection; Routine.CloseModal])
    /\ Routine.r_reminderIds saved = Some [str "n4"; str "n5"; str "n6"].
Proof. eexists. split; vm_compute; reflexivity. Qed.

(** ** Segmentation of the timetable tokens *)

Section Segmentation.

Import ImportScreen.

Definition no_weekday (tokens : list jsstring) : Prop :=
  Forall (fun t => includes DAYS t = false) tokens.

Lemma daySegmentsFrom_tail tail : forall pending,
  no_weekday tail -> daySegmentsFrom pending tail = [].
Proof.
  induction tail as [|t tail IH]; intros pending H; [reflexivity|].
  inversion H as [|? ? Ht Hrest]; subst. cbn [daySegmentsFrom]. rewrite Ht. now apply IH.
Qed.

Lemma daySegmentsFrom_app tokens : forall pending tail,
  no_weekday tail ->
  daySegmentsFrom pending (tokens ++ tail) = daySegmentsFrom pending tokens.
Proof.
  induction tokens as [|t tokens IH]; intros pending tail H.
  - cbn [app]. now apply daySegmentsFrom_tail.
  - cbn [app daySegmentsFrom]. destruct (includes DAYS t); [f_equal|]; now apply IH.
Qed.

Lemma daySegmentsFrom_marker before : forall pending d rest,
  no_weekday before -> includes DAYS d = true ->
  daySegmentsFrom pending (before ++ d :: rest)
  = (d, pending ++ before) :: daySegmentsFrom [] rest.
Proof.
  induction before as [|t before IH]; intros pending d rest H Hd.
  - cbn [app daySegmentsFrom]. rewrite Hd. now rewrite app_nil_r.
  - inversion H as [|? ? Ht Hrest]; subst. cbn [app daySegmentsFrom]. rewrite Ht.
    rewrite IH by assumption. now rewrite <- app_assoc.
Qed.

Lemma slotTable_app tokens tail :
  Forall (fun t => parseSlotRange t = None) tail ->
  slotTable (tokens ++ tail) = slotTable tokens.
Proof.
  intro H. unfold slotTable. rewrite flat_map_app.
  replace (flat_map _ tail) with (@nil (jsstring * jsstring)).
  - now rewrite app_nil_r.
  - induction H as [|t tail Ht _ IH]; [reflexivity|].
    cbn [flat_map]. rewrite Ht. exact IH.
Qed.

(** C2, as the code has it.  A token that is exactly a weekday name
    closes a segment: the tokens gathered since the previous weekday
    token (or since the start) form the segment of that weekday.  The
    tokens after the last weekday token belong to no segment: they change
    neither the segments nor, unless they are slot markers, the lectures
    emitted. *)
Theorem daySegments_close_on_weekday :
  (forall before d rest,
     no_weekday before -> includes DAYS d = true ->
     daySegments (before ++ d :: rest) = (d, before) :: daySegments rest)
  /\ (forall tokens tail,
        no_weekday tail -> daySegments (tokens ++ tail) = daySegments tokens)
  /\ (forall targetSemester targetSection tokens tail,
        no_weekday tail ->
        Forall (fun t => parseSlotRange t = None) tail ->
        timetableOfTokens targetSemester targetSection (tokens ++ tail)
        = timetableOfTokens targetSemester targetSection tokens).
Proof.
  split; [|split].
  - intros before d rest H Hd. unfold daySegments.
    now rewrite daySegmentsFrom_marker.
  - intros tokens tail H. unfold daySegments. now apply daySegmentsFrom_app.
  - intros sem sec tokens tail H Hs. unfold timetableOfTokens.
    destruct tokens as [|t tokens].
    + cbn [app]. destruct tail as [|t tail]; [reflexivity|].
      unfold daySegments. now rewrite daySegmentsFrom_tail.
    + cbn [app]. change (t :: tokens ++ tail) with ((t :: tokens) ++ tail).
      rewrite slotTable_app by exact Hs.
      unfold daySegments. now rewrite daySegmentsFrom_app.
Qed.

End Segmentation.

Definition newline : string := String "010" EmptyString.

Definition timetable_pdf : list N :=
  str ("4 0 obj << /Length 61 >>" ++ newline ++ "stream" ++ newline
       ++ "BT (5th Semester) Tj (Maths) Tj (CR-1) Tj (Monday) Tj ET" ++ newline
       ++ "endstream endobj").

Definition never_inflates : list N -> option (list N) := fun _ => None.

(** A limit of 65536 arguments. *)
Definition argument_limit : nat := 256 * 256.

(** C2, as stated, fails: in this document the tokens "5th Semester",
    "Maths" and "CR-1" come before the first weekday token and make up
    the lecture emitted for Monday; without them, or with them after the
    weekday token, nothing is emitted. *)
Lemma tokens_before_first_weekday_are_used :
  ImportScreen.extractPdfTokens argument_limit never_inflates 1 timetable_pdf
  = Ret (map str ["5th Semester"; "Maths"; "CR-1"; "Monday"]%string)
  /\ ImportScreen.parseTimetablePdf argument_limit never_inflates 1 timetable_pdf (str "5th") []
     = Ret [{| ImportScreen.day := str "Monday"; ImportScreen.subject := str "Maths";
               ImportScreen.room := str "CR-1"; ImportScreen.teacher := str "TBA";
               ImportScreen.startTime := str "08:00";
               ImportScreen.endTime := str "09:20";
               ImportScreen.reminderEnabled := 0 |}]
  /\ ImportScreen.timetableOfTokens 5 [] [str "Monday"] = []
  /\ ImportScreen.timetableOfTokens 5 []
       (map str ["Monday"; "5th Semester"; "Maths"; "CR-1"]%string) = [].
Proof. repeat split; vm_compute; reflexivity. Qed.

Lemma daySegments_close_on_weekday_witness :
  ImportScreen.daySegments
    (map str ["5th Semester"; "Maths"; "CR-1"]%string ++ str "Monday" :: [str "Physics"])
  = (str "Monday", map str ["5th Semester"; "Maths"; "CR-1"]%string)
    :: ImportScreen.daySegments [str "Physics"].
Proof.
  apply (proj1 daySegments_close_on_weekday).
  - repeat constructor.
  - reflexivity.
Defined.

(** ** The matcher only moves forward *)

(** [adv x y]: state [y] is reached from [x] by consuming [n] code units. *)
Definition adv (x y : mstate) : Prop :=
  exists n, pos y = (pos x + n)%nat /\ rest y = skipn n (rest x)
            /\ (n <= length (rest x))%nat.

Lemma adv_refl x : adv x x.
Proof. exists 0%nat. repeat split; [lia | lia]. Qed.

Lemma adv_trans x y z : adv x y -> adv y z -> adv x z.
Proof.
  intros (n & Hp & Hr & Hn) (m & Hp' & Hr' & Hm).
  exists (n + m)%nat. repeat split.
  - lia.
  - rewrite Hr', Hr, skipn_skipn. f_equal. lia.
  - rewrite Hr, length_skipn in Hm. lia.
Qed.

Definition forward (m : mstate -> (mstate -> option mstate) -> option mstate) : Prop :=
  forall x k z, m x k = Some z -> exists y, adv x y /\ k y = Some z.

Lemma repLoop_forward m greedy :
  forward m ->
  forall fuel min max x k z,
    repLoop m fuel min max greedy x k = Some z -> exists y, adv x y /\ k y = Some z.
Proof.
  intros Hm fuel. induction fuel as [|fuel IH]; intros min max x k z H;
    [discriminate|].
  cbn [repLoop] in H.
  destruct (is_zero_max max); [exists x; split; [apply adv_refl | exact H]|].
  assert (Hiter : forall z,
    m x (fun y => if Nat.eqb min 0 && Nat.eqb (pos y) (pos x) then None
                  else repLoop m fuel (Nat.pred min) (option_map Nat.pred max) greedy y k)
    = Some z -> exists y, adv x y /\ k y = Some z).
  { intros z' Hz. apply Hm in Hz as (y & Hxy & Hy).
    destruct (Nat.eqb min 0 && Nat.eqb (pos y) (pos x)); [discriminate|].
    apply IH in Hy as (y' & Hyy' & Hk). exists y'. split; [|exact Hk].
    now apply adv_trans with y. }
  destruct (negb (Nat.eqb min 0)); [now apply Hiter|].
  destruct greedy; unfold orElse in H.
  - match type of H with
    | match ?a with _ => _ end = _ => destruct a eqn:Ea
    end.
    + rewrite <- H in *. now apply Hiter.
    + exists x. split; [apply adv_refl | exact H].
  - destruct (k x) eqn:Ek.
    + exists x. split; [apply adv_refl|]. now rewrite Ek.
    + now apply Hiter.
Qed.

Lemma mt_forward r : forward (mt r).
Proof.
  induction r as [|p|r1 IH1 r2 IH2|r1 IH1 r2 IH2|min max greedy r1 IH|i r1 IH| |];
    intros x k z H; cbn [mt] in H.
  - exists x. split; [apply adv_refl | exact H].
  - destruct (rest x) as [|c s] eqn:Er; [discriminate|].
    destruct (p c); [|discriminate].
    eexists. split; [|exact H].
    exists 1%nat. cbn [pos rest]. rewrite Er. repeat split; [lia | simpl; lia].
  - apply IH1 in H as (y & Hxy & Hy). apply IH2 in Hy as (y' & Hyy' & Hk).
    exists y'. split; [now apply adv_trans with y | exact Hk].
  - unfold orElse in H. destruct (mt r1 x k) eqn:E1.
    + rewrite <- H in *. now apply IH1.
    + now apply IH2.
  - eapply repLoop_forward; [exact IH | exact H].
  - apply IH in H as (y & Hxy & Hy).
    eexists. split; [|exact Hy].
    destruct Hxy as (n & Hp & Hr & Hn). exists n. now repeat split.
  - destruct (Nat.eqb (pos x) 0); [|discriminate].
    exists x. split; [apply adv_refl | exact H].
  - destruct (rest x); [|discriminate].
    exists x. split; [apply adv_refl | exact H].
Qed.

Lemma mt_Seq_forward r1 r2 x k z :
  mt (Seq r1 r2) x k = Some z -> exists y, adv x y /\ mt r2 y k = Some z.
Proof. intro H. cbn [mt] in H. now apply mt_forward in H. Qed.

(** A match found from index [i] in the text [s] lies within it. *)
Lemma match_at_bounds r i s m :
  match_at r i s = Some m ->
  index m = i /\ (i <= endIndex m <= i + length s)%nat.
Proof.
  unfold match_at. intro H.
  destruct (mt r (MState i s []) Some) as [y|] eqn:E; [|discriminate].
  injection H as <-. cbn [index endIndex].
  apply mt_forward in E as (y' & (n & Hp & _ & Hn) & Hy).
  injection Hy as ->. cbn [pos rest] in *. lia.
Qed.

Lemma search_bounds r : forall s i m,
  search r i s = Some m ->
  (i <= index m)%nat /\ (index m <= endIndex m <= i + length s)%nat.
Proof.
  induction s as [|c s IH]; intros i m H; cbn [search] in H.
  - destruct (match_at r i []) eqn:E; [|discriminate].
    injection H as ->. apply match_at_bounds in E. lia.
  - destruct (match_at r i (c :: s)) eqn:E.
    + injection H as ->. apply match_at_bounds in E. lia.
    + apply IH in H. cbn [length]. lia.
Qed.

(** A literal word of a pattern matches only itself. *)
Lemma mt_literal w : forall x k z,
  mt (seqs (map lit1 w)) x k = Some z ->
  exists s', rest x = w ++ s'
             /\ k (MState (pos x + length w) s' (caps x)) = Some z.
Proof.
  induction w as [|c w IH]; intros x k z H.
  - cbn in H. exists (rest x). split; [reflexivity|].
    destruct x as [p r cs]. cbn in *. now rewrite Nat.add_0_r.
  - assert (Hc : exists s, rest x = c :: s
                 /\ mt (seqs (map lit1 w)) (MState (S (pos x)) s (caps x)) k = Some z).
    { destruct w as [|c2 w].
      - cbn in H. destruct (rest x) as [|c' s]; [discriminate|].
        destruct (N.eqb c c') eqn:Ec; [|discriminate].
        apply N.eqb_eq in Ec. subst c'. exists s. split; [reflexivity | exact H].
      - cbn [map seqs] in H. cbn [mt lit1] in H.
        destruct (rest x) as [|c' s]; [discriminate|].
        destruct (N.eqb c c') eqn:Ec; [|discriminate].
        apply N.eqb_eq in Ec. subst c'. exists s. split; [reflexivity | exact H]. }
    destruct Hc as (s & Hs & Hm). apply IH in Hm as (s' & Hs' & Hk).
    cbn [pos rest caps] in *. exists s'. split.
    + rewrite Hs, Hs'. reflexivity.
    + cbn [length]. now rewrite Nat.add_succ_r.
Qed.

Section Extraction.

Import ImportScreen.

Definition has_stream_pair (s : jsstring) : Prop :=
  exists a b c, s = a ++ str "stream" ++ b ++ str "endstream" ++ c.

Lemma adv_split x y :
  adv x y -> exists a, rest x = a ++ rest y /\ pos y = (pos x + length a)%nat.
Proof.
  intros (n & Hp & Hr & Hn). exists (firstn n (rest x)). split.
  - rewrite Hr. now rewrite firstn_skipn.
  - rewrite length_firstn. lia.
Qed.

Lemma re_stream_match x z :
  mt re_stream x Some = Some z ->
  has_stream_pair (rest x) /\ (pos x < pos z)%nat.
Proof.
  unfold re_stream. intro H.
  cbn [seqs] in H. cbn [mt] in H.
  apply mt_literal in H as (s1 & Hs1 & H).
  apply mt_forward in H as (y2 & A2 & H).
  apply mt_forward in H as (y3 & A3 & H).
  apply mt_forward in H as (y4 & A4 & H).
  apply mt_forward in H as (y5 & A5 & H).
  apply mt_forward in H as (y6 & A6 & H).
  apply mt_literal in H as (s7 & Hs7 & H). injection H as <-.
  assert (A : adv (MState (pos x + length (str "stream")) s1 (caps x)) y6).
  { eapply adv_trans; [exact A2|]. eapply adv_trans; [exact A3|].
    eapply adv_trans; [exact A4|]. eapply adv_trans; [exact A5 | exact A6]. }
  apply adv_split in A as (b & Hb & Hpos). cbn [rest pos] in *. split.
  - exists [], b, s7. rewrite Hs1, Hb, Hs7. reflexivity.
  - rewrite Hpos. cbn [length]. lia.
Qed.

Lemma re_stream_search : forall s i m,
  search re_stream i s = Some m ->
  has_stream_pair s /\ (index m < endIndex m)%nat.
Proof.
  induction s as [|c s IH]; intros i m H; cbn [search] in H.
  - unfold match_at in H.
    destruct (mt re_stream (MState i [] []) Some) as [y|] eqn:E; [|discriminate].
    apply re_stream_match in E as [Hp Hl]. injection H as <-.
    cbn [index endIndex rest pos] in *. now split.
  - unfold match_at in H.
    destruct (mt re_stream (MState i (c :: s) []) Some) as [y|] eqn:E.
    + apply re_stream_match in E as [Hp Hl]. injection H as <-.
      cbn [index endIndex rest pos] in *. now split.
    + apply IH in H as [(a & b & d & ->) Hl]. split; [|exact Hl].
      now exists (c :: a), b, d.
Qed.

Variable argumentLimit : nat.
Variable unzlibSync : list N -> option (list N).

Lemma mapM_finished {A B} (f : A -> outcome B) l :
  (forall a, f a <> Unfinished) -> mapM f l <> Unfinished.
Proof.
  intro Hf. induction l as [|a l IH]; [discriminate|].
  cbn [mapM]. specialize (Hf a). destruct (f a); cbn [bind];
    [|discriminate | contradiction].
  destruct (mapM f l); cbn [bind]; [discriminate | discriminate | contradiction].
Qed.

Lemma decodePdfHexString_finished hex :
  decodePdfHexString argumentLimit hex <> Unfinished.
Proof.
  unfold decodePdfHexString. cbv zeta.
  destruct (length (filter is_hex_digit hex) <? 2)%nat; [discriminate|].
  match goal with
  | |- context [hexPairs ?padded] => generalize (hexPairs padded)
  end.
  intro bytes.
  assert (Hf : fromCharCodes argumentLimit bytes <> Unfinished)
    by (unfold fromCharCodes; destruct (_ <=? _)%nat; discriminate).
  destruct bytes as [|b1 bytes]; [exact Hf|].
  destruct b1 as [|p1]; [exact Hf|].
  do 8 (try (destruct p1 as [p1|p1|]; try exact Hf)).
  destruct bytes as [|b2 bytes]; [exact Hf|].
  destruct b2 as [|p2]; [exact Hf|].
  do 8 (try (destruct p2 as [p2|p2|]; try exact Hf)).
  discriminate.
Qed.

Lemma streamTokens_finished binary streamMatch :
  streamTokens argumentLimit unzlibSync binary streamMatch <> Unfinished.
Proof.
  unfold streamTokens.
  destruct (if test re_flate _ then _ else _) as [decodedBytes|]; [|discriminate].
  match goal with
  | |- bind ?m _ <> _ => assert (H : m <> Unfinished)
  end.
  { apply mapM_finished. intro block. unfold blockTokens.
    match goal with
    | |- bind ?m _ <> _ => assert (H : m <> Unfinished)
    end.
    { apply mapM_finished. intro arrayMatch. unfold arrayTokens.
      match goal with
      | |- bind ?m _ <> _ => assert (H : m <> Unfinished)
      end.
      { apply mapM_finished. intro hexMatch. apply decodePdfHexString_finished. }
      destruct (mapM _ _); cbn [bind]; [discriminate | discriminate | contradiction]. }
    destruct (mapM _ _); cbn [bind]; [discriminate | discriminate | contradiction]. }
  destruct (mapM _ _); cbn [bind]; [discriminate | discriminate | contradiction].
Qed.

(** The loop over the regions ends within as many turns as there are
    bytes. *)
Lemma streamLoop_ends : forall fuel binary i s tokens,
  (length s <= fuel)%nat ->
  streamLoop argumentLimit unzlibSync fuel binary i s tokens <> Unfinished.
Proof.
  induction fuel as [|fuel IH]; intros binary i s tokens Hf.
  - cbn [streamLoop]. destruct (search re_stream i s) as [m|] eqn:E.
    + pose proof (search_bounds _ _ _ _ E). apply re_stream_search in E. lia.
    + discriminate.
  - cbn [streamLoop]. destruct (search re_stream i s) as [m|] eqn:E;
      [|discriminate].
    pose proof (streamTokens_finished binary m) as Hm.
    destruct (streamTokens argumentLimit unzlibSync binary m) as [found| |];
      cbn [bind]; [|discriminate | contradiction].
    apply IH. pose proof (search_bounds _ _ _ _ E).
    apply re_stream_search in E. rewrite length_skipn. lia.
Qed.

(** What holds of the token extractor on every byte sequence: it ends,
    with a token list or with an error, whatever the decompressor does;
    bytes without a [stream] marker followed by an [endstream] marker
    give the empty list; and a region whose header names the compression
    filter and whose decompression fails is passed over, the loop going
    on after it with the tokens gathered so far. *)
Lemma extractPdfTokens_regions :
  (forall pdfBytes fuel,
     (length pdfBytes <= fuel)%nat ->
     extractPdfTokens argumentLimit unzlibSync fuel pdfBytes <> Unfinished)
  /\ (forall pdfBytes fuel,
        ~ has_stream_pair pdfBytes ->
        extractPdfTokens argumentLimit unzlibSync fuel pdfBytes = Ret [])
  /\ (forall fuel binary i s tokens streamMatch,
        search re_stream i s = Some streamMatch ->
        test re_flate
          (firstn (index streamMatch - (index streamMatch - 500))
                  (skipn (index streamMatch - 500) binary)) = true ->
        unzlibSync (binaryToBytes (group_text streamMatch 1)) = None ->
        streamLoop argumentLimit unzlibSync (S fuel) binary i s tokens
        = streamLoop argumentLimit unzlibSync fuel binary (endIndex streamMatch)
            (skipn (endIndex streamMatch - i) s) tokens).
Proof.
  split; [|split].
  - intros pdfBytes fuel Hf. unfold extractPdfTokens, bytesToBinary.
    now apply streamLoop_ends.
  - intros pdfBytes fuel Hno. unfold extractPdfTokens, bytesToBinary.
    destruct fuel; cbn [streamLoop];
      (destruct (search re_stream 0 pdfBytes) as [m|] eqn:E; [|reflexivity]);
      apply re_stream_search in E as [Hp _]; contradiction.
  - intros fuel binary i s tokens m Hs Hflate Hfail.
    cbn [streamLoop]. rewrite Hs. unfold streamTokens.
    rewrite Hflate, Hfail. reflexivity.
Qed.

End Extraction.

(** ** A hexadecimal string too long for one call *)

Section LongHexString.

Import ImportScreen.

(** The matcher, step by step, on a text that is known in part. *)
Lemma eqb_succ_self n : Nat.eqb (S n) n = false.
Proof. apply Nat.eqb_neq. lia. Qed.

Lemma repLoop_step m fuel min max greedy x k :
  repLoop m (S fuel) min max greedy x k
  = if is_zero_max max then k x
    else
      let d := fun y =>
        if Nat.eqb min 0 && Nat.eqb (pos y) (pos x) then None
        else repLoop m fuel (Nat.pred min) (option_map Nat.pred max) greedy y k in
      if negb (Nat.eqb min 0) then m x d
      else if greedy then orElse (m x d) (k x)
      else orElse (k x) (m x d).
Proof. reflexivity. Qed.

Lemma mt_Char p i c s cs k :
  mt (Char p) (MState i (c :: s) cs) k
  = if p c then k (MState (S i) s cs) else None.
Proof. reflexivity. Qed.

(** A lazy [[\s\S]*?] passes over the characters at which what follows
    it in the pattern cannot start. *)
Lemma lazy_any_skip (k : mstate -> option mstate) (bad : N -> bool) :
  (forall c t p cs, bad c = true -> k (MState p (c :: t) cs) = None) ->
  forall pre s fuel p cs,
    forallb bad pre = true ->
    repLoop (mt (Char any_char)) (length pre + fuel) 0 None false
      (MState p (pre ++ s) cs) k
    = repLoop (mt (Char any_char)) fuel 0 None false
        (MState (length pre + p) s cs) k.
Proof.
  intros Hk pre. induction pre as [|c pre IH]; intros s fuel p cs Hpre.
  - reflexivity.
  - cbn [forallb] in Hpre. apply andb_prop in Hpre as [Hc Hpre].
    cbn [length Nat.add app]. rewrite repLoop_step.
    cbn [is_zero_max Nat.eqb negb andb pos].
    rewrite (Hk c (pre ++ s) p cs Hc). cbn [orElse]. rewrite mt_Char.
    cbn [any_char pos]. rewrite eqb_succ_self. cbn [Nat.pred option_map].
    rewrite IH by exact Hpre. now rewrite Nat.add_succ_r.
Qed.

Lemma lazy_stop m (k : mstate -> option mstate) fuel x z :
  k x = Some z -> repLoop m (S fuel) 0 None false x k = Some z.
Proof. intro H. rewrite repLoop_step. cbn [is_zero_max Nat.eqb negb]. now rewrite H. Qed.

(** A greedy quantifier on a character class takes the whole run of
    characters of the class when what follows it in the pattern matches
    after the run. *)
Lemma greedy_run (p : N -> bool) (k : mstate -> option mstate) :
  forall run s fuel min i cs z,
    forallb p run = true ->
    match s with c :: _ => p c = false | [] => True end ->
    (min <= length run)%nat ->
    k (MState (length run + i) s cs) = Some z ->
    repLoop (mt (Char p)) (S (length run + fuel)) min None true
      (MState i (run ++ s) cs) k = Some z.
Proof.
  induction run as [|c run IH]; intros s fuel min i cs z Hrun Hs Hmin Hk.
  - cbn [length] in Hmin. assert (min = 0)%nat as -> by lia.
    cbn [length Nat.add app]. rewrite repLoop_step.
    cbn [is_zero_max Nat.eqb negb].
    destruct s as [|c s]; [exact Hk|]. rewrite mt_Char, Hs. exact Hk.
  - cbn [forallb] in Hrun. apply andb_prop in Hrun as [Hc Hrun].
    cbn [length] in Hmin, Hk.
    cbn [length Nat.add app]. rewrite repLoop_step.
    cbn [is_zero_max]. cbv zeta. rewrite mt_Char, Hc. cbn [pos].
    rewrite eqb_succ_self, andb_false_r. cbn [option_map].
    rewrite (IH s fuel (Nat.pred min) (S i) cs z Hrun Hs ltac:(lia));
      [|now rewrite Nat.add_succ_r].
    destruct (negb (Nat.eqb min 0)); reflexivity.
Qed.

Lemma mt_Seq r1 r2 x k : mt (Seq r1 r2) x k = mt r1 x (fun y => mt r2 y k).
Proof. reflexivity. Qed.

Lemma mt_Group i r x k :
  mt (Group i r) x k
  = mt r x (fun y => k (MState (pos y) (rest y)
                          ((i, firstn (pos y - pos x) (rest x)) :: caps y))).
Proof. reflexivity. Qed.

Lemma mt_Rep min max greedy r x k :
  mt (Rep min max greedy r) x k
  = repLoop (mt r) (S (min + length (rest x))) min max greedy x k.
Proof. reflexivity. Qed.

(** A literal word matches where the text shows it. *)
Lemma mt_lit_app w : forall i s cs k,
  mt (seqs (map lit1 w)) (MState i (w ++ s) cs) k = k (MState (length w + i) s cs).
Proof.
  induction w as [|c w IH]; intros i s cs k; [reflexivity|].
  destruct w as [|c' w].
  - cbn [map seqs app length Nat.add]. unfold lit1. rewrite mt_Char.
    now rewrite N.eqb_refl.
  - change (seqs (map lit1 (c :: c' :: w)))
      with (Seq (lit1 c) (seqs (map lit1 (c' :: w)))).
    rewrite mt_Seq. cbn [app]. unfold lit1 at 1. rewrite mt_Char, N.eqb_refl.
    change (c' :: w ++ s) with ((c' :: w) ++ s). rewrite IH.
    cbn [length Nat.add]. now rewrite Nat.add_succ_r.
Qed.

(** An optional character that the text does not show is passed. *)
Lemma opt_miss p i c s cs k :
  p c = false ->
  mt (opt (Char p)) (MState i (c :: s) cs) k = k (MState i (c :: s) cs).
Proof.
  intro H. unfold opt. rewrite mt_Rep. cbn [Nat.add]. rewrite repLoop_step.
  cbn [is_zero_max Nat.eqb negb]. cbv zeta. rewrite mt_Char, H. reflexivity.
Qed.

Lemma match_at_found r i s y :
  mt r (MState i s []) Some = Some y ->
  search r i s = Some (RMatch i (pos y) (firstn (pos y - i) s) (caps y)).
Proof.
  intro H. assert (Hm : match_at r i s
                       = Some (RMatch i (pos y) (firstn (pos y - i) s) (caps y)))
    by (unfold match_at; now rewrite H).
  destruct s; cbn [search]; now rewrite Hm.
Qed.

Lemma firstn_added {A} (pre s : list A) i :
  firstn (length pre + i - i) (pre ++ s) = pre.
Proof.
  rewrite Nat.add_sub, firstn_app, Nat.sub_diag, firstn_all. cbn [firstn].
  apply app_nil_r.
Qed.

(** The digits of [n] bytes of value [0x41]. *)
Definition hexDigits (n : nat) : jsstring := concat (repeat (str "41") n).

Lemma hexDigits_forallb (p : N -> bool) n :
  p 52%N = true -> p 49%N = true -> forallb p (hexDigits n) = true.
Proof.
  intros H4 H1. induction n as [|n IH]; [reflexivity|].
  unfold hexDigits in *. cbn [repeat concat]. rewrite forallb_app, IH.
  cbn. now rewrite H4, H1.
Qed.

(** A text block that shows these digits as one hexadecimal string in a
    [TJ] array, and the bytes of a document that has this block as its
    one, uncompressed, content stream. *)
Definition hex_block (n : nat) : jsstring :=
  str "BT [<" ++ hexDigits n ++ str ">] TJ ET".

Definition hex_pdf (n : nat) : list N :=
  str "stream" ++ 10%N :: hex_block n ++ 10%N :: str "endstream".

Lemma content_forallb (p : N -> bool) n :
  forallb p (str "BT [<>] TJ ET") = true -> p 52%N = true -> p 49%N = true ->
  forallb p (hex_block n) = true.
Proof.
  intros Hc H4 H1. unfold hex_block. rewrite !forallb_app.
  rewrite hexDigits_forallb by assumption.
  change (str "BT [<>] TJ ET") with (str "BT [<" ++ str ">] TJ ET") in Hc.
  rewrite forallb_app in Hc. apply andb_prop in Hc as [-> ->]. reflexivity.
Qed.

Definition not_newline (c : N) : bool := negb (N.eqb 13 c) && negb (N.eqb 10 c).

Lemma re_stream_hex_pdf n :
  exists m, search re_stream 0 (hex_pdf n) = Some m
            /\ index m = 0%nat /\ group_text m 1 = hex_block n.
Proof.
  eexists. split; [apply match_at_found|].
  - unfold re_stream, hex_pdf. cbn [seqs].
    rewrite mt_Seq. unfold lit at 1. rewrite mt_lit_app.
    rewrite mt_Seq. unfold lit1 at 1. rewrite opt_miss by reflexivity.
    rewrite mt_Seq. unfold lit1 at 1. rewrite mt_Char, N.eqb_refl.
    rewrite mt_Seq, mt_Group. unfold lazy_star. rewrite mt_Rep. cbn [rest pos caps].
    replace (S (0 + length (hex_block n ++ 10%N :: str "endstream")))
      with (length (hex_block n) + S (length (10%N :: str "endstream")))
      by (rewrite length_app; lia).
    match goal with
    | |- repLoop _ _ _ _ _ _ ?k = _ =>
        rewrite (lazy_any_skip k not_newline)
    end.
    + apply lazy_stop. cbn [pos rest caps].
      rewrite mt_Seq. unfold lit1 at 1. rewrite opt_miss by reflexivity.
      rewrite mt_Seq. unfold lit1 at 1. rewrite mt_Char, N.eqb_refl.
      unfold lit. rewrite <- (app_nil_r (str "endstream")) at 2.
      rewrite mt_lit_app. reflexivity.
    + intros c t p cs Hc. unfold not_newline in Hc.
      apply andb_prop in Hc as [H13 H10].
      apply negb_true_iff in H13, H10. cbn [pos rest caps].
      rewrite mt_Seq. unfold lit1 at 1. rewrite opt_miss by exact H13.
      rewrite mt_Seq. unfold lit1 at 1. rewrite mt_Char. now rewrite H10.
    + apply content_forallb; reflexivity.
  - cbn [index]. split; [reflexivity|].
    unfold group_text, group. cbn [groups caps assoc_nat Nat.eqb pos].
    apply firstn_added.
Qed.

Lemma search_next r i c s :
  match_at r i (c :: s) = None -> search r i (c :: s) = search r (S i) s.
Proof. intro H. cbn [search]. now rewrite H. Qed.

Lemma matchAll_first r s m :
  search r 0 s = Some m -> exists others, matchAll r s = m :: others.
Proof.
  intro H. unfold matchAll. cbn [matchAll_from]. rewrite H. now eexists.
Qed.

Lemma mapM_first_throws {A B} (f : A -> outcome B) a l e :
  f a = Throw e -> mapM f (a :: l) = Throw e.
Proof. intro H. cbn [mapM]. now rewrite H. Qed.

Definition block_middle (n : nat) : jsstring :=
  str " [<" ++ hexDigits n ++ str ">] TJ ".

Lemma content_block n : hex_block n = str "BT" ++ block_middle n ++ str "ET".
Proof. unfold hex_block, block_middle. now rewrite <- !app_assoc. Qed.

Lemma re_textBlock_content n :
  exists m, search re_textBlock 0 (hex_block n) = Some m /\ matched m = hex_block n.
Proof.
  eexists. split; [apply match_at_found|].
  - rewrite content_block. unfold re_textBlock. cbn [seqs].
    rewrite mt_Seq. unfold lit at 1. rewrite mt_lit_app.
    rewrite mt_Seq. unfold lazy_star. rewrite mt_Rep. cbn [rest pos caps].
    replace (S (0 + length (block_middle n ++ str "ET")))
      with (length (block_middle n) + S (length (str "ET")))
      by (rewrite length_app; lia).
    match goal with
    | |- repLoop _ _ _ _ _ _ ?k = _ =>
        rewrite (lazy_any_skip k (fun c => negb (N.eqb 69 c)))
    end.
    + apply lazy_stop. unfold lit. rewrite <- (app_nil_r (str "ET")) at 2.
      rewrite mt_lit_app. reflexivity.
    + intros c t p cs Hc. apply negb_true_iff in Hc.
      unfold lit. change (map lit1 (str "ET")) with (lit1 69 :: map lit1 (str "T")).
      change (seqs (lit1 69 :: map lit1 (str "T")))
        with (Seq (lit1 69) (seqs (map lit1 (str "T")))).
      rewrite mt_Seq. unfold lit1 at 1. rewrite mt_Char. now rewrite Hc.
    + unfold block_middle. rewrite !forallb_app.
      rewrite hexDigits_forallb by reflexivity. reflexivity.
  - cbn [matched pos]. rewrite Nat.sub_0_r. apply firstn_all2.
    rewrite content_block, !length_app. cbn [length]. lia.
Qed.

Definition array_inner (n : nat) : jsstring := str "<" ++ hexDigits n ++ str ">".

Lemma content_array n :
  hex_block n = str "BT " ++ str "[" ++ array_inner n ++ str "] TJ ET".
Proof. unfold hex_block, array_inner. now rewrite <- !app_assoc. Qed.

Lemma re_array_content n :
  exists m, search re_array 0 (hex_block n) = Some m
            /\ group_text m 1 = array_inner n.
Proof.
  eexists. split.
  - rewrite content_array.
    change (str "BT " ++ str "[" ++ array_inner n ++ str "] TJ ET")
      with (66%N :: 84%N :: 32%N :: str "[" ++ array_inner n ++ str "] TJ ET").
    do 3 (rewrite search_next by reflexivity).
    apply match_at_found.
    unfold re_array. cbn [seqs].
    rewrite mt_Seq. unfold lit at 1. rewrite mt_lit_app.
    rewrite mt_Seq, mt_Group. unfold lazy_star. rewrite mt_Rep. cbn [rest pos caps].
    replace (S (0 + length (array_inner n ++ str "] TJ ET")))
      with (length (array_inner n) + S (length (str "] TJ ET")))
      by (rewrite length_app; lia).
    match goal with
    | |- repLoop _ _ _ _ _ _ ?k = _ =>
        rewrite (lazy_any_skip k (fun c => negb (N.eqb 93 c)))
    end.
    + apply lazy_stop. cbn [pos rest caps].
      rewrite mt_Seq. unfold lit at 1.
      change (str "] TJ ET") with (str "]" ++ str " " ++ str "TJ ET").
      rewrite mt_lit_app.
      rewrite mt_Seq. unfold star. rewrite mt_Rep. cbn [rest].
      change (S (0 + length (str " " ++ str "TJ ET")))
        with (S (length (str " ") + 5)).
      apply greedy_run; [reflexivity | reflexivity | apply Nat.le_0_l |].
      unfold lit. change (str "TJ ET") with (str "TJ" ++ str " ET").
      rewrite mt_lit_app. reflexivity.
    + intros c t p cs Hc. apply negb_true_iff in Hc. cbn [pos rest caps].
      rewrite mt_Seq. unfold lit at 1.
      change (seqs (map lit1 (str "]"))) with (lit1 93).
      unfold lit1 at 1. rewrite mt_Char. now rewrite Hc.
    + unfold array_inner. rewrite !forallb_app.
      rewrite hexDigits_forallb by reflexivity. reflexivity.
  - unfold group_text, group. cbn [groups caps assoc_nat Nat.eqb pos].
    apply firstn_added.
Qed.

Lemma hexDigits_length n : length (hexDigits n) = (2 * n)%nat.
Proof.
  induction n as [|n IH]; [reflexivity|].
  unfold hexDigits in *. cbn [repeat concat]. rewrite length_app, IH. cbn. lia.
Qed.

Lemma re_hex_inner n :
  (0 < n)%nat ->
  exists m, search re_hex 0 (array_inner n) = Some m
            /\ group_text m 1 = hexDigits n.
Proof.
  intro Hn. eexists. split; [apply match_at_found|].
  - unfold re_hex, array_inner. cbn [seqs].
    rewrite mt_Seq. unfold lit at 1. rewrite mt_lit_app.
    rewrite mt_Seq, mt_Group. unfold plus. rewrite mt_Rep. cbn [rest pos caps].
    replace (S (1 + length (hexDigits n ++ str ">")))
      with (S (length (hexDigits n) + 2))
      by (rewrite length_app; cbn [length str map list_ascii_of_string]; lia).
    apply greedy_run.
    + apply hexDigits_forallb; reflexivity.
    + reflexivity.
    + rewrite hexDigits_length. lia.
    + cbn [pos rest caps]. unfold lit. rewrite <- (app_nil_r (str ">")) at 2.
      rewrite mt_lit_app. reflexivity.
  - unfold group_text, group. cbn [groups caps assoc_nat Nat.eqb pos].
    apply firstn_added.
Qed.

Lemma hexDigits_digits n : filter is_hex_digit (hexDigits n) = hexDigits n.
Proof.
  induction n as [|n IH]; [reflexivity|].
  unfold hexDigits in *. cbn [repeat concat]. rewrite filter_app, IH. reflexivity.
Qed.

Lemma hexDigits_bytes n : hexPairs (hexDigits n) = repeat 65%N n.
Proof.
  induction n as [|n IH]; [reflexivity|].
  unfold hexDigits in *. cbn [repeat concat]. 
  change (str "41" ++ concat (repeat (str "41") n))
    with (52%N :: 49%N :: concat (repeat (str "41") n)).
  cbn [hexPairs]. now rewrite IH.
Qed.

(** The hexadecimal text of more bytes than the engine accepts as
    arguments is not decoded. *)
Lemma decodePdfHexString_overflows argumentLimit n :
  (argumentLimit < n)%nat ->
  decodePdfHexString argumentLimit (hexDigits n) = Throw RangeError.
Proof.
  intro Hn. unfold decodePdfHexString.
  rewrite hexDigits_digits, hexDigits_length.
  replace (2 * n <? 2)%nat with false by (symmetry; apply Nat.ltb_ge; lia).
  replace (Nat.even (2 * n)) with true
    by (symmetry; apply Nat.even_spec; now exists n).
  rewrite hexDigits_bytes. unfold fromCharCodes. rewrite repeat_length.
  replace (n <=? argumentLimit)%nat with false by (symmetry; apply Nat.leb_gt; lia).
  destruct n as [|[|n]]; reflexivity.
Qed.

Lemma content_bytes n : binaryToBytes (hex_block n) = hex_block n.
Proof.
  unfold binaryToBytes, hex_block. rewrite !map_app. f_equal. f_equal.
  induction n as [|n IH]; [reflexivity|].
  unfold hexDigits in *. cbn [repeat concat]. rewrite map_app, IH. reflexivity.
Qed.

(** The extractor on a document whose hex_block stream shows, in one [TJ]
    array, the hexadecimal text of more bytes than the engine accepts as
    arguments of a call: the [RangeError] of the conversion leaves
    [extractPdfTokens]. *)
Lemma extractPdfTokens_overflows argumentLimit unzlibSync fuel n :
  (argumentLimit < n)%nat ->
  extractPdfTokens argumentLimit unzlibSync (S fuel) (hex_pdf n) = Throw RangeError.
Proof.
  intro Hn. unfold extractPdfTokens, bytesToBinary. cbn [streamLoop].
  destruct (re_stream_hex_pdf n) as (m1 & -> & Hi1 & Hg1).
  assert (Hs : streamTokens argumentLimit unzlibSync (hex_pdf n) m1 = Throw RangeError).
  { unfold streamTokens. rewrite Hi1, Hg1. cbn [Nat.sub firstn].
    change (test re_flate []) with false. cbv iota. unfold bytesToBinary.
    rewrite content_bytes.
    destruct (re_textBlock_content n) as (m2 & H2 & Hm2).
    destruct (matchAll_first _ _ _ H2) as (others2 & ->).
    cbn [map]. rewrite Hm2.
    rewrite (mapM_first_throws _ _ _ RangeError); [reflexivity|].
    unfold blockTokens.
    destruct (re_array_content n) as (m3 & H3 & Hg3).
    destruct (matchAll_first _ _ _ H3) as (others3 & ->).
    rewrite (mapM_first_throws _ _ _ RangeError); [reflexivity|].
    unfold arrayTokens. rewrite Hg3.
    destruct (re_hex_inner n ltac:(lia)) as (m4 & H4 & Hg4).
    destruct (matchAll_first _ _ _ H4) as (others4 & ->).
    rewrite (mapM_first_throws _ _ _ RangeError); [reflexivity|].
    rewrite Hg4. now apply decodePdfHexString_overflows. }
  now rewrite Hs.
Qed.

(** C7.  The token extractor throws on some byte sequences.  On the
    document [hex_pdf n], whose hex_block stream shows in one [TJ] array
    the hexadecimal text of [n] bytes, the decoder hands the bytes to
    [String.fromCharCode] as the arguments of one call, and as soon as
    [n] exceeds the number of arguments that the engine accepts the
    [RangeError] of that call leaves [extractPdfTokens], which catches
    the failures of the decompressor only.  With few bytes the same
    document gives its token. *)
Theorem extractPdfTokens_hex_overflows :
  (forall argumentLimit unzlibSync fuel extra,
     extractPdfTokens argumentLimit unzlibSync (S fuel)
       (hex_pdf (S (argumentLimit + extra))) = Throw RangeError)
  /\ extractPdfTokens argument_limit never_inflates 1 (hex_pdf 3) = Ret [str "AAA"].
Proof.
  split.
  - intros argumentLimit unzlibSync fuel extra.
    apply extractPdfTokens_overflows. lia.
  - vm_compute. reflexivity.
Qed.

End LongHexString.

(** ** Symbolic runs of the matcher *)

(** A test on a character known to lie in a finite class is settled by
    trying the members of the class. *)
Lemma forall_in (l : list N) (P : N -> bool) :
  forallb P l = true -> forall c, In c l -> P c = true.
Proof. intros H c Hc. rewrite forallb_forall in H. now apply H. Qed.

Ltac settle_with b c l H v :=
  let P := eval pattern c in b in
  match P with
  | ?f c =>
      let E := fresh "E" in
      assert (E : b = v)
        by (apply Bool.eqb_prop; change ((fun x => Bool.eqb (f x) v) c = true);
            apply (forall_in l); [vm_compute; reflexivity | exact H]);
      rewrite E; clear E
  end.

(** A test is a leaf when no conditional occurs inside it. *)
Ltac is_leaf b :=
  lazymatch b with
  | context [if _ then _ else _] => fail
  | context [match _ with Some _ => _ | None => _ end] => fail
  | _ => idtac
  end.

Ltac settle_test :=
  match goal with
  | |- context [if ?b then _ else _] =>
      is_leaf b;
      match b with
      | context [?c] =>
          is_var c;
          match goal with
          | H : In c ?l |- _ =>
              first [settle_with b c l H true | settle_with b c l H false]
          end
      end
  end.

Lemma forall_in2 (l1 l2 : list N) (P : N -> N -> bool) :
  forallb (fun x => forallb (P x) l2) l1 = true ->
  forall c1 c2, In c1 l1 -> In c2 l2 -> P c1 c2 = true.
Proof.
  intros H c1 c2 H1 H2.
  apply (forall_in l1 (fun x => forallb (P x) l2)) with (c := c1) in H; [|exact H1].
  now apply (forall_in l2 (P c1)).
Qed.

Ltac settle_with2 b c1 l1 H1 c2 l2 H2 v :=
  let P := eval pattern c1, c2 in b in
  match P with
  | ?f c1 c2 =>
      let E := fresh "E" in
      assert (E : b = v)
        by (apply Bool.eqb_prop;
            change ((fun x y => Bool.eqb (f x y) v) c1 c2 = true);
            apply (forall_in2 l1 l2); [vm_compute; reflexivity | exact H1 | exact H2]);
      rewrite E; clear E
  end.

Ltac settle_test2 :=
  match goal with
  | |- context [if ?b then _ else _] =>
      is_leaf b;
      match b with
      | context [?c1] =>
          is_var c1;
          match goal with
          | H1 : In c1 ?l1 |- _ =>
              match b with
              | context [?c2] =>
                  is_var c2; tryif constr_eq c1 c2 then fail else idtac;
                  match goal with
                  | H2 : In c2 ?l2 |- _ =>
                      first [settle_with2 b c1 l1 H1 c2 l2 H2 true
                            | settle_with2 b c1 l1 H1 c2 l2 H2 false]
                  end
              end
          end
      end
  end.

Ltac settle_closed :=
  match goal with
  | |- context [if ?b then _ else _] =>
      is_leaf b;
      let v := eval vm_compute in b in
      match v with
      | true => change b with true
      | false => change b with false
      end
  end.

Ltac norm_chars :=
  repeat match goal with
         | |- context [N_of_ascii ?c] =>
             let v := eval vm_compute in (N_of_ascii c) in
             change (N_of_ascii c) with v
         | H : context [N_of_ascii ?c] |- _ =>
             let v := eval vm_compute in (N_of_ascii c) in
             change (N_of_ascii c) with v in H
         end.

Ltac count_S a b :=
  match a with
  | b => constr:(0%nat)
  | S ?a' => let n := count_S a' b in constr:(S n)
  end.

Ltac settle_nat :=
  match goal with
  | |- context [Nat.eqb ?a ?b] =>
      first [ replace (Nat.eqb a b) with false by (symmetry; apply Nat.eqb_neq; lia)
            | replace (Nat.eqb a b) with true by (symmetry; apply Nat.eqb_eq; lia) ]
  | |- context [firstn (?a - ?b) _] =>
      let n := count_S a b in
      replace (a - b)%nat with n by lia
  end.

Ltac run_matcher :=
  repeat (unfold match_at, exec, test;
          cbn [seqs map str list_ascii_of_string mt repLoop rest pos caps
               is_zero_max length Nat.add Nat.sub Nat.eqb Nat.pred option_map negb andb
               orb orElse search match_at exec test lit lit1 ci ci1 one_of one_of_ci
               none_of times opt star plus lazy_star index endIndex matched groups
               group group_text assoc_nat firstn skipn trim trimStart trimEnd rev app
               filter hd tl split_on];
          try first [settle_closed | settle_test | settle_test2]).

(** A greedy unbounded quantifier over a character class takes the whole
    run of characters of the class, when the continuation accepts the
    state after the run. *)
Lemma mt_Char_cons p i c s cs k :
  mt (Char p) (MState i (c :: s) cs) k
  = if p c then k (MState (S i) s cs) else None.
Proof. reflexivity. Qed.

Lemma repLoop_run p run : forall fuel min i tail cs k z,
  Forall (fun c => p c = true) run ->
  match tail with [] => True | c :: _ => p c = false end ->
  (min <= length run)%nat -> (length run < fuel)%nat ->
  k (MState (i + length run) tail cs) = Some z ->
  repLoop (mt (Char p)) fuel min None true (MState i (run ++ tail) cs) k = Some z.
Proof.
  induction run as [|c run IH]; intros fuel min i tail cs k z Hrun Htail Hmin Hfuel Hk.
  - destruct fuel as [|fuel]; [cbn in Hfuel; lia|].
    cbn [length] in Hmin. assert (min = 0%nat) by lia. subst min.
    cbn [repLoop is_zero_max Nat.eqb negb app].
    replace (i + length (@nil N))%nat with i in Hk by (cbn; lia).
    destruct tail as [|c tail]; [cbn [mt rest orElse]; exact Hk|].
    rewrite mt_Char_cons, Htail. cbn [orElse]. exact Hk.
  - destruct fuel as [|fuel]; [cbn in Hfuel; lia|].
    inversion Hrun as [|? ? Hc Hrest]; subst.
    assert (Hnext :
      repLoop (mt (Char p)) fuel (Nat.pred min) None true
        (MState (S i) (run ++ tail) cs) k = Some z).
    { apply IH; try assumption.
      - cbn [length] in Hmin. lia.
      - cbn [length] in Hfuel. lia.
      - cbn [length] in Hk. now rewrite Nat.add_succ_comm. }
    cbn [repLoop is_zero_max app option_map]. rewrite !mt_Char_cons, Hc.
    cbn [pos].
    replace (Nat.eqb (S i) i) with false by (symmetry; apply Nat.eqb_neq; lia).
    rewrite andb_false_r.
    destruct (negb (Nat.eqb min 0)); [exact Hnext|].
    rewrite Hnext. reflexivity.
Qed.

Lemma mt_run p run min i tail cs k z :
  Forall (fun c => p c = true) run ->
  match tail with [] => True | c :: _ => p c = false end ->
  (min <= length run)%nat ->
  k (MState (i + length run) tail cs) = Some z ->
  mt (Rep min None true (Char p)) (MState i (run ++ tail) cs) k = Some z.
Proof.
  intros Hrun Htail Hmin Hk. cbn [mt rest].
  apply repLoop_run; try assumption.
  rewrite length_app. lia.
Qed.

Section Slots.
Import ImportScreen.

Definition a_chars : list N := [65; 97]%N.
Definition p_chars : list N := [80; 112]%N.
Definition m_chars : list N := [77; 109]%N.
Definition dash_chars : list N := [45; 8211]%N.

(** The outer pattern of a slot marker: [S-], the slot number, and the
    text between the brackets as group 1. *)
Lemma slot_marker_inner s n inner :
  In s [83; 115]%N ->
  n <> [] -> Forall (fun c => is_digit c = true) n ->
  inner <> [] -> Forall (fun c => negb (existsb (N.eqb c) (str ")")) = true) inner ->
  exists m, exec re_slot (s :: str "-" ++ n ++ str "(" ++ inner ++ str ")") = Some m
            /\ group_text m 1 = inner.
Proof.
  intros Hs Hn Hdig Hi Hin.
  assert (Hmt : mt re_slot
            (MState 0 (s :: str "-" ++ n ++ str "(" ++ inner ++ str ")") []) Some
          = Some (MState (2 + length n + 1 + length inner + 1) [] [(1, inner)])).
  { unfold re_slot. cbn [seqs]. cbn [mt rest pos caps ci1].
    change (s :: str "-" ++ n ++ str "(" ++ inner ++ str ")")
      with (s :: 45%N :: n ++ 40%N :: inner ++ [41%N]).
    replace (ci_char (chr "S") s) with true
      by (symmetry; apply (forall_in [83; 115]%N); [reflexivity | exact Hs]).
    cbn [lit str list_ascii_of_string map seqs lit1 mt rest pos caps].
    change (N_of_ascii "-" =? 45)%N with true. cbv iota.
    apply mt_run with (run := n) (tail := 40%N :: inner ++ [41%N]);
      [exact Hdig | reflexivity | destruct n; [contradiction | cbn; lia] |].
    cbn [mt rest repLoop length Nat.add is_zero_max Nat.eqb negb pos caps].
    change (is_space 40) with false. cbn [orElse].
    change (N_of_ascii "(" =? 40)%N with true. cbv iota.
    unfold none_of.
    apply mt_run with (run := inner) (tail := [41%N]);
      [exact Hin | reflexivity | destruct inner; [contradiction | cbn; lia] |].
    cbn [pos rest caps].
    change (N_of_ascii ")" =? 41)%N with true. cbv iota.
    replace (S (S (S (length n))) + length inner - S (S (S (length n))))%nat
      with (length inner) by lia.
    rewrite firstn_app, Nat.sub_diag, firstn_all. cbn [firstn]. rewrite app_nil_r.
    f_equal. f_equal. lia. }
  unfold exec. cbn [search]. unfold match_at. rewrite Hmt.
  eexists. split; reflexivity.
Qed.

(** *** Clock texts *)

(** An explicit marker after a clock time: its meridiem and its two
    letters, in either case. *)
Inductive marker :=
| Unmarked
| Marked (m : meridiem) (x y : N).

Definition marker_text (k : marker) : jsstring :=
  match k with
  | Unmarked => []
  | Marked _ x y => [x; y]
  end.

Definition marker_ok (k : marker) : Prop :=
  match k with
  | Unmarked => True
  | Marked AM x y => In x a_chars /\ In y m_chars
  | Marked PM x y => In x p_chars /\ In y m_chars
  end.

(** The meridiem that applies to an endpoint: its own marker, else the
    fallback. *)
Definition applied (k : marker) (fallback : meridiem) : meridiem :=
  match k with
  | Unmarked => fallback
  | Marked m _ _ => m
  end.

Definition hour_ok (h : jsstring) : Prop :=
  Forall (fun c => is_digit c = true) h /\ (length h = 1 \/ length h = 2)%nat.

Definition minute_ok (m : jsstring) : Prop :=
  Forall (fun c => is_digit c = true) m /\ length m = 2%nat.

Definition clock (h m : jsstring) (k : marker) : jsstring :=
  h ++ str ":" ++ m ++ marker_text k.

Definition to24 (h : Z) (m : meridiem) : Z :=
  match m with
  | AM => if (h =? 12)%Z then 0 else h
  | PM => if (h <? 12)%Z then h + 12 else h
  end.

(** The 24-hour text of hour digits [h] and minute digits [m] read under
    meridiem [mer]. *)
Definition render (h m : jsstring) (mer : meridiem) : jsstring :=
  padStart2 (string_of_Z (to24 (digits_val h) mer)) ++ str ":"
  ++ padStart2 (string_of_Z (digits_val m)).

Lemma parseInt_one a :
  In a digit_chars -> parseInt [a] 10 = Some (digits_val [a]).
Proof.
  intro Ha.
  pose proof (forall_in digit_chars
                (fun a => opt_is (parseInt [a] 10) (digits_val [a]))
                ltac:(vm_compute; reflexivity) a Ha) as H.
  cbv beta in H. unfold opt_is in H.
  destruct (parseInt [a] 10); [|discriminate]. apply Z.eqb_eq in H. now subst.
Qed.

Lemma parseInt_two a b :
  In a digit_chars -> In b digit_chars ->
  parseInt [a; b] 10 = Some (digits_val [a; b]).
Proof.
  intros Ha Hb.
  pose proof (forall_in2 digit_chars digit_chars
                (fun a b => opt_is (parseInt [a; b] 10) (digits_val [a; b]))
                ltac:(vm_compute; reflexivity) a b Ha Hb) as H.
  cbv beta in H. unfold opt_is in H.
  destruct (parseInt [a; b] 10); [|discriminate]. apply Z.eqb_eq in H. now subst.
Qed.

(** Case analysis on the shape of an hour, a minute and a marker. *)
Ltac shape_hour H :=
  let Hd := fresh "Hd" in let Hl := fresh "Hl" in
  destruct H as [Hd Hl];
  match type of Hd with
  | Forall _ ?h =>
      destruct h as [|?a [|?b [|? ?]]]; cbn [length] in Hl;
      try (exfalso; lia);
      repeat match goal with
             | F : Forall _ (_ :: _) |- _ =>
                 let F1 := fresh "D" in let F2 := fresh "F" in
                 inversion F as [|? ? F1 F2]; subst; clear F;
                 apply is_digit_In in F1
             | F : Forall _ [] |- _ => clear F
             end; clear Hl
  end.

Ltac shape_minute H :=
  let Hd := fresh "Hd" in let Hl := fresh "Hl" in
  destruct H as [Hd Hl];
  match type of Hd with
  | Forall _ ?m =>
      destruct m as [|?c [|?d [|? ?]]]; cbn [length] in Hl;
      try (exfalso; lia); try discriminate Hl;
      repeat match goal with
             | F : Forall _ (_ :: _) |- _ =>
                 let F1 := fresh "D" in let F2 := fresh "F" in
                 inversion F as [|? ? F1 F2]; subst; clear F;
                 apply is_digit_In in F1
             | F : Forall _ [] |- _ => clear F
             end; clear Hl
  end.

Ltac shape_marker k H :=
  destruct k as [|[|] ?x ?y]; cbn [marker_ok] in H;
  [clear H | destruct H as [? ?] | destruct H as [? ?]].

Lemma normalizeTime_clock h m k fallback :
  hour_ok h -> minute_ok m -> marker_ok k ->
  normalizeTime (clock h m k) fallback = render h m (applied k fallback).
Proof.
  intros Hh Hm Hk.
  shape_hour Hh; shape_minute Hm; shape_marker k Hk; destruct fallback;
    unfold normalizeTime, re_time, clock, render, applied, to24;
    cbn [marker_text meridiem_text];
    run_matcher;
    rewrite ?parseInt_one, ?parseInt_two by assumption;
    cbn [option_map text_or_NaN]; run_matcher;
    reflexivity.
Qed.

Ltac run_clock :=
  repeat (cbn [seqs map str list_ascii_of_string mt repLoop rest pos caps
               is_zero_max length Nat.add Nat.pred option_map negb andb
               orb orElse lit lit1 ci ci1 one_of one_of_ci firstn
               none_of times opt star plus lazy_star app];
          try first [settle_closed | settle_test | settle_test2 | settle_nat]).

Lemma orElse_Some {A} (a b : option A) z : a = Some z -> orElse a b = Some z.
Proof. now intros ->. Qed.

Definition tail_ok (tail : jsstring) : Prop :=
  match tail with
  | [] => True
  | c :: _ => In c dash_chars
  end.

(** The pattern of a clock text, as group [g], takes the whole clock
    text when the continuation accepts what follows. *)
Lemma clock_match g h m k tail i cs K z :
  hour_ok h -> minute_ok m -> marker_ok k -> tail_ok tail ->
  K (MState (length (clock h m k) + i) tail ((g, clock h m k) :: cs)) = Some z ->
  mt (Group g re_clock) (MState i (clock h m k ++ tail) cs) K = Some z.
Proof.
  intros Hh Hm Hk Htail HK.
  shape_hour Hh; shape_minute Hm; shape_marker k Hk;
    (destruct tail as [|t tail]; [clear Htail | cbn [tail_ok] in Htail]);
    unfold clock, re_clock in *;
    cbn [marker_text app str list_ascii_of_string map length Nat.add] in *;
    run_clock; repeat apply orElse_Some; exact HK.
Qed.

Lemma mt_Seq_eq r1 r2 x k : mt (Seq r1 r2) x k = mt r1 x (fun y => mt r2 y k).
Proof. reflexivity. Qed.

Lemma search_hit r i s m : match_at r i s = Some m -> search r i s = Some m.
Proof. intro H. destruct s; cbn [search]; now rewrite H. Qed.

Lemma clock_first h m k :
  hour_ok h -> exists a rest', clock h m k = a :: rest' /\ In a digit_chars.
Proof.
  intro Hh. shape_hour Hh; unfold clock; cbn [app]; eexists; eexists; split;
    try reflexivity; assumption.
Qed.

Lemma clock_match_end g h m k i cs K z :
  hour_ok h -> minute_ok m -> marker_ok k ->
  K (MState (length (clock h m k) + i) [] ((g, clock h m k) :: cs)) = Some z ->
  mt (Group g re_clock) (MState i (clock h m k) cs) K = Some z.
Proof.
  intros Hh Hm Hk HK.
  pose proof (clock_match g h m k [] i cs K z Hh Hm Hk I HK) as H.
  now rewrite app_nil_r in H.
Qed.

Lemma digit_not_space c : In c digit_chars -> is_space c = false.
Proof.
  intro H. apply negb_true_iff.
  now apply (forall_in digit_chars (fun c => negb (is_space c))).
Qed.

Lemma dash_not_space c : In c dash_chars -> is_space c = false.
Proof.
  intro H. apply negb_true_iff.
  now apply (forall_in dash_chars (fun c => negb (is_space c))).
Qed.

Lemma dash_is_dash c :
  In c dash_chars -> (c =? chr "-")%N || (c =? 8211)%N = true.
Proof.
  intro H.
  now apply (forall_in dash_chars (fun c => (c =? chr "-")%N || (c =? 8211)%N)).
Qed.

(** The two clock texts of a range are its groups 1 and 2. *)
Lemma range_groups hs ms ss he me se dash :
  hour_ok hs -> minute_ok ms -> marker_ok ss ->
  hour_ok he -> minute_ok me -> marker_ok se -> In dash dash_chars ->
  exists rangeMatch,
    exec re_range (clock hs ms ss ++ dash :: clock he me se) = Some rangeMatch
    /\ group_text rangeMatch 1 = clock hs ms ss
    /\ group_text rangeMatch 2 = clock he me se.
Proof.
  intros Hhs Hms Hss Hhe Hme Hse Hdash.
  assert (Hmt : mt re_range
                  (MState 0 (clock hs ms ss ++ dash :: clock he me se) []) Some
                = Some (MState (length (clock he me se)
                                + (S (length (clock hs ms ss) + 0 + 0) + 0)) []
                          [(2, clock he me se); (1, clock hs ms ss)])).
  { unfold re_range. cbn [seqs]. rewrite mt_Seq_eq.
    apply clock_match; try assumption.
    - rewrite mt_Seq_eq. unfold star.
      apply (mt_run is_space [] 0 _ (dash :: clock he me se)).
      + constructor.
      + now apply dash_not_space.
      + cbn [length]. lia.
      + cbn [length]. rewrite mt_Seq_eq, mt_Char_cons, (dash_is_dash dash Hdash).
        rewrite mt_Seq_eq.
        apply (mt_run is_space [] 0 _ (clock he me se)).
        * constructor.
        * destruct (clock_first he me se Hhe) as (a & rest' & Hce & Ha).
          rewrite Hce. now apply digit_not_space.
        * cbn [length]. lia.
        * cbn [length].
          first [ apply clock_match_end; try assumption; reflexivity
                | rewrite mt_Seq_eq; apply clock_match_end; try assumption; reflexivity ]. }
  eexists. split.
  - apply search_hit. unfold match_at. rewrite Hmt. reflexivity.
  - split; reflexivity.
Qed.
(** The marker an end time carries, as the two tests of the source
    find it. *)
Definition end_marker (k : marker) : option meridiem :=
  match k with
  | Unmarked => None
  | Marked m _ _ => Some m
  end.

Lemma end_marker_tests h m k :
  hour_ok h -> minute_ok m -> marker_ok k ->
  (if test re_PM_end (clock h m k) then Some PM
   else if test re_AM_end (clock h m k) then Some AM else None)
  = end_marker k.
Proof.
  intros Hh Hm Hk.
  shape_hour Hh; shape_minute Hm; shape_marker k Hk;
    unfold clock, re_PM_end, re_AM_end;
    cbn [marker_text end_marker];
    run_matcher; reflexivity.
Qed.

Lemma start_hour h m k :
  hour_ok h -> minute_ok m -> marker_ok k ->
  parseInt (hd [] (split_on (chr ":") (clock h m k))) 10 = Some (digits_val h).
Proof.
  intros Hh Hm Hk.
  shape_hour Hh; unfold clock; run_matcher;
    first [now apply parseInt_one | now apply parseInt_two].
Qed.
(** No character of a clock text closes the bracket of a slot marker. *)
Definition not_bracket (c : N) : bool := negb (existsb (N.eqb c) (str ")")).

Ltac settle_class :=
  match goal with
  | |- not_bracket ?c = true =>
      first [ is_var c;
              match goal with
              | H : In c ?l |- _ =>
                  apply (forall_in l not_bracket); [vm_compute; reflexivity | exact H]
              end
            | vm_compute; reflexivity ]
  end.

Lemma clock_no_bracket h m k :
  hour_ok h -> minute_ok m -> marker_ok k ->
  Forall (fun c => not_bracket c = true) (clock h m k).
Proof.
  intros Hh Hm Hk.
  shape_hour Hh; shape_minute Hm; shape_marker k Hk;
    unfold clock; cbn [app marker_text str list_ascii_of_string map];
    repeat (constructor; [settle_class|]); constructor.
Qed.

Lemma range_no_bracket inner hs ms ss he me se dash :
  hour_ok hs -> minute_ok ms -> marker_ok ss ->
  hour_ok he -> minute_ok me -> marker_ok se -> In dash dash_chars ->
  filter (fun c => negb (is_space c)) inner
  = clock hs ms ss ++ dash :: clock he me se ->
  Forall (fun c => not_bracket c = true) inner.
Proof.
  intros Hhs Hms Hss Hhe Hme Hse Hdash Hf.
  apply Forall_forall. intros c Hc.
  destruct (N.eqb_spec c 41) as [->|Hne].
  - exfalso.
    assert (H : In 41%N (filter (fun c => negb (is_space c)) inner))
      by (apply filter_In; split; [exact Hc | reflexivity]).
    rewrite Hf in H. apply in_app_or in H.
    pose proof (clock_no_bracket hs ms ss Hhs Hms Hss) as Hs.
    pose proof (clock_no_bracket he me se Hhe Hme Hse) as He.
    rewrite Forall_forall in Hs, He.
    destruct H as [H|[H|H]].
    + apply Hs in H. discriminate H.
    + subst dash. destruct Hdash as [E|[E|[]]]; discriminate E.
    + apply He in H. discriminate H.
  - unfold not_bracket. cbn [str list_ascii_of_string map existsb].
    apply N.eqb_neq in Hne. change (N_of_ascii ")") with 41%N.
    now rewrite Hne.
Qed.

(** The fallback meridiem of a range, in the words of the claim: the
    marker of the end time when it has one, else AM when the start hour
    is at least 8 and PM otherwise. *)
Definition fallback_of (hs : jsstring) (se : marker) : meridiem :=
  match se with
  | Marked m _ _ => m
  | Unmarked => if (8 <=? digits_val hs)%Z then AM else PM
  end.

(** C10. A slot token [S-n(start-end)], whose two endpoints are clock
    texts (one or two hour digits, a colon, two minute digits and an
    optional AM/PM marker in either case) around a hyphen or an en dash,
    with any white space between the brackets, is read as the pair of
    24-hour texts of its endpoints, each under its own marker when it has
    one and under the fallback otherwise; the fallback is the marker of
    the end time when it has one, else AM when the start hour is at
    least 8 and PM otherwise. *)
Theorem parseSlotRange_fallback s n inner hs ms ss he me se dash :
  In s [83; 115]%N ->
  n <> [] -> Forall (fun c => is_digit c = true) n ->
  hour_ok hs -> minute_ok ms -> marker_ok ss ->
  hour_ok he -> minute_ok me -> marker_ok se -> In dash dash_chars ->
  filter (fun c => negb (is_space c)) inner
  = clock hs ms ss ++ dash :: clock he me se ->
  parseSlotRange (s :: str "-" ++ n ++ str "(" ++ inner ++ str ")")
  = Some (render hs ms (applied ss (fallback_of hs se)),
          render he me (applied se (fallback_of hs se))).
Proof.
  intros Hs Hn Hdig Hhs Hms Hss Hhe Hme Hse Hdash Hf.
  assert (Hi : inner <> []).
  { intros ->. cbn [filter] in Hf. exact (app_cons_not_nil _ _ _ Hf). }
  pose proof (range_no_bracket inner hs ms ss he me se dash
                Hhs Hms Hss Hhe Hme Hse Hdash Hf) as Hbr.
  destruct (slot_marker_inner s n inner Hs Hn Hdig Hi Hbr) as (m1 & E1 & G1).
  destruct (range_groups hs ms ss he me se dash Hhs Hms Hss Hhe Hme Hse Hdash)
    as (m2 & E2 & G21 & G22).
  unfold parseSlotRange. rewrite E1. cbv zeta. rewrite G1, Hf, E2, G21, G22.
  rewrite (end_marker_tests he me se Hhe Hme Hse).
  rewrite (start_hour hs ms ss Hhs Hms Hss).
  rewrite (normalizeTime_clock hs ms ss _ Hhs Hms Hss).
  rewrite (normalizeTime_clock he me se _ Hhe Hme Hse).
  destruct se as [|[|] x y]; reflexivity.
Qed.

(** [S-3(9:00 - 10:30)] is a morning slot. *)
Lemma parseSlotRange_fallback_witness :
  parseSlotRange (str "S-3(9:00 - 10:30)") = Some (str "09:00", str "10:30").
Proof.
  apply (parseSlotRange_fallback 83 (str "3") (str "9:00 - 10:30")
           (str "9") (str "00") Unmarked (str "10") (str "30") Unmarked 45);
    try (vm_compute; tauto);
    try (split; [repeat constructor | vm_compute; tauto]).
  - discriminate.
  - repeat constructor.
Defined.

Lemma parseSlotRange_examples :
  parseSlotRange (str "S-1(8:00-9:30)") = Some (str "08:00", str "09:30")
  /\ parseSlotRange (str "S-5(1:00-2:30)") = Some (str "13:00", str "14:30")
  /\ parseSlotRange (str "S-4(11:30-1:00PM)") = Some (str "23:30", str "13:00")
  /\ parseSlotRange (str "S-4(11:30AM-1:00PM)") = Some (str "11:30", str "13:00")
  /\ parseSlotRange (str "S-2(12:15-1:45)") = Some (str "00:15", str "01:45").
Proof. vm_compute. repeat split. Qed.
End Slots.

(* ================================================================== *)
(** * Further properties *)
(* ================================================================== *)

(** ** What a pattern can match *)

(** [iter R min max x y]: [y] is reached from [x] by a number of [R]
    steps that the bounds of a quantifier allow. *)
Inductive iter (R : mstate -> mstate -> Prop)
  : nat -> option nat -> mstate -> mstate -> Prop :=
| iter_stop min max x :
    min = 0%nat \/ max = Some 0%nat -> iter R min max x x
| iter_step min max x y z :
    max <> Some 0%nat -> R x y ->
    iter R (Nat.pred min) (option_map Nat.pred max) y z ->
    iter R min max x z.

(** [steps r x y]: the pattern [r] can take the matcher from state [x]
    to state [y]; the order of the alternatives and the greed of the
    quantifiers play no part in it. *)
Fixpoint steps (r : regex) (x y : mstate) : Prop :=
  match r with
  | Empty => y = x
  | Char p =>
      exists c s, rest x = c :: s /\ p c = true
                  /\ y = MState (S (pos x)) s (caps x)
  | Seq r1 r2 => exists m, steps r1 x m /\ steps r2 m y
  | Alt r1 r2 => steps r1 x y \/ steps r2 x y
  | Rep min max _ r1 => iter (steps r1) min max x y
  | Group i r1 =>
      exists m, steps r1 x m
                /\ y = MState (pos m) (rest m)
                         ((i, firstn (pos m - pos x) (rest x)) :: caps m)
  | Bol => pos x = 0%nat /\ y = x
  | Eol => rest x = [] /\ y = x
  end.

Definition sound (R : mstate -> mstate -> Prop)
    (m : mstate -> (mstate -> option mstate) -> option mstate) : Prop :=
  forall x k z, m x k = Some z -> exists y, R x y /\ k y = Some z.

Lemma repLoop_sound R m greedy :
  sound R m ->
  forall fuel min max x k z,
    repLoop m fuel min max greedy x k = Some z ->
    exists y, iter R min max x y /\ k y = Some z.
Proof.
  intros Hm fuel. induction fuel as [|fuel IH]; intros min max x k z H;
    [discriminate|].
  cbn [repLoop] in H.
  destruct (is_zero_max max) eqn:Ez.
  { exists x. split; [|exact H]. apply iter_stop. right.
    destruct max as [[|n]|]; try discriminate. reflexivity. }
  assert (Hmax : max <> Some 0%nat) by (intros ->; discriminate).
  assert (Hiter : forall z,
    m x (fun y => if Nat.eqb min 0 && Nat.eqb (pos y) (pos x) then None
                  else repLoop m fuel (Nat.pred min) (option_map Nat.pred max) greedy y k)
    = Some z -> exists y, iter R min max x y /\ k y = Some z).
  { intros z' Hz. apply Hm in Hz as (y & Hxy & Hy).
    destruct (Nat.eqb min 0 && Nat.eqb (pos y) (pos x)); [discriminate|].
    apply IH in Hy as (y' & Hyy' & Hk). exists y'. split; [|exact Hk].
    now apply iter_step with y. }
  destruct (Nat.eqb min 0) eqn:Emin; cbn [negb] in H; [|now apply Hiter].
  apply Nat.eqb_eq in Emin.
  destruct greedy; unfold orElse in H.
  - match type of H with
    | match ?a with _ => _ end = _ => destruct a eqn:Ea
    end.
    + rewrite <- H in *. now apply Hiter.
    + exists x. split; [apply iter_stop; now left | exact H].
  - destruct (k x) eqn:Ek.
    + exists x. split; [apply iter_stop; now left|]. now rewrite Ek.
    + now apply Hiter.
Qed.

Lemma mt_sound r : sound (steps r) (mt r).
Proof.
  induction r as [|p|r1 IH1 r2 IH2|r1 IH1 r2 IH2|min max greedy r1 IH|i r1 IH| |];
    intros x k z H; cbn [mt] in H; cbn [steps].
  - now exists x.
  - destruct (rest x) as [|c s] eqn:Er; [discriminate|].
    destruct (p c) eqn:Ep; [|discriminate].
    eexists. split; [|exact H]. now exists c, s.
  - apply IH1 in H as (y & Hxy & Hy). apply IH2 in Hy as (y' & Hyy' & Hk).
    exists y'. split; [now exists y | exact Hk].
  - unfold orElse in H. destruct (mt r1 x k) eqn:E1.
    + rewrite <- H in *. apply IH1 in E1 as (y & Hy & Hk).
      exists y. split; [now left | exact Hk].
    + apply IH2 in H as (y & Hy & Hk). exists y. split; [now right | exact Hk].
  - eapply repLoop_sound; [exact IH | exact H].
  - apply IH in H as (y & Hxy & Hy).
    eexists. split; [|exact Hy]. now exists y.
  - destruct (Nat.eqb (pos x) 0) eqn:E; [|discriminate].
    apply Nat.eqb_eq in E. now exists x.
  - destruct (rest x) eqn:E; [|discriminate]. now exists x.
Qed.

(** A match of a pattern that starts with [^] starts at index 0. *)
Lemma exec_anchored r s m :
  exec (Seq Bol r) s = Some m ->
  exists y, steps r (MState 0 s []) y
            /\ m = RMatch 0 (pos y) (firstn (pos y - 0) s) (caps y).
Proof.
  unfold exec. intro H.
  assert (Hm : match_at (Seq Bol r) 0 s = Some m).
  { destruct s as [|c s]; cbn [search] in H.
    - destruct (match_at (Seq Bol r) 0 []); [exact H | discriminate].
    - destruct (match_at (Seq Bol r) 0 (c :: s)); [exact H|].
      now rewrite search_Bol in H by lia. }
  unfold match_at in Hm.
  destruct (mt (Seq Bol r) (MState 0 s []) Some) as [y|] eqn:E; [|discriminate].
  injection Hm as <-.
  apply mt_sound in E as (y' & Hs & Hk). injection Hk as ->.
  cbn [steps] in Hs. destruct Hs as (x1 & (_ & ->) & Hs).
  now exists y.
Qed.

(** A quantified character class takes a run of characters of the class,
    of a length within its bounds, and leaves the captures alone. *)
Lemma iter_Char p min max x y :
  iter (steps (Char p)) min max x y ->
  exists run, Forall (fun c => p c = true) run
    /\ rest x = run ++ rest y /\ pos y = (pos x + length run)%nat
    /\ caps y = caps x
    /\ (forall n, max = Some n -> (length run <= n)%nat)
    /\ (length run < min -> max = Some (length run))%nat.
Proof.
  induction 1 as [min max x Hstop | min max x y z Hmax Hxy _ IH].
  - exists []. cbn [app length]. rewrite Nat.add_0_r.
    repeat split; try reflexivity; [constructor | intros; lia |].
    intro Hlt. destruct Hstop as [-> | ->]; [lia | reflexivity].
  - destruct IH as (run & Hrun & Hrest & Hpos & Hcaps & Hle & Hmin).
    cbn [steps] in Hxy. destruct Hxy as (c & s & Hx & Hc & ->).
    cbn [pos rest caps] in *. exists (c :: run). repeat split.
    + now constructor.
    + rewrite Hx, Hrest. reflexivity.
    + cbn [length]. lia.
    + exact Hcaps.
    + intros n ->. cbn [length].
      destruct n as [|n]; [contradiction|]. specialize (Hle n eq_refl). lia.
    + cbn [length]. intro Hlt.
      assert (Hlt' : (length run < Nat.pred min)%nat) by lia.
      apply Hmin in Hlt'. destruct max as [[|n]|]; try discriminate;
        [contradiction|]. cbn in Hlt'. injection Hlt' as ->. reflexivity.
Qed.

Lemma iter_opt R x y : iter R 0 (Some 1%nat) x y -> y = x \/ R x y.
Proof.
  inversion 1 as [? ? ? _ | ? ? ? m ? _ HR Hi]; subst; [now left|].
  right. cbn in Hi. inversion Hi as [| ? ? ? ? ? Hn]; subst; [exact HR|].
  now elim Hn.
Qed.

(** ** Canonical times *)

Definition minutes_of_day : list Z := map Z.of_nat (seq 0 1440).

Lemma minutes_of_day_In z : (0 <= z < 1440)%Z -> In z minutes_of_day.
Proof.
  intro H. unfold minutes_of_day. apply in_map_iff. exists (Z.to_nat z).
  split; [lia|]. apply in_seq. lia.
Qed.

Lemma forall_minute (P : Z -> bool) :
  forallb P minutes_of_day = true -> forall z, (0 <= z < 1440)%Z -> P z = true.
Proof.
  intros H z Hz. rewrite forallb_forall in H. apply H.
  now apply minutes_of_day_In.
Qed.

Lemma toHHMM_mod z : Routine.toHHMM z = Routine.toHHMM (z mod 1440).
Proof.
  unfold Routine.toHHMM. rewrite !wrap_minutes. now rewrite Z.mod_mod by lia.
Qed.

Lemma toHHMM_valid z : Routine.validTime (Routine.toHHMM z) = true.
Proof.
  rewrite toHHMM_mod.
  apply (forall_minute (fun z => Routine.validTime (Routine.toHHMM z)));
    [vm_compute; reflexivity | apply Z.mod_pos_bound; lia].
Qed.

(** X1.  [toHHMM] always gives a valid [HH:MM] text, and the minutes it
    stands for are the argument modulo 1440. *)
Theorem toHHMM_canonical z :
  Routine.validTime (Routine.toHHMM z) = true
  /\ Routine.timeToMinutes (Routine.toHHMM z) = Int (z mod 1440).
Proof.
  split; [apply toHHMM_valid|].
  destruct (validTime_minutes _ (toHHMM_valid z)) as (t & Ht & Hr & Hs).
  rewrite Ht. f_equal.
  assert (Hinj : forall a, (0 <= a < 1440)%Z ->
            (Routine.timeToMinutes (Routine.toHHMM a)) = Int a).
  { intros a Ha.
    pose proof (forall_minute
      (fun a => num_is (Routine.timeToMinutes (Routine.toHHMM a)) a)
      ltac:(vm_compute; reflexivity) a Ha) as H.
    cbv beta in H. unfold num_is in H.
    destruct (Routine.timeToMinutes (Routine.toHHMM a)); try discriminate.
    apply Z.eqb_eq in H. now subst. }
  rewrite toHHMM_mod in Ht. rewrite Hinj in Ht by (apply Z.mod_pos_bound; lia).
  now injection Ht.
Qed.

(** A pattern without groups leaves the captures alone. *)
Fixpoint capture_free (r : regex) : bool :=
  match r with
  | Seq r1 r2 | Alt r1 r2 => capture_free r1 && capture_free r2
  | Rep _ _ _ r1 => capture_free r1
  | Group _ _ => false
  | _ => true
  end.

Lemma iter_caps R min max x y :
  (forall a b, R a b -> caps b = caps a) ->
  iter R min max x y -> caps y = caps x.
Proof.
  intros HR. induction 1 as [|? ? ? ? ? _ Hxy _ IH]; [reflexivity|].
  rewrite IH. now apply HR.
Qed.

Lemma steps_caps_free r : capture_free r = true ->
  forall x y, steps r x y -> caps y = caps x.
Proof.
  induction r as [|p|r1 IH1 r2 IH2|r1 IH1 r2 IH2|min max greedy r1 IH|i r1 IH| |];
    cbn [capture_free steps]; intros Hf x y H.
  - now subst.
  - destruct H as (c & s & _ & _ & ->). reflexivity.
  - apply andb_true_iff in Hf as [Hf1 Hf2]. destruct H as (m & H1 & H2).
    rewrite (IH2 Hf2 _ _ H2). now apply IH1.
  - apply andb_true_iff in Hf as [Hf1 Hf2]. destruct H as [H|H];
      [now apply IH1 | now apply IH2].
  - eapply iter_caps; [|exact H]. intros a b. now apply IH.
  - discriminate.
  - destruct H as [_ ->]. reflexivity.
  - destruct H as [_ ->]. reflexivity.
Qed.

(** A group around a run of exactly or at most two digits. *)
Lemma digits_group lo x y :
  (1 <= lo <= 2)%nat ->
  steps (times lo 2 (Char is_digit)) x y ->
  exists run, Forall (fun c => is_digit c = true) run
    /\ (lo <= length run <= 2)%nat
    /\ firstn (pos y - pos x) (rest x) = run /\ caps y = caps x.
Proof.
  intros Hlo H. unfold times in H. cbn [steps] in H.
  apply iter_Char in H as (run & Hrun & Hrest & Hpos & Hcaps & Hmax & Hmin).
  exists run. specialize (Hmax 2%nat eq_refl).
  assert (Hlen : (lo <= length run)%nat).
  { destruct (Nat.lt_ge_cases (length run) lo) as [Hlt|]; [|assumption].
    apply Hmin in Hlt. injection Hlt. lia. }
  repeat split; try assumption.
  rewrite Hpos, Hrest. replace (pos x + length run - pos x)%nat with (length run) by lia.
  rewrite firstn_app, Nat.sub_diag, firstn_all. cbn [firstn]. now rewrite app_nil_r.
Qed.

Lemma parseInt_digits run :
  Forall (fun c => is_digit c = true) run -> (1 <= length run <= 2)%nat ->
  parseInt run 10 = Some (digits_val run) /\ (0 <= digits_val run <= 99)%Z.
Proof.
  intros Hd Hl.
  destruct run as [|a [|b [|c run]]]; cbn [length] in Hl; try lia.
  - inversion Hd as [|? ? Ha _]; subst.
    split; [apply parseInt_one; now apply is_digit_In|].
    apply is_digit_In in Ha. cbn in Ha.
    repeat (destruct Ha as [<-|Ha]; [vm_compute; split; discriminate|]).
    destruct Ha.
  - inversion Hd as [|? ? Ha Hd']; subst. inversion Hd' as [|? ? Hb _]; subst.
    split; [apply parseInt_two; now apply is_digit_In|].
    destruct (two_digits a b Ha Hb) as (_ & _ & _ & Hr & _).
    unfold digits_val. cbn [fold_left]. lia.
Qed.

Section TimeTexts.
Import Routine.
Variable exotic : number -> jsstring.

Lemma ampm_groups raw ampm :
  exec re_ampm raw = Some ampm ->
  (exists h, parseInt (group_text ampm 1) 10 = Some h)
  /\ (exists m, parseInt (match group ampm 2 with Some s => s | None => str "0" end) 10
               = Some m).
Proof.
  unfold re_ampm. cbn [seqs]. intro H.
  apply exec_anchored in H as (y & Hs & ->).
  cbn [steps] in Hs.
  destruct Hs as (x1 & (m1 & H1 & ->) & x2 & H2 & x3 & H3 & x4 & H4 & x5
                  & (m5 & H5 & ->) & _ & ->).
  apply digits_group in H1 as (run & Hrun & Hlen & Hfirst & Hc1); [|lia].
  cbn [pos rest caps] in *. rewrite Hfirst in *.
  apply (steps_caps_free (opt (Seq (lit ":") (times 2 2 (Char is_digit))))
           eq_refl) in H3.
  apply (steps_caps_free (star (Char is_space)) eq_refl) in H4.
  apply (steps_caps_free (Seq (one_of_ci "AP") (ci1 (chr "M"))) eq_refl) in H5.
  unfold group_text, group. cbn [groups assoc_nat Nat.eqb].
  rewrite H5, H4, H3.
  destruct (parseInt_digits run Hrun Hlen) as [Hp _].
  apply iter_opt in H2 as [-> | (m & Hcolon & m2 & H2 & ->)].
  - cbn [caps assoc_nat Nat.eqb]. split; [eexists; exact Hp|].
    rewrite Hc1. cbn [assoc_nat]. eexists. reflexivity.
  - apply digits_group in H2 as (run2 & Hrun2 & Hlen2 & Hfirst2 & Hc2); [|lia].
    apply (steps_caps_free (lit ":") eq_refl) in Hcolon.
    cbn [caps assoc_nat Nat.eqb] in *. rewrite Hfirst2, Hc2, Hcolon.
    cbn [assoc_nat Nat.eqb]. split; [eexists; exact Hp|].
    destruct (parseInt_digits run2 Hrun2 ltac:(lia)) as [Hp2 _].
    eexists; exact Hp2.
Qed.

Lemma textTime_canonical raw :
  textTime raw = [] \/ validTime (textTime raw) = true.
Proof.
  unfold textTime.
  destruct (exec re_ampm raw) as [ampm|] eqn:E.
  - destruct (ampm_groups raw ampm E) as ((h & ->) & (m & ->)).
    right. apply toHHMM_valid.
  - destruct (exec re_plain raw) as [plain|]; [|now left].
    destruct (parseInt (group_text plain 1) 10) as [h|]; [|now left].
    destruct (parseInt (group_text plain 2) 10) as [m|]; [|now left].
    destruct (_ && _); [right; apply toHHMM_valid | now left].
Qed.

Lemma numericTime_canonical q :
  numericTime q = [] \/ validTime (numericTime q) = true.
Proof.
  unfold numericTime.
  repeat match goal with
         | |- context [if ?b then _ else _] => destruct b
         end; try (right; apply toHHMM_valid); now left.
Qed.

Lemma parseSpreadsheetTime_canonical stack : forall v out,
  parseSpreadsheetTime exotic stack v = Ret out ->
  out = [] \/ validTime out = true.
Proof.
  induction stack as [|stack IH]; intros v out H; [discriminate|].
  cbn [parseSpreadsheetTime] in H.
  assert (Htext : forall raw,
    match raw with
    | [] => Ret []
    | _ :: _ =>
        if validTime raw then Ret raw
        else if negb (isNaN (Number_ raw))
             then parseSpreadsheetTime exotic stack (VNum (Number_ raw))
             else Ret (textTime raw)
    end = Ret out -> out = [] \/ validTime out = true).
  { intros raw Hr. destruct raw as [|c raw]; [injection Hr as <-; now left|].
    destruct (validTime (c :: raw)) eqn:Ev; [injection Hr as <-; now right|].
    destruct (negb (isNaN (Number_ (c :: raw)))); [now apply IH in Hr|].
    injection Hr as <-. apply textTime_canonical. }
  destruct v as [| |b|n|s|h m text|text|[|]]; cbn [String_ bind] in H;
    try discriminate;
    try (injection H as <-; now left);
    try (now apply Htext in H).
  - destruct b; now apply Htext in H.
  - destruct (to_Q n) as [q|]; [|now apply Htext in H].
    injection H as <-. apply numericTime_canonical.
  - injection H as <-. right. apply toHHMM_valid.
Qed.

End TimeTexts.

(** ** Canonical weekdays *)

Section Weekdays.
Import Routine.
Variable exotic : number -> jsstring.

Lemma lower_char_not_upper c : is_upper (lower_char c) = false.
Proof.
  unfold lower_char, is_upper.
  destruct ((65 <=? c)%N && (c <=? 90)%N) eqn:E1.
  - apply andb_prop in E1 as [H1 H2]. apply N.leb_le in H1, H2.
    apply andb_false_iff. right. apply N.leb_gt. lia.
  - destruct ((192 <=? c)%N && (c <=? 222)%N && negb (c =? 215)%N) eqn:E2.
    + apply andb_prop in E2 as [E2 _]. apply andb_prop in E2 as [H1 H2].
      apply N.leb_le in H1, H2. apply andb_false_iff. right. apply N.leb_gt. lia.
    + destruct (c =? 8490)%N; [reflexivity | exact E1].
Qed.

Lemma toLowerCase_not_upper s : existsb is_upper (toLowerCase s) = false.
Proof.
  induction s as [|c s IH]; [reflexivity|].
  cbn [toLowerCase map existsb]. fold (toLowerCase s).
  now rewrite lower_char_not_upper, IH.
Qed.

(** What the lookup of a lower-cased text finds: a weekday name, or
    one of the two inherited members whose names are in lower case. *)
Definition day_found (d : dayValue) : Prop :=
  (exists name, d = Weekday name /\ In name weekdayNames)
  \/ d = Member (str "constructor") \/ d = Member (str "__proto__").

Lemma lookupDay_lower raw d :
  lookupDay (toLowerCase raw) = Some d -> day_found d.
Proof.
  pose proof (toLowerCase_not_upper raw) as Hu. revert Hu.
  generalize (toLowerCase raw). intros key Hu H.
  unfold lookupDay, fullDayTable in H. cbn [table_get] in H.
  repeat match type of H with
         | match (if ?b then _ else _) with _ => _ end = _ =>
             destruct b; [injection H as <-; left; eexists; split;
                          [reflexivity | cbn; tauto]|]
         end.
  destruct (includes objectMembers key) eqn:Ei; [|discriminate].
  injection H as <-. right.
  unfold includes, objectMembers in Ei. cbn [map existsb] in Ei.
  repeat match type of Ei with
         | (jseq ?a ?b || _) = true =>
             let E := fresh "E" in
             destruct (jseq a b) eqn:E;
             [apply jseq_spec in E; subst key;
              first [now left | now right | discriminate Hu] | cbn [orb] in Ei]
         end.
  discriminate.
Qed.

Lemma toFullDay_canonical v d :
  toFullDay exotic v = Ret (Some d) -> day_found d.
Proof.
  unfold toFullDay. destruct (String_ exotic _) as [text| |]; try discriminate.
  cbn [bind]. destruct (trim text) as [|c raw]; [discriminate|].
  intro H. injection H as H. now apply (lookupDay_lower (c :: raw)).
Qed.

Lemma toFullDay_fixed d :
  In d weekdayNames -> toFullDay exotic (VStr d) = Ret (Some (Weekday d)).
Proof.
  cbn. intro H.
  repeat (destruct H as [<-|H]; [vm_compute; reflexivity|]). destruct H.
Qed.

End Weekdays.

(** ** What the tabular import returns and throws *)

Section RowResults.
Import Routine.
Variable exotic : number -> jsstring.

(** The failures of the engine: the call stack runs out, or an object
    has no primitive value. *)
Definition engine_error (e : error) : Prop := e = RangeError \/ e = TypeError.

Definition engine_fault {A} (o : outcome A) : Prop :=
  match o with
  | Ret _ => True
  | Throw e => engine_error e
  | Unfinished => False
  end.

Lemma String__fault v : engine_fault (String_ exotic v).
Proof.
  destruct v as [| |[|]|n|s|h m text|text|[|]]; cbn; try exact I;
    [now left | now right].
Qed.

Lemma parseBool_fault v : engine_fault (parseBool exotic v).
Proof.
  unfold parseBool.
  destruct v as [| |b|n|s|h m text|text|[|]]; cbn; try exact I;
    [now left | now right].
Qed.

Lemma toFullDay_fault v : engine_fault (toFullDay exotic v).
Proof.
  unfold toFullDay. pose proof (String__fault (v ?? VStr [])) as H.
  destruct (String_ exotic (v ?? VStr [])) as [text|e|]; cbn [bind];
    [|exact H|exact H].
  destruct (trim text); exact I.
Qed.

Lemma parseSpreadsheetTime_throws stack : forall v,
  engine_fault (parseSpreadsheetTime exotic stack v).
Proof.
  induction stack as [|stack IH]; intro v; [now left|].
  cbn [parseSpreadsheetTime].
  assert (Htext : forall raw,
    engine_fault (match raw with
           | [] => Ret []
           | _ :: _ =>
               if validTime raw then Ret raw
               else if negb (isNaN (Number_ raw))
                    then parseSpreadsheetTime exotic stack (VNum (Number_ raw))
                    else Ret (textTime raw)
           end)).
  { intros [|c raw]; [exact I|].
    destruct (validTime (c :: raw)); [exact I|].
    destruct (negb (isNaN (Number_ (c :: raw)))); [apply IH | exact I]. }
  destruct v as [| |[|]|n|s|h m text|text|[|]]; cbn [String_ bind to_Q];
    try exact I; try apply Htext.
  - destruct (to_Q n); [exact I | apply Htext].
  - now left.
  - now right.
Qed.

(** An item the import accepts. *)
Definition accepted (item : ImportedRoutine (option dayValue)) : Prop :=
  is_empty (title item) = false
  /\ (exists d, day item = Some d /\ day_found d)
  /\ validTime (startTime item) = true /\ validTime (endTime item) = true
  /\ (exists s e, timeToMinutes (startTime item) = Int s
                  /\ timeToMinutes (endTime item) = Int e /\ (s < e)%Z)
  /\ (reminderEnabled item = 0 \/ reminderEnabled item = 1)%Z.

(** The errors of row [i]. *)
Definition row_fault (i : nat) (e : error) : Prop :=
  e = row_error i missing_fields
  \/ e = row_error i " has endTime earlier than startTime.".

Lemma parseRow_outcome stack i row :
  match parseRow exotic stack i row with
  | Ret None => True
  | Ret (Some item) => accepted item
  | Throw e => engine_error e \/ row_fault i e
  | Unfinished => False
  end.
Proof.
  destruct row as [row|]; [|left; now right].
  unfold parseRow.
  fold (titleCell row) (dayCell row) (startCell row) (endCell row)
       (notesCell row) (doneCell row) (reminderCell row).
  pose proof (String__fault (titleCell row)) as Ft.
  destruct (String_ exotic (titleCell row)) as [t|x|];
    cbn [bind]; [|now left|exact Ft].
  pose proof (toFullDay_fault (dayCell row)) as Fd.
  pose proof (toFullDay_canonical exotic (dayCell row)) as Cd.
  destruct (toFullDay exotic (dayCell row)) as [d|x|];
    cbn [bind]; [|now left|exact Fd].
  pose proof (parseSpreadsheetTime_throws stack (startCell row)) as Fs.
  pose proof (parseSpreadsheetTime_canonical exotic stack (startCell row)) as Cs.
  destruct (parseSpreadsheetTime exotic stack (startCell row)) as [s|x|];
    cbn [bind]; [|now left|exact Fs].
  pose proof (parseSpreadsheetTime_throws stack (endCell row)) as Fe.
  pose proof (parseSpreadsheetTime_canonical exotic stack (endCell row)) as Ce.
  destruct (parseSpreadsheetTime exotic stack (endCell row)) as [e|x|];
    cbn [bind]; [|now left|exact Fe].
  pose proof (String__fault (notesCell row)) as Fn.
  destruct (String_ exotic (notesCell row)) as [n|x|];
    cbn [bind]; [|now left|exact Fn].
  pose proof (parseBool_fault (doneCell row)) as Fdn.
  destruct (parseBool exotic (doneCell row)) as [dn|x|];
    cbn [bind]; [|now left|exact Fdn].
  pose proof (parseBool_fault (reminderCell row)) as Fr.
  destruct (parseBool exotic (reminderCell row)) as [rm|x|];
    cbn [bind]; [|now left|exact Fr].
  destruct (_ && _ && _ && _); [exact I|].
  destruct (is_empty _ || no_day _ || is_empty s || is_empty e) eqn:Em;
    [right; now left|].
  apply orb_false_iff in Em as [Em He0]. apply orb_false_iff in Em as [Em Hs0].
  apply orb_false_iff in Em as [Ht0 Hd0].
  destruct (Cs s eq_refl) as [-> | Vs]; [discriminate|].
  destruct (Ce e eq_refl) as [-> | Ve]; [discriminate|].
  rewrite Vs, Ve. cbn [negb orb].
  destruct (validTime_minutes s Vs) as (zs & Hzs & _ & _).
  destruct (validTime_minutes e Ve) as (ze & Hze & _ & _).
  rewrite Hzs, Hze, nle_Int.
  destruct (ze <=? zs)%Z eqn:Ele; [right; now right|].
  apply Z.leb_gt in Ele.
  unfold accepted. cbn [title day startTime endTime reminderEnabled].
  repeat split; try assumption.
  - destruct d as [d|]; [|discriminate]. exists d. split; [reflexivity|].
    now apply Cd.
  - now exists zs, ze.
  - destruct rm; [now right | now left].
Qed.

Lemma parseRowsFrom_outcome stack : forall rows i,
  match parseRowsFrom exotic stack i rows with
  | Ret items => Forall accepted items /\ (length items <= length rows)%nat
  | Throw e =>
      engine_error e
      \/ exists j, (i <= j < i + length rows)%nat /\ row_fault j e
  | Unfinished => False
  end.
Proof.
  induction rows as [|row rows IH]; intro i; cbn [parseRowsFrom].
  - split; [constructor | reflexivity].
  - pose proof (parseRow_outcome stack i row) as Hrow.
    destruct (parseRow exotic stack i row) as [r|e|]; cbn [bind].
    + specialize (IH (S i)).
      destruct (parseRowsFrom exotic stack (S i) rows) as [items|e|]; cbn [bind].
      * destruct IH as [Hall Hlen]. destruct r as [item|]; cbn [length]; split;
          try lia; [now constructor | assumption].
      * destruct IH as [He | (j & Hj & Hf)]; [now left|].
        right. exists j. split; [cbn [length]; lia | exact Hf].
      * exact IH.
    + destruct Hrow as [He | Hf]; [now left|].
      right. exists i. split; [cbn [length]; lia | exact Hf].
    + exact Hrow.
Qed.

End RowResults.

(** ** Surrounding white space *)

Lemma trimStart_blank b s :
  Forall (fun c => is_space c = true) b -> trimStart (b ++ s) = trimStart s.
Proof.
  induction 1 as [|c b Hc _ IH]; [reflexivity|].
  cbn [app trimStart]. now rewrite Hc.
Qed.

Lemma trimStart_all_blank b :
  Forall (fun c => is_space c = true) b -> trimStart b = [].
Proof.
  intro H. rewrite <- (app_nil_r b). now rewrite trimStart_blank.
Qed.

Lemma trimEnd_blank s a :
  Forall (fun c => is_space c = true) a -> trimEnd (s ++ a) = trimEnd s.
Proof.
  intro H. unfold trimEnd. rewrite rev_app_distr, trimStart_blank;
    [reflexivity | now apply Forall_rev].
Qed.

Lemma trimStart_app s a : trimStart s <> [] -> trimStart (s ++ a) = trimStart s ++ a.
Proof.
  induction s as [|c s IH]; cbn [trimStart app]; intro H; [contradiction|].
  destruct (is_space c); [now apply IH | reflexivity].
Qed.

Lemma trimStart_blank_or s :
  trimStart s = [] -> Forall (fun c => is_space c = true) s.
Proof.
  induction s as [|c s IH]; cbn [trimStart]; intro H; [constructor|].
  destruct (is_space c) eqn:Ec; [|discriminate]. constructor; auto.
Qed.

Lemma trim_pad b s a :
  Forall (fun c => is_space c = true) b -> Forall (fun c => is_space c = true) a ->
  trim (b ++ s ++ a) = trim s.
Proof.
  intros Hb Ha. unfold trim. rewrite trimStart_blank by exact Hb.
  destruct (trimStart s) as [|c s'] eqn:Es.
  - rewrite trimStart_all_blank; [reflexivity|].
    apply Forall_app. split; [now apply trimStart_blank_or | exact Ha].
  - rewrite trimStart_app by (rewrite Es; discriminate).
    rewrite Es. now apply trimEnd_blank.
Qed.

Lemma valid_trim s : Routine.validTime s = true -> trim s = s.
Proof.
  intro H. destruct (validTime_minutes s H) as (z & _ & Hz & <-).
  apply jseq_spec.
  apply (forall_minute (fun z => jseq (trim (Routine.toHHMM z)) (Routine.toHHMM z)));
    [vm_compute; reflexivity | exact Hz].
Qed.

Section TimeParserResults.
Import Routine.
Variable exotic : number -> jsstring.

(** A deeper call stack changes no result. *)
Lemma parseSpreadsheetTime_mono n : forall m v out,
  (n <= m)%nat ->
  parseSpreadsheetTime exotic n v = Ret out ->
  parseSpreadsheetTime exotic m v = Ret out.
Proof.
  induction n as [|n IH]; intros m v out Hle H; [discriminate|].
  destruct m as [|m]; [lia|]. cbn [parseSpreadsheetTime] in *.
  assert (Hrec : forall x, parseSpreadsheetTime exotic n x = Ret out ->
                           parseSpreadsheetTime exotic m x = Ret out)
    by (intros x; apply IH; lia).
  destruct v as [| |[|]|x|s|h mi text|text|[|]]; cbn [String_ bind to_Q] in *;
    try exact H;
    try (destruct (trim _) as [|c raw]; [exact H|];
         destruct (validTime (c :: raw)); [exact H|];
         destruct (negb _); [now apply Hrec | exact H]).
  destruct (to_Q x); [exact H|]. cbn [bind] in *.
  destruct (trim _) as [|c raw]; [exact H|].
  destruct (validTime (c :: raw)); [exact H|].
  destruct (negb _); [now apply Hrec | exact H].
Qed.

(** X2.  Whatever [parseSpreadsheetTime] returns is the empty text or a
    valid [HH:MM] text, and parsing that result again gives it back. *)
Theorem parseSpreadsheetTime_result stack v out :
  parseSpreadsheetTime exotic stack v = Ret out ->
  (out = [] \/ validTime out = true)
  /\ forall stack', parseSpreadsheetTime exotic (S stack') (VStr out) = Ret out.
Proof.
  intro H. pose proof (parseSpreadsheetTime_canonical exotic stack v out H) as Hc.
  split; [exact Hc|]. intro stack'.
  destruct Hc as [-> | Hv]; [reflexivity|].
  cbn [parseSpreadsheetTime to_Q String_ bind]. rewrite (valid_trim out Hv).
  destruct out as [|c out]; [discriminate|]. now rewrite Hv.
Qed.

End TimeParserResults.

Lemma parseSpreadsheetTime_result_witness :
  Routine.parseSpreadsheetTime no_exotic 2 (Routine.VStr (str " 7:05 pm ")) = Ret (str "19:05")
  /\ Routine.parseSpreadsheetTime no_exotic 1 (Routine.VStr (str "19:05")) = Ret (str "19:05").
Proof.
  split; [reflexivity|].
  apply (proj2 (parseSpreadsheetTime_result no_exotic 2
                  (Routine.VStr (str " 7:05 pm ")) (str "19:05") eq_refl)).
Defined.

Section RowTheorems.
Import Routine.
Variable exotic : number -> jsstring.

(** X3.  Every item the tabular import returns has a title, two valid
    times with the end after the start, a reminder flag of 0 or 1, and
    a day that is one of the seven weekday names or, for a day cell that
    reads [constructor] or [__proto__] in any letter case, the member
    of that name that objects inherit; there are no more items than
    rows. *)
Theorem parseImportedRows_accepted stack rows items :
  parseImportedRows exotic stack rows = Ret items ->
  Forall accepted items /\ (length items <= length rows)%nat.
Proof.
  intro H. pose proof (parseRowsFrom_outcome exotic stack rows 0) as Ho.
  unfold parseImportedRows in H. now rewrite H in Ho.
Qed.

(** X4.  The tabular import always comes to an end, and it fails in
    these ways only: with an error of the engine (the call stack runs
    out, inside the time parser or while a deeply nested array is
    printed; a row is [null], or a cell is an object without a primitive
    value), or because a row (numbered from 0,
    within the rows given) lacks a required value, or because its end
    is not after its start.  The error for an invalid time is never
    thrown. *)
Theorem parseImportedRows_faults stack rows :
  parseImportedRows exotic stack rows <> Unfinished
  /\ forall e, parseImportedRows exotic stack rows = Throw e ->
       e = RangeError \/ e = TypeError
       \/ exists j, (j < length rows)%nat /\ row_fault j e.
Proof.
  pose proof (parseRowsFrom_outcome exotic stack rows 0) as Ho.
  unfold parseImportedRows. split.
  - intro H. now rewrite H in Ho.
  - intros e H. rewrite H in Ho.
    destruct Ho as [[-> | ->] | (j & Hj & Hf)]; [now left | right; now left|].
    right. right. exists j. split; [lia | exact Hf].
Qed.

(** X5.  What [toFullDay] returns, when it is not [null], is one of
    the seven weekday names or, for a text that reads [constructor] or
    [__proto__] in any letter case, the member of that name that objects
    inherit.  It maps each weekday name to itself and ignores the white
    space around its argument. *)
Theorem toFullDay_weekday :
  (forall v d,
     toFullDay exotic v = Ret (Some d) ->
     (exists name, d = Weekday name /\ In name weekdayNames)
     \/ d = Member (str "constructor") \/ d = Member (str "__proto__"))
  /\ (forall d, In d weekdayNames -> toFullDay exotic (VStr d) = Ret (Some (Weekday d)))
  /\ (forall before s after,
        Forall (fun c => is_space c = true) before ->
        Forall (fun c => is_space c = true) after ->
        toFullDay exotic (VStr (before ++ s ++ after)) = toFullDay exotic (VStr s)).
Proof.
  split; [|split].
  - apply toFullDay_canonical.
  - apply toFullDay_fixed.
  - intros b s a Hb Ha. unfold toFullDay. cbn [nullish String_ bind].
    now rewrite trim_pad.
Qed.

End RowTheorems.

Definition rows_gym_study : list (option (list (jsstring * Routine.value))) :=
  [Some [(str "Title", Routine.VStr (str "Gym")); (str "Day", Routine.VStr (str "mon"));
         (str "Start", Routine.VStr (str "7am")); (str "End Time", Routine.VNum (Int 8));
         (str "Reminder", Routine.VStr (str "Yes"))];
   Some [];
   Some [(str "task", Routine.VStr (str "Study"));
         (str "weekday", Routine.VStr (str "Thurs"));
         (str "start_time", Routine.VNum (Real (3 # 4)));
         (str "END", Routine.VStr (str "9:30 PM"))]].

Lemma parseImportedRows_accepted_witness :
  exists items,
    Routine.parseImportedRows no_exotic 3 rows_gym_study = Ret items
    /\ Forall accepted items /\ (length items <= 3)%nat.
Proof.
  eexists. split; [vm_compute; reflexivity|].
  apply (parseImportedRows_accepted no_exotic 3 rows_gym_study). reflexivity.
Defined.

Definition rows_backwards : list (option (list (jsstring * Routine.value))) :=
  [Some [(str "title", Routine.VStr (str "Nap"));
         (str "day", Routine.VStr (str "Sunday"));
         (str "start", Routine.VStr (str "15:00"));
         (str "end", Routine.VStr (str "14:00"))]].

Lemma parseImportedRows_faults_witness :
  Routine.row_error 0 " has endTime earlier than startTime." = RangeError
  \/ Routine.row_error 0 " has endTime earlier than startTime." = TypeError
  \/ exists j, (j < 1)%nat
       /\ row_fault j (Routine.row_error 0 " has endTime earlier than startTime.").
Proof.
  apply (proj2 (parseImportedRows_faults no_exotic 3 rows_backwards)).
  vm_compute. reflexivity.
Defined.

Lemma toFullDay_weekday_witness :
  ((exists name, Routine.Weekday (str "Tuesday") = Routine.Weekday name
                 /\ In name weekdayNames)
   \/ Routine.Weekday (str "Tuesday") = Routine.Member (str "constructor")
   \/ Routine.Weekday (str "Tuesday") = Routine.Member (str "__proto__"))
  /\ Routine.toFullDay no_exotic (Routine.VStr (str "Friday"))
     = Ret (Some (Routine.Weekday (str "Friday")))
  /\ Routine.toFullDay no_exotic (Routine.VStr ([32; 32]%N ++ str "tues" ++ [9]%N))
     = Routine.toFullDay no_exotic (Routine.VStr (str "tues")).
Proof.
  pose proof (toFullDay_weekday no_exotic) as (H1 & H2 & H3).
  split; [|split].
  - apply (H1 (Routine.VStr (str "TUE"))). reflexivity.
  - apply H2. cbn. tauto.
  - apply H3; repeat constructor.
Defined.

(** ** The time shown and the time typed *)

Section TimeDisplay.
Import Routine RoutineForm.
Variable exotic : number -> jsstring.

Definition reads_back (z : Z) : bool :=
  match parseSpreadsheetTime exotic 1 (VStr (formatTime exotic (toHHMM z))) with
  | Ret out => jseq out (toHHMM z)
  | _ => false
  end.

(** X6.  The 12-hour text that [formatTime] shows for a valid time is
    read back by [parseSpreadsheetTime] as that time. *)
Theorem formatTime_reads_back t stack :
  validTime t = true ->
  parseSpreadsheetTime exotic (S stack) (VStr (formatTime exotic t)) = Ret t.
Proof.
  intro H. destruct (validTime_minutes t H) as (z & _ & Hz & <-).
  apply (parseSpreadsheetTime_mono exotic 1); [lia|].
  pose proof (forall_minute reads_back ltac:(vm_compute; reflexivity) z Hz) as Hr.
  unfold reads_back in Hr.
  destruct (parseSpreadsheetTime exotic 1 _) as [out| |]; try discriminate.
  apply jseq_spec in Hr. now subst.
Qed.

Lemma filter_digits l :
  Forall (fun c => is_digit c = true) l -> filter is_digit l = l.
Proof.
  induction 1 as [|c l Hc _ IH]; [reflexivity|]. cbn [filter]. now rewrite Hc, IH.
Qed.

Lemma firstn_digits n l :
  Forall (fun c => is_digit c = true) l ->
  Forall (fun c => is_digit c = true) (firstn n l).
Proof. intro H. rewrite <- (firstn_skipn n l) in H. now apply Forall_app in H. Qed.

Lemma skipn_digits n l :
  Forall (fun c => is_digit c = true) l ->
  Forall (fun c => is_digit c = true) (skipn n l).
Proof. intro H. rewrite <- (firstn_skipn n l) in H. now apply Forall_app in H. Qed.

Lemma filter_is_digit v : Forall (fun c => is_digit c = true) (filter is_digit v).
Proof. apply Forall_forall. intros c Hc. now apply filter_In in Hc. Qed.

(** X7.  [normalizeTimeInput] keeps at most four digits, with a colon
    after the second when there are more than two; it leaves a valid time
    as it is, and applying it twice is applying it once. *)
Theorem normalizeTimeInput_stable :
  (forall t, validTime t = true -> normalizeTimeInput t = t)
  /\ (forall v, normalizeTimeInput (normalizeTimeInput v) = normalizeTimeInput v)
  /\ (forall v, (length (normalizeTimeInput v) <= 5)%nat).
Proof.
  split; [|split].
  - intros t H.
    destruct (validTime_shape t H) as (a & b & c & d & -> & Ha & Hb & Hc & Hd).
    unfold normalizeTimeInput. cbn [filter]. rewrite Ha, Hb, Hc, Hd.
    change (is_digit (chr ":")) with false. reflexivity.
  - intro v. unfold normalizeTimeInput.
    pose proof (firstn_digits 4 _ (filter_is_digit v)) as Hd.
    pose proof (firstn_le_length 4 (filter is_digit v)) as Hl.
    set (digits := firstn 4 (filter is_digit v)) in *.
    destruct (length digits <=? 2)%nat eqn:E.
    + rewrite (filter_digits digits Hd).
      apply Nat.leb_le in E.
      rewrite firstn_all2 by lia. apply Nat.leb_le in E. now rewrite E.
    + apply Nat.leb_gt in E.
      rewrite !filter_app. change (filter is_digit (str ":")) with (@nil N).
      rewrite (filter_digits _ (firstn_digits 2 _ Hd)).
      rewrite (filter_digits _ (skipn_digits 2 _ Hd)). cbn [app]. rewrite firstn_skipn.
      rewrite firstn_all2 by lia.
      replace (length digits <=? 2)%nat with false by (symmetry; now apply Nat.leb_gt).
      reflexivity.
  - intro v. unfold normalizeTimeInput.
    pose proof (firstn_le_length 4 (filter is_digit v)) as Hl.
    set (digits := firstn 4 (filter is_digit v)) in *.
    destruct (length digits <=? 2)%nat eqn:E.
    + apply Nat.leb_le in E. lia.
    + rewrite !length_app, length_firstn, length_skipn. cbn [length str map list_ascii_of_string]. lia.
Qed.

End TimeDisplay.

Lemma formatTime_reads_back_witness :
  RoutineForm.formatTime no_exotic (str "00:05") = str "12:05 AM"
  /\ Routine.parseSpreadsheetTime no_exotic 1
       (Routine.VStr (RoutineForm.formatTime no_exotic (str "00:05"))) = Ret (str "00:05").
Proof.
  split; [reflexivity|].
  apply (formatTime_reads_back no_exotic (str "00:05") 0). reflexivity.
Defined.

Lemma normalizeTimeInput_stable_witness :
  RoutineForm.normalizeTimeInput (str "18:45") = str "18:45"
  /\ RoutineForm.normalizeTimeInput (str "7.30pm") = str "73:0".
Proof.
  split; [|reflexivity].
  apply (proj1 normalizeTimeInput_stable). reflexivity.
Defined.

(** ** Reminders of the routine screen *)

(** The trigger for day index [d] (0 is Sunday) at [mins] minutes after
    midnight. *)
Definition trigger_at (d mins : Z) : trigger :=
  Trigger CALENDAR (if (d =? 0)%Z then 1 else d + 1)%Z
          (Int (mins / 60)) (Int (mins mod 60)) (Some true).

(** The day index reached from [d] when [m] minutes, counted from its
    midnight, lie [- (m / 1440)] days back. *)
Definition day_back (d m : Z) : Z := ((d + m / 1440) mod 7)%Z.

Lemma getWeeklyTrigger_value fuel day time t k :
  In day weekdayNames -> Routine.timeToMinutes time = Int t ->
  (0 <= t < 1440)%Z -> (0 <= k <= 2 ^ 53)%Z ->
  (Z.to_nat (k / 1440 + 1) <= fuel)%nat ->
  Routine.getWeeklyTrigger fuel day time (Int k)
  = Ret (Some (trigger_at (day_back (Routine.getDayNumber day) (t - k))
                          ((t - k) mod 1440))).
Proof.
  intros Hday Ht Hrange Hk Hfuel.
  pose proof (getDayNumber_canonical day Hday) as Hd.
  set (m := (t - k)%Z). set (back := (- (m / 1440))%Z).
  assert (Hb : (0 <= back <= k / 1440 + 1)%Z).
  { unfold back, m. pose proof (Z.div_le_mono (t - k) 1439 1440 ltac:(lia) ltac:(lia)) as H1.
    change (1439 / 1440)%Z with 0%Z in H1.
    pose proof (Z.div_le_mono (- k - 1440 * 0) (t - k) 1440 ltac:(lia) ltac:(lia)) as H2.
    assert (H3 : (- (k / 1440) - 1 <= (- k - 1440 * 0) / 1440)%Z).
    { rewrite Z.mul_0_r, Z.sub_0_r.
      pose proof (Z.div_mod k 1440 ltac:(lia)). pose proof (Z.mod_pos_bound k 1440 ltac:(lia)).
      apply Z.div_le_lower_bound; lia. }
    lia. }
  assert (Hmins : (m + 1440 * back = m mod 1440)%Z).
  { unfold back. rewrite (Z.mod_eq m 1440) by lia. lia. }
  unfold Routine.getWeeklyTrigger.
  destruct (Routine.getDayNumber day <? 0)%Z eqn:E; [apply Z.ltb_lt in E; lia|].
  rewrite Ht. unfold nsub64. cbn [nneg]. rewrite nadd64_small by lia.
  replace (t + - k)%Z with m by (unfold m; lia).
  rewrite (wrapLoop_steps (Z.to_nat back)); [|lia|unfold m; lia|].
  2:{ rewrite Z2Nat.id by lia. rewrite Hmins. apply Z.mod_pos_bound. lia. }
  rewrite Z2Nat.id by lia. rewrite Hmins. cbn [bind].
  rewrite stepBack_iter by exact Hd. rewrite Z2Nat.id by lia.
  pose proof (Z.mod_pos_bound m 1440 ltac:(lia)) as Hm.
  rewrite floor_div_Int by lia.
  unfold nrem. replace (60 =? 0)%Z with false by reflexivity.
  rewrite Z.rem_mod_nonneg by lia.
  unfold trigger_at, day_back.
  replace (Routine.getDayNumber day - back)%Z
    with (Routine.getDayNumber day + m / 1440)%Z by (unfold back; lia).
  reflexivity.
Qed.

Section RoutineReminders.
Import Routine RoutineForm.
Local Open Scope effect_scope.

Variable E : env.

(** The body text of the reminders of an item. *)
Definition reminder_body (item : RoutineItem) : jsstring :=
  r_day item ++ str " " ++ r_startTime item ++ str " - " ++ r_endTime item
  ++ (if is_empty (r_notes item) then [] else [32; 8226; 32]%N ++ r_notes item).

Lemma scheduleIf_run fuel title body day time t k ids log id :
  In day weekdayNames -> timeToMinutes time = Int t ->
  (0 <= t < 1440)%Z -> (0 <= k <= 2 ^ 53)%Z ->
  (Z.to_nat (k / 1440 + 1) <= fuel)%nat ->
  let tr := trigger_at (day_back (getDayNumber day) (t - k)) ((t - k) mod 1440) in
  scheduleResult E (log ++ [Schedule title body tr]) = Ret id ->
  scheduleIf E fuel title body day time (Int k) ids log
  = (Ret (ids ++ [id]), log ++ [Schedule title body tr]).
Proof.
  intros Hday Ht Hr Hk Hfuel tr Hid. unfold scheduleIf, mbind, lift.
  rewrite (getWeeklyTrigger_value fuel day time t k Hday Ht Hr Hk Hfuel).
  fold tr. unfold scheduleNotificationAsync, perform, ret. now rewrite Hid.
Qed.

Lemma trigger_same_day d m :
  (0 <= d < 7)%Z -> (0 <= m < 1440)%Z ->
  trigger_at (day_back d (m - 0)) ((m - 0) mod 1440) = trigger_at d m.
Proof.
  intros Hd Hm. unfold day_back. rewrite Z.sub_0_r.
  rewrite (Z.div_small m 1440), (Z.mod_small m 1440) by lia.
  now rewrite Z.add_0_r, Z.mod_small by lia.
Qed.

Lemma scheduleIf_same_day fuel title body day time t ids log id :
  In day weekdayNames -> timeToMinutes time = Int t -> (0 <= t < 1440)%Z ->
  (1 <= fuel)%nat ->
  scheduleResult E (log ++ [Schedule title body (trigger_at (getDayNumber day) t)])
  = Ret id ->
  scheduleIf E fuel title body day time (Int 0) ids log
  = (Ret (ids ++ [id]),
     log ++ [Schedule title body (trigger_at (getDayNumber day) t)]).
Proof.
  intros Hday Ht Hr Hfuel Hid.
  pose proof (getDayNumber_canonical _ Hday) as Hd.
  rewrite <- (trigger_same_day _ t Hd Hr) in *.
  apply scheduleIf_run; try assumption. lia.
Qed.

Lemma scheduleRoutineNotifications_denied fuel item lead log :
  permissions E (log ++ [GetPermissions]) = (false, false) ->
  requested E ((log ++ [GetPermissions]) ++ [RequestPermissions]) = (false, false) ->
  scheduleRoutineNotifications E fuel item lead log
  = (Ret None, (log ++ [GetPermissions]) ++ [RequestPermissions]).
Proof.
  intros Hp Hr. unfold scheduleRoutineNotifications, ensureNotificationPermission.
  unfold mbind at 1. unfold mbind at 1. unfold perform at 1. rewrite Hp.
  cbn [fst snd orb]. unfold mbind at 1. unfold perform at 1. rewrite Hr.
  reflexivity.
Qed.

(** X9.  Without the permission, [scheduleRoutineNotifications] asks
    for it, schedules nothing and returns [null].  With it, for an item
    on a canonical weekday with valid times and a lead from 1 to [2^53]
    minutes, it issues three schedule calls in this order: the lead
    reminder (on an earlier day when the lead reaches back over
    midnight), the start and the end, all with the same body; and when
    the three calls succeed it returns the three identifiers that they
    gave, in that order. *)
Theorem scheduleRoutineNotifications_calls fuel item log :
  (forall lead,
     permissions E (log ++ [GetPermissions]) = (false, false) ->
     requested E ((log ++ [GetPermissions]) ++ [RequestPermissions]) = (false, false) ->
     scheduleRoutineNotifications E fuel item lead log
     = (Ret None, (log ++ [GetPermissions]) ++ [RequestPermissions]))
  /\ (forall s e k,
        fst (permissions E (log ++ [GetPermissions])) = true ->
        In (r_day item) weekdayNames ->
        timeToMinutes (r_startTime item) = Int s -> (0 <= s < 1440)%Z ->
        timeToMinutes (r_endTime item) = Int e -> (0 <= e < 1440)%Z ->
        (0 < k <= 2 ^ 53)%Z -> (Z.to_nat (k / 1440 + 1) <= fuel)%nat ->
        let d := getDayNumber (r_day item) in
        let first := log ++ [GetPermissions;
                             Schedule (str "Upcoming routine: " ++ r_title item)
                               (reminder_body item)
                               (trigger_at (day_back d (s - k)) ((s - k) mod 1440))] in
        let second := first ++ [Schedule (str "Start now: " ++ r_title item)
                                  (reminder_body item) (trigger_at d s)] in
        let third := second ++ [Schedule (str "Ended: " ++ r_title item)
                                  (reminder_body item) (trigger_at d e)] in
        forall id1 id2 id3,
          scheduleResult E first = Ret id1 ->
          scheduleResult E second = Ret id2 ->
          scheduleResult E third = Ret id3 ->
          scheduleRoutineNotifications E fuel item (Int k) log
          = (Ret (Some [id1; id2; id3]), third)).
Proof.
  split.
  - intros lead. apply scheduleRoutineNotifications_denied.
  - intros s e k Hp Hday Hs Hsr He Her Hk Hfuel d first second third
           id1 id2 id3 H1 H2 H3.
    pose proof (getDayNumber_canonical _ Hday) as Hd. fold d in Hd.
    set (body := reminder_body item) in *.
    set (c1 := Schedule (str "Upcoming routine: " ++ r_title item) body
                 (trigger_at (day_back d (s - k)) ((s - k) mod 1440))) in *.
    set (c2 := Schedule (str "Start now: " ++ r_title item) body (trigger_at d s))
      in *.
    set (c3 := Schedule (str "Ended: " ++ r_title item) body (trigger_at d e)) in *.
    set (l0 := log ++ [GetPermissions]) in *.
    assert (E1 : first = l0 ++ [c1])
      by (unfold first, l0; now rewrite <- app_assoc).
    assert (E2 : second = (l0 ++ [c1]) ++ [c2]) by (unfold second; now rewrite E1).
    assert (E3 : third = ((l0 ++ [c1]) ++ [c2]) ++ [c3])
      by (unfold third; now rewrite E2).
    rewrite E1 in H1. rewrite E2 in H2. rewrite E3 in H3. rewrite E3.
    assert (Hf1 : (1 <= fuel)%nat).
    { assert (0 <= k / 1440)%Z by (apply Z.div_pos; lia). lia. }
    assert (Hperm : ensureNotificationPermission E log = (Ret true, l0)).
    { unfold ensureNotificationPermission, mbind, perform. fold l0.
      destruct (permissions E l0) as [granted provisional]. cbn [fst] in Hp.
      subst granted. reflexivity. }
    unfold scheduleRoutineNotifications.
    rewrite (mbind_run _ _ log true l0 Hperm). cbn [negb].
    fold (reminder_body item). fold body.
    unfold ngt. rewrite nlt_Int.
    replace (0 <? k)%Z with true by (symmetry; apply Z.ltb_lt; lia).
    rewrite (mbind_run _ _ l0 _ _
               (scheduleIf_run fuel _ body _ _ s k [] l0 id1 Hday Hs Hsr
                  ltac:(lia) Hfuel H1)).
    rewrite (mbind_run _ _ _ _ _
               (scheduleIf_same_day fuel _ body _ _ s ([] ++ [id1]) (l0 ++ [c1]) id2
                  Hday Hs Hsr Hf1 H2)).
    rewrite (mbind_run _ _ _ _ _
               (scheduleIf_same_day fuel _ body _ _ e (([] ++ [id1]) ++ [id2])
                  ((l0 ++ [c1]) ++ [c2]) id3 Hday He Her Hf1 H3)).
    reflexivity.
Qed.

(** A form that [saveItem] turns down. *)
Definition form_rejected (st : screen) : bool :=
  is_empty (trim (f_title st))
  || negb (validTime (trim (f_startTime st)))
  || negb (validTime (trim (f_endTime st)))
  || nle (timeToMinutes (trim (f_endTime st))) (timeToMinutes (trim (f_startTime st))).

(** Calls that reach the notification service to ask or to schedule. *)
Definition quiet (c : call) : Prop :=
  match c with
  | GetPermissions | RequestPermissions | Schedule _ _ _ => False
  | _ => True
  end.

Lemma cancelRoutineNotifications_quiet item :
  emits quiet (cancelRoutineNotifications E item).
Proof.
  unfold cancelRoutineNotifications.
  induction (getRoutineNotificationIds item) as [|id ids IH]; cbn [forEach];
    [apply emits_ret|].
  apply emits_mbind; [|intros _; exact IH].
  intro log. unfold catch_ignore, cancelScheduledNotificationAsync, perform.
  exists [Cancel id].
  destruct (cancelResult E (log ++ [Cancel id])); (split; [reflexivity|]);
    repeat constructor.
Qed.

(** X8.  [saveItem] answers a form with a blank title, an invalid time
    or an end that is not after the start with one alert and nothing
    else: nothing is cancelled, scheduled or saved.  And a save with
    reminders switched off never asks for the permission and never
    schedules. *)
Theorem saveItem_guards fuel st log :
  (form_rejected st = true ->
   exists title message,
     saveItem E fuel st log = (Ret tt, log ++ [Alert title message]))
  /\ (f_reminderEnabled st = false ->
      exists calls, snd (saveItem E fuel st log) = log ++ calls /\ Forall quiet calls).
Proof.
  split.
  - unfold form_rejected, saveItem. intro H.
    destruct (is_empty (trim (f_title st))); [now eexists; eexists|].
    destruct (negb (validTime (trim (f_startTime st)))
              || negb (validTime (trim (f_endTime st)))) eqn:Ev.
    { now eexists; eexists. }
    apply orb_false_iff in Ev as [Ev1 Ev2]. rewrite Ev1, Ev2 in H. cbn [orb] in H.
    rewrite H. now eexists; eexists.
  - intro Hoff. revert log.
    change (emits quiet (saveItem E fuel st)).
    assert (Halert : forall t m, emits quiet (alert t m))
      by (intros; now apply emits_perform).
    assert (Hfor : forall item, emits quiet (scheduleFor E fuel st item)).
    { intro item. unfold scheduleFor. rewrite Hoff. apply emits_ret. }
    assert (Htail : forall next,
      emits quiet (persistRoutine E next ;;;
                   perform HapticSelection (fun _ => Ret tt) ;;;
                   perform CloseModal (fun _ => Ret tt))).
    { intro next. apply emits_mbind; [now apply emits_perform|]. intros _.
      apply emits_mbind; [now apply emits_perform|]. intros _.
      now apply emits_perform. }
    unfold saveItem.
    destruct (is_empty _); [apply Halert|].
    destruct (_ || _); [apply Halert|].
    destruct (nle _ _); [apply Halert|].
    destruct (editingId st) as [[|c e]|].
    + apply emits_mbind; [apply Hfor | intros; apply Htail].
    + destruct (find _ _) as [prev|]; [|apply emits_ret].
      apply emits_mbind; [apply cancelRoutineNotifications_quiet|]. intros _.
      apply emits_mbind; [apply Hfor | intros; apply Htail].
    + apply emits_mbind; [apply Hfor | intros; apply Htail].
Qed.

(** X10.  Switching the reminder of an item off cancels each of its
    stored notifications, whatever the cancellations answer, and then
    saves the list, sorted, with that item's reminder members cleared,
    so that no identifier is left on it.  Switching it on without the permission
    ends in an alert and saves nothing. *)
Theorem toggleReminder_calls fuel items lead item log :
  ((forall l, cancelResult E l <> Unfinished) ->
   let next := map (fun i => if jseq (r_id i) (r_id item)
                             then withReminder i 0 [] None else i) items in
   let log' := log ++ HapticSelection
                 :: map Cancel (getRoutineNotificationIds item)
                 ++ [Persist (sortRoutine E next)] in
   toggleReminder E fuel items lead item false log = (persistResult E log', log')
   /\ forall i, In i next -> r_id i = r_id item ->
        getRoutineNotificationIds i = [] /\ r_reminderEnabled i = 0%Z)
  /\ (permissions E ((log ++ [HapticSelection]) ++ [GetPermissions]) = (false, false) ->
      requested E (((log ++ [HapticSelection]) ++ [GetPermissions])
                   ++ [RequestPermissions]) = (false, false) ->
      toggleReminder E fuel items lead item true log
      = (Ret tt,
         log ++ [HapticSelection; GetPermissions; RequestPermissions;
                 Alert (str "Reminder disabled")
                       (str "Notification permission not granted.")])).
Proof.
  split.
  - intros Hsettle next log'. split.
    + unfold toggleReminder. cbn [negb].
      unfold mbind at 1. unfold perform at 1.
      rewrite (mbind_run _ _ _ tt _
                 (cancelRoutineNotifications_log E item (log ++ [HapticSelection]) Hsettle)).
      unfold persistRoutine, perform. fold next.
      replace (((log ++ [HapticSelection]) ++ map Cancel (getRoutineNotificationIds item))
               ++ [Persist (sortRoutine E next)]) with log'; [reflexivity|].
      unfold log'. rewrite <- !app_assoc. reflexivity.
    + intros i Hi Hid. unfold next in Hi. apply in_map_iff in Hi as (j & <- & _).
      destruct (jseq (r_id j) (r_id item)) eqn:Ej; [split; reflexivity|].
      exfalso. rewrite Hid in Ej.
      assert (Ht : jseq (r_id item) (r_id item) = true) by now apply jseq_spec.
      congruence.
  - intros Hp Hr. unfold toggleReminder. cbn [negb].
    unfold mbind at 1. unfold perform at 1.
    pose proof (scheduleRoutineNotifications_denied fuel item lead
                  (log ++ [HapticSelection]) Hp Hr) as Hs.
    rewrite (mbind_run _ _ _ _ _ Hs).
    unfold alert, perform. rewrite <- !app_assoc. reflexivity.
Qed.

End RoutineReminders.

Definition env_denied : Routine.env :=
  {| Routine.permissions := fun _ => (false, false);
     Routine.requested := fun _ => (false, false);
     Routine.cancelResult := fun _ => Ret tt;
     Routine.scheduleResult := fun _ => Ret (str "n");
     Routine.persistResult := fun _ => Ret tt;
     Routine.sortRoutine := sortWeek;
     Routine.now := 1700000000000 |}.

Lemma scheduleRoutineNotifications_calls_witness :
  Routine.scheduleRoutineNotifications env_denied 0 gym_item (Int 15) []
  = (Ret None, [Routine.GetPermissions; Routine.RequestPermissions])
  /\ Routine.scheduleRoutineNotifications env_cancel_fails 1 gym_item (Int 15) []
     = (Ret (Some [str "n2"; str "n3"; str "n4"]),
        [Routine.GetPermissions;
         Routine.Schedule (str "Upcoming routine: Gym") (str "Monday 07:00 - 08:00")
           (Trigger CALENDAR 2 (Int 6) (Int 45) (Some true));
         Routine.Schedule (str "Start now: Gym") (str "Monday 07:00 - 08:00")
           (Trigger CALENDAR 2 (Int 7) (Int 0) (Some true));
         Routine.Schedule (str "Ended: Gym") (str "Monday 07:00 - 08:00")
           (Trigger CALENDAR 2 (Int 8) (Int 0) (Some true))]).
Proof.
  split.
  - apply (proj1 (scheduleRoutineNotifications_calls env_denied 0 gym_item []));
      reflexivity.
  - apply (proj2 (scheduleRoutineNotifications_calls env_cancel_fails 1 gym_item [])
             420%Z 480%Z 15%Z); try reflexivity; try lia.
    cbn. tauto.
Defined.

Definition form_blank_title : Routine.screen :=
  {| Routine.items := [gym_item]; Routine.editingId := None;
     Routine.f_title := str "  "; Routine.formDay := str "Tue";
     Routine.f_startTime := str "07:30"; Routine.f_endTime := str "08:30";
     Routine.f_notes := []; Routine.f_reminderEnabled := true;
     Routine.reminderLeadTime := Int 15 |}.

Definition form_quiet : Routine.screen :=
  {| Routine.items := [gym_item]; Routine.editingId := Some (str "1");
     Routine.f_title := str "Gym"; Routine.formDay := str "Tue";
     Routine.f_startTime := str "07:30"; Routine.f_endTime := str "08:30";
     Routine.f_notes := []; Routine.f_reminderEnabled := false;
     Routine.reminderLeadTime := Int 15 |}.

Lemma saveItem_guards_witness :
  (exists title message,
     Routine.saveItem env_cancel_fails 0 form_blank_title []
     = (Ret tt, [] ++ [Routine.Alert title message]))
  /\ exists calls,
       snd (Routine.saveItem env_cancel_fails 0 form_quiet []) = [] ++ calls
       /\ Forall quiet calls.
Proof.
  split.
  - apply (proj1 (saveItem_guards env_cancel_fails 0 form_blank_title [])).
    reflexivity.
  - apply (proj2 (saveItem_guards env_cancel_fails 0 form_quiet [])).
    reflexivity.
Defined.

Lemma toggleReminder_calls_witness :
  RoutineForm.toggleReminder env_cancel_fails 0 [gym_item] (Int 15) gym_item false []
  = (Ret tt,
     [Routine.HapticSelection; Routine.Cancel (str "a"); Routine.Cancel (str "b");
      Routine.Persist [RoutineForm.withReminder gym_item 0 [] None]])
  /\ RoutineForm.toggleReminder env_denied 0 [gym_item] (Int 15) gym_item true []
     = (Ret tt,
        [Routine.HapticSelection; Routine.GetPermissions; Routine.RequestPermissions;
         Routine.Alert (str "Reminder disabled")
           (str "Notification permission not granted.")]).
Proof.
  split.
  - apply (proj1 (toggleReminder_calls env_cancel_fails 0 [gym_item] (Int 15)
                    gym_item [])). discriminate.
  - apply (proj2 (toggleReminder_calls env_denied 0 [gym_item] (Int 15)
                    gym_item [])); reflexivity.
Defined.

(** ** Reminders of the lecture path *)



Section LectureReminders.
Import ScheduleContext.
Local Open Scope effect_scope.

Variable E : env.


End LectureReminders.



(** ** The JSON import screen *)

Section JsonScreen.
Import ImportScreen.

Variable exotic : number -> jsstring.
Variable stackDepth : nat.
Variable JSON_parse : jsstring -> outcome json.
Variable importResult : list call -> outcome unit.

Let handle := handleImportJson exotic stackDepth JSON_parse importResult.
Let parsed := parseJsonLectures exotic stackDepth JSON_parse.

(** X12.  [handleImportJson] never throws.  On a blank text it only
    alerts; otherwise it sets the importing flag, and resets it at the
    end whatever happened in between: a failed parse is reported and
    nothing is stored; a failed store is reported and not celebrated; a
    successful one is followed by the haptic and the alert with the
    number of lectures. *)
Theorem handleImportJson_outcomes jsonText log :
  (is_empty (trim jsonText) = true ->
   handle jsonText log = (Ret tt, log ++ [AlertEmpty]))
  /\ (is_empty (trim jsonText) = false ->
      (forall e, parsed (trim jsonText) = Throw e ->
         handle jsonText log
         = (Ret tt, log ++ [SetImporting true; AlertImportFailed e; SetImporting false]))
      /\ (forall lectures e,
            parsed (trim jsonText) = Ret lectures ->
            importResult (log ++ [SetImporting true; ImportLectures lectures]) = Throw e ->
            handle jsonText log
            = (Ret tt, log ++ [SetImporting true; ImportLectures lectures;
                               AlertImportFailed e; SetImporting false]))
      /\ (forall lectures,
            parsed (trim jsonText) = Ret lectures ->
            importResult (log ++ [SetImporting true; ImportLectures lectures]) = Ret tt ->
            handle jsonText log
            = (Ret tt, log ++ [SetImporting true; ImportLectures lectures;
                               HapticSuccess; AlertImported (length lectures);
                               SetImporting false]))).
Proof.
  unfold handle, parsed. split.
  - intro H. unfold handleImportJson. now rewrite H.
  - intro H. split; [|split].
    + intros e He. now apply handleImportJson_failed.
    + intros lectures e Hp Hi. unfold handleImportJson. rewrite H.
      unfold mbind, perform, finally, try_catch, lift. rewrite Hp.
      rewrite <- ?app_assoc. cbn [app]. rewrite Hi. cbn [snd].
      rewrite <- ?app_assoc. reflexivity.
    + intros lectures Hp Hi. unfold handleImportJson. rewrite H.
      unfold mbind, perform, finally, try_catch, lift. rewrite Hp.
      rewrite <- ?app_assoc. cbn [app]. rewrite Hi. cbn [snd].
      rewrite <- ?app_assoc. reflexivity.
Qed.

End JsonScreen.

Lemma handleImportJson_outcomes_witness :
  ImportScreen.handleImportJson no_exotic 8
    (parse_to (ImportScreen.JArr [item_monday])) (fun _ => Throw (Rejected (str "disk")))
    (str " [...] ") []
  = (Ret tt,
     [ImportScreen.SetImporting true;
      ImportScreen.ImportLectures [lecture_of item_monday];
      ImportScreen.AlertImportFailed (Rejected (str "disk"));
      ImportScreen.SetImporting false]).
Proof.
  apply (proj1 (proj2 (proj2 (handleImportJson_outcomes no_exotic 8
           (parse_to (ImportScreen.JArr [item_monday]))
           (fun _ => Throw (Rejected (str "disk"))) (str " [...] ") []) eq_refl)));
    reflexivity.
Defined.

(** ** The semester of the timetable *)

Definition semester_digit (c : N) : bool := (49 <=? c)%N && (c <=? 56)%N.

Lemma search_semesterDigit s : forall i,
  match search ImportScreen.re_semesterDigit i s with
  | Some m => exists c, find semester_digit s = Some c /\ group_text m 1 = [c]
  | None => find semester_digit s = None
  end.
Proof.
  induction s as [|c s IH]; intro i.
  - reflexivity.
  - cbn [search find]. unfold match_at, ImportScreen.re_semesterDigit.
    cbn [mt rest pos caps]. fold (semester_digit c).
    destruct (semester_digit c).
    + exists c. split; [reflexivity|].
      unfold group_text, group. cbn [groups assoc_nat Nat.eqb].
      replace (S i - i)%nat with 1%nat by lia. reflexivity.
    + apply IH.
Qed.

(** X13.  [parseSemesterNumber] reads the first character between [1]
    and [8] of its argument, wherever it stands, and gives [null] when
    there is none; its result is thus always between 1 and 8. *)
Theorem parseSemesterNumber_first_digit value :
  ImportScreen.parseSemesterNumber value
  = option_map digit_val (find semester_digit value)
  /\ forall n, ImportScreen.parseSemesterNumber value = Some n -> (1 <= n <= 8)%Z.
Proof.
  assert (H : ImportScreen.parseSemesterNumber value
              = option_map digit_val (find semester_digit value)).
  { unfold ImportScreen.parseSemesterNumber, exec.
    pose proof (search_semesterDigit value 0) as Hs.
    destruct (search ImportScreen.re_semesterDigit 0 value) as [m|].
    - destruct Hs as (c & Hf & ->). rewrite Hf. cbn [option_map].
      apply find_some in Hf as [_ Hc].
      assert (Hd : In c [49; 50; 51; 52; 53; 54; 55; 56]%N).
      { unfold semester_digit in Hc. apply andb_true_iff in Hc as [H1 H2].
        apply N.leb_le in H1, H2. cbn. lia. }
      cbn in Hd.
      repeat (destruct Hd as [<-|Hd]; [reflexivity|]). destruct Hd.
    - now rewrite Hs. }
  split; [exact H|]. intros n Hn. rewrite H in Hn.
  destruct (find semester_digit value) as [c|] eqn:Hf; [|discriminate].
  injection Hn as <-. apply find_some in Hf as [_ Hc].
  unfold semester_digit in Hc. apply andb_true_iff in Hc as [H1 H2].
  apply N.leb_le in H1, H2. unfold digit_val. lia.
Qed.

Lemma parseSemesterNumber_first_digit_witness :
  ImportScreen.parseSemesterNumber (str "Semester 10, 5th") = Some 1%Z
  /\ (1 <= 1 <= 8)%Z.
Proof.
  split; [reflexivity|].
  apply (proj2 (parseSemesterNumber_first_digit (str "Semester 10, 5th"))).
  reflexivity.
Defined.

(** ** Normalised tokens *)

Lemma trimEnd_cons c s :
  trimEnd (c :: s)
  = match trimEnd s with
    | [] => if is_space c then [] else [c]
    | t => c :: t
    end.
Proof.
  unfold trimEnd. cbn [rev].
  destruct (trimStart (rev s)) as [|d t] eqn:E.
  - rewrite trimStart_blank by now apply trimStart_blank_or.
    cbn [rev trimStart]. now destruct (is_space c).
  - rewrite trimStart_app by (rewrite E; discriminate). rewrite E.
    rewrite rev_app_distr. cbn [rev app].
    destruct (rev t ++ [d]) eqn:E2; [now destruct (rev t)|]. reflexivity.
Qed.

(** [tidy b s]: the text [s] holds no control character and no white
    space but single spaces, none of them first when [b] is set. *)
Inductive tidy : bool -> jsstring -> Prop :=
| tidy_nil b : tidy b []
| tidy_char b c s :
    is_space c = false -> (31 < c)%N -> tidy false s -> tidy b (c :: s)
| tidy_space s : tidy true s -> tidy false (32%N :: s).

Lemma tidy_weaken b s : tidy b s -> tidy false s.
Proof.
  destruct 1; [constructor | now apply tidy_char | now apply tidy_space].
Qed.

Lemma collapseSpaces_tidy s : forall b,
  Forall (fun c => (31 < c)%N) s -> tidy b (ImportScreen.collapseSpaces b s).
Proof.
  induction s as [|c s IH]; intros b H; cbn [ImportScreen.collapseSpaces];
    [constructor|].
  inversion H as [|? ? Hc Hs]; subst.
  destruct (is_space c) eqn:Ec.
  - destruct b; [now apply IH|]. apply tidy_space. now apply IH.
  - apply tidy_char; [exact Ec | exact Hc | now apply IH].
Qed.

Lemma collapseSpaces_fixed b s : tidy b s -> ImportScreen.collapseSpaces b s = s.
Proof.
  induction 1 as [b | b c s Hc _ _ IH | s _ IH]; cbn [ImportScreen.collapseSpaces].
  - reflexivity.
  - now rewrite Hc, IH.
  - change (is_space 32) with true. cbv iota. now rewrite IH.
Qed.

Lemma tidy_printable b s : tidy b s -> Forall (fun c => (31 < c)%N) s.
Proof. induction 1; constructor; try assumption; lia. Qed.

Lemma tidy_trimStart s : tidy false s -> tidy true (trimStart s) /\ trimStart (trimStart s) = trimStart s.
Proof.
  intro H. inversion H as [b | b c s' Hc Hp Hs | s' Hs]; subst.
  - split; [constructor | reflexivity].
  - cbn [trimStart]. rewrite Hc. split; [now apply tidy_char|].
    cbn [trimStart]. now rewrite Hc.
  - cbn [trimStart]. change (is_space 32) with true. cbv iota.
    inversion Hs as [b | b c s'' Hc Hp Hs' | ]; subst.
    + split; [constructor | reflexivity].
    + cbn [trimStart]. rewrite Hc. split; [now apply tidy_char|].
      cbn [trimStart]. now rewrite Hc.
Qed.

Lemma tidy_trimEnd b s : tidy b s -> tidy b (trimEnd s).
Proof.
  induction 1 as [b | b c s Hc Hp Hs IH | s Hs IH].
  - constructor.
  - rewrite trimEnd_cons.
    destruct (trimEnd s) as [|d t]; rewrite ?Hc; apply tidy_char;
      try assumption; constructor.
  - rewrite trimEnd_cons. change (is_space 32) with true. cbv iota.
    destruct (trimEnd s) as [|d t]; [constructor | now apply tidy_space].
Qed.

Lemma trimEnd_idem s : trimEnd (trimEnd s) = trimEnd s.
Proof.
  induction s as [|c s IH]; [reflexivity|].
  rewrite trimEnd_cons. destruct (trimEnd s) as [|d t] eqn:E.
  - destruct (is_space c) eqn:Ec; [reflexivity|].
    rewrite trimEnd_cons. change (trimEnd []) with (@nil N). cbv iota.
    now rewrite Ec.
  - rewrite trimEnd_cons, IH. reflexivity.
Qed.

Lemma trimStart_trimEnd s :
  trimStart s = s -> trimStart (trimEnd s) = trimEnd s.
Proof.
  destruct s as [|c s]; [reflexivity|]. cbn [trimStart].
  destruct (is_space c) eqn:Ec.
  - intro H. exfalso.
    assert (Hl : (length (trimStart s) <= length s)%nat).
    { clear. induction s as [|d s IH]; cbn [trimStart length]; [lia|].
      destruct (is_space d); cbn [length]; lia. }
    rewrite H in Hl. cbn [length] in Hl. lia.
  - intros _. rewrite trimEnd_cons.
    destruct (trimEnd s); rewrite ?Ec; cbn [trimStart]; now rewrite Ec.
Qed.

Lemma trim_idem s : trim (trim s) = trim s.
Proof.
  unfold trim.
  assert (H : trimStart (trimStart s) = trimStart s).
  { induction s as [|c s IH]; [reflexivity|]. cbn [trimStart].
    destruct (is_space c) eqn:Ec; [exact IH|]. cbn [trimStart]. now rewrite Ec. }
  rewrite (trimStart_trimEnd _ H). apply trimEnd_idem.
Qed.

Lemma printable_map v :
  Forall (fun c => (31 < c)%N) (map (fun c => if (c <=? 31)%N then 32%N else c) v).
Proof.
  induction v as [|c v IH]; cbn [map]; constructor; [|exact IH].
  destruct (c <=? 31)%N eqn:E; [lia | now apply N.leb_gt in E].
Qed.

Lemma printable_fixed s :
  Forall (fun c => (31 < c)%N) s ->
  map (fun c => if (c <=? 31)%N then 32%N else c) s = s.
Proof.
  induction 1 as [|c s Hc _ IH]; cbn [map]; [reflexivity|].
  replace (c <=? 31)%N with false by (symmetry; apply N.leb_gt; lia).
  now rewrite IH.
Qed.

Lemma normalizeTextToken_tidy v : tidy true (ImportScreen.normalizeTextToken v).
Proof.
  unfold ImportScreen.normalizeTextToken, trim.
  apply tidy_trimEnd. apply tidy_trimStart.
  apply collapseSpaces_tidy, printable_map.
Qed.

Lemma normalizeTextToken_idem v :
  ImportScreen.normalizeTextToken (ImportScreen.normalizeTextToken v)
  = ImportScreen.normalizeTextToken v.
Proof.
  pose proof (normalizeTextToken_tidy v) as Ht.
  set (t := ImportScreen.normalizeTextToken v) in *.
  unfold ImportScreen.normalizeTextToken at 1.
  rewrite (printable_fixed t (tidy_printable _ _ Ht)).
  rewrite (collapseSpaces_fixed false t (tidy_weaken _ _ Ht)).
  unfold t, ImportScreen.normalizeTextToken. apply trim_idem.
Qed.

(** In a tidy text no two spaces stand side by side. *)
Lemma tidy_single_spaces b s :
  tidy b s ->
  forall pre c d post, s = pre ++ c :: d :: post ->
    is_space c = true -> is_space d = false.
Proof.
  induction 1 as [b | b c s Hc Hp Hs IH | s Hs IH]; intros pre x y post E Hx.
  - now destruct pre.
  - destruct pre as [|p pre]; cbn [app] in E; injection E as -> E.
    + congruence.
    + now apply (IH pre x y post).
  - destruct pre as [|p pre]; cbn [app] in E; injection E as <- E.
    + subst s. inversion Hs; subst. assumption.
    + now apply (IH pre x y post).
Qed.

Lemma tidy_spaces b s :
  tidy b s ->
  Forall (fun c => (31 < c)%N /\ (is_space c = true -> c = 32%N)) s.
Proof.
  induction 1 as [b | b c s Hc Hp Hs IH | s Hs IH].
  - constructor.
  - constructor; [|exact IH]. split; [assumption | intro; congruence].
  - constructor; [|exact IH]. split; [lia | reflexivity].
Qed.

(** X14.  A token that [normalizeTextToken] returns holds no control
    character, neither starts nor ends with white space, and has no
    white space but single spaces; normalising it again changes
    nothing. *)
Theorem normalizeTextToken_normal v :
  let t := ImportScreen.normalizeTextToken v in
  ImportScreen.normalizeTextToken t = t
  /\ trim t = t
  /\ Forall (fun c => (31 < c)%N /\ (is_space c = true -> c = 32%N)) t
  /\ (forall pre c d post, t = pre ++ c :: d :: post ->
        is_space c = true -> is_space d = false).
Proof.
  intro t. pose proof (normalizeTextToken_tidy v) as Ht. fold t in Ht.
  split; [apply normalizeTextToken_idem|]. split; [apply trim_idem|]. split.
  - now apply (tidy_spaces true).
  - now apply (tidy_single_spaces true).
Qed.

Lemma normalizeTextToken_normal_witness :
  ImportScreen.normalizeTextToken ([9; 32]%N ++ str "Data  Structures" ++ [10]%N)
  = str "Data Structures"
  /\ is_space (chr "S") = false.
Proof.
  split; [reflexivity|].
  apply (proj2 (proj2 (proj2 (normalizeTextToken_normal
           ([9; 32]%N ++ str "Data  Structures" ++ [10]%N))))
           (str "Data") 32%N (chr "S") (str "tructures")); reflexivity.
Defined.

(** ** Strings of the document format *)

(** A literal string as a writer of the format escapes it: a backslash
    before each backslash and each bracket. *)
Definition needs_escape (c : N) : bool :=
  (c =? chr "\")%N || (c =? chr "(")%N || (c =? chr ")")%N.

Definition escapeLiteral (s : jsstring) : jsstring :=
  flat_map (fun c => if needs_escape c then [chr "\"; c] else [c]) s.

Lemma decodeLiteralFrom_length raw : forall skip,
  (length (ImportScreen.decodeLiteralFrom skip raw) <= length raw)%nat.
Proof.
  induction raw as [|ch raw IH]; intro skip; cbn [ImportScreen.decodeLiteralFrom];
    [lia|].
  destruct skip as [|skip]; [|specialize (IH skip); cbn [length]; lia].
  destruct (negb (ch =? chr "\")%N).
  - specialize (IH 0%nat). cbn [length]. lia.
  - destruct raw as [|next after]; [cbn [length]; lia|].
    destruct (ImportScreen.is_octal next).
    + specialize (IH (length (ImportScreen.octal_run next after))).
      cbn [length] in *. lia.
    + specialize (IH 1%nat). cbn [length] in *. lia.
Qed.

(** X15.  [decodePdfLiteralString] undoes the escaping of the
    backslashes and parentheses of a literal string, leaves a text
    without backslash as it is, and never returns more characters than it
    was given. *)
Theorem decodePdfLiteralString_unescapes :
  (forall s, ImportScreen.decodePdfLiteralString (escapeLiteral s) = s)
  /\ (forall s, Forall (fun c => c <> chr "\") s ->
        ImportScreen.decodePdfLiteralString s = s)
  /\ (forall raw, (length (ImportScreen.decodePdfLiteralString raw) <= length raw)%nat).
Proof.
  unfold ImportScreen.decodePdfLiteralString. split; [|split].
  - induction s as [|c s IH]; [reflexivity|].
    unfold escapeLiteral in *. cbn [flat_map].
    set (tail := flat_map _ s) in *.
    destruct (needs_escape c) eqn:Ec.
    + cbn [app ImportScreen.decodeLiteralFrom].
      change (chr "\" =? chr "\")%N with true. cbn [negb].
      unfold needs_escape in Ec.
      assert (Hc : c = chr "\" \/ c = chr "(" \/ c = chr ")").
      { apply orb_true_iff in Ec as [Ec|Ec]; [apply orb_true_iff in Ec as [Ec|Ec]|];
          apply N.eqb_eq in Ec; tauto. }
      destruct Hc as [-> | [-> | ->]]; vm_compute (ImportScreen.is_octal _);
        cbv iota; vm_compute (ImportScreen.escapes _);
        cbn [ImportScreen.decodeLiteralFrom]; now rewrite IH.
    + cbn [app ImportScreen.decodeLiteralFrom].
      unfold needs_escape in Ec. apply orb_false_iff in Ec as [Ec _].
      apply orb_false_iff in Ec as [Ec _]. rewrite Ec. cbn [negb]. now rewrite IH.
  - induction 1 as [|c s Hc _ IH]; [reflexivity|].
    cbn [ImportScreen.decodeLiteralFrom].
    replace (c =? chr "\")%N with false by (symmetry; now apply N.eqb_neq).
    cbn [negb]. now rewrite IH.
  - intro raw. apply decodeLiteralFrom_length.
Qed.

Lemma decodePdfLiteralString_unescapes_witness :
  ImportScreen.decodePdfLiteralString (str "CS-301 (Lab)") = str "CS-301 (Lab)".
Proof.
  apply (proj1 (proj2 decodePdfLiteralString_unescapes)).
  repeat constructor; discriminate.
Defined.

(** Two hexadecimal digits for a byte, and the two bytes of a code unit
    in the UTF-16BE order. *)
Definition hex_digit (n : N) : N :=
  nth (N.to_nat n) (str "0123456789ABCDEF") 48%N.

Definition hexByte (b : N) : jsstring := [hex_digit (b / 16); hex_digit (b mod 16)].

Definition bigEndian (c : N) : list N := [(c / 256)%N; (c mod 256)%N].

Definition nibbles : list N := [0; 1; 2; 3; 4; 5; 6; 7; 8; 9; 10; 11; 12; 13; 14; 15]%N.

Lemma nibble_In n : (n < 16)%N -> In n nibbles.
Proof. intro H. cbn. lia. Qed.

Lemma hex_digit_ok n :
  (n < 16)%N -> is_hex_digit (hex_digit n) = true /\ hex_val (hex_digit n) = Z.of_N n.
Proof.
  intro H. apply nibble_In in H. cbn in H.
  repeat (destruct H as [<-|H]; [split; reflexivity|]). destruct H.
Qed.

Lemma hexByte_digits bytes :
  Forall (fun b => (b < 256)%N) bytes ->
  filter is_hex_digit (flat_map hexByte bytes) = flat_map hexByte bytes
  /\ ImportScreen.hexPairs (flat_map hexByte bytes) = bytes
  /\ length (flat_map hexByte bytes) = (2 * length bytes)%nat.
Proof.
  induction 1 as [|b bytes Hb _ (IH1 & IH2 & IH3)]; [repeat split|].
  assert (Hhi : (b / 16 < 16)%N) by (apply N.Div0.div_lt_upper_bound; lia).
  assert (Hlo : (b mod 16 < 16)%N) by (apply N.mod_lt; lia).
  destruct (hex_digit_ok _ Hhi) as [Hh1 Hv1].
  destruct (hex_digit_ok _ Hlo) as [Hh2 Hv2].
  cbn [flat_map hexByte app filter ImportScreen.hexPairs length].
  rewrite Hh1, Hh2, Hv1, Hv2, IH1, IH2, IH3. repeat split.
  - f_equal. pose proof (N.div_mod b 16 ltac:(lia)). lia.
  - lia.
Qed.

Lemma utf16be_bigEndian s :
  Forall (fun c => (c < 65536)%N) s ->
  ImportScreen.utf16be (flat_map bigEndian s) = s.
Proof.
  induction 1 as [|c s Hc _ IH]; [reflexivity|].
  cbn [flat_map bigEndian app ImportScreen.utf16be]. rewrite IH. f_equal.
  rewrite N.shiftl_mul_pow2. change (2 ^ 8)%N with 256%N.
  rewrite N.lor_comm.
  assert (Hd : N.land (c mod 256) (c / 256 * 256) = 0%N).
  { apply N.bits_inj_0. intro n. rewrite N.land_spec.
    change 256%N with (2 ^ 8)%N.
    destruct (N.lt_ge_cases n 8) as [Hn|Hn].
    - rewrite N.mul_pow2_bits_low by exact Hn. apply andb_false_r.
    - rewrite N.mod_pow2_bits_high by exact Hn. reflexivity. }
  rewrite <- N.lxor_lor, <- N.add_nocarry_lxor by exact Hd.
  pose proof (N.div_mod c 256 ltac:(lia)). lia.
Qed.

Lemma no_mark {A} (bytes : list N) (f : list N -> A) (g : A) :
  match bytes with 254%N :: 255%N :: _ => False | _ => True end ->
  match bytes with
  | 254%N :: 255%N :: bytes' => f bytes'
  | _ => g
  end = g.
Proof.
  intro H. destruct bytes as [|a bytes]; [reflexivity|].
  destruct a as [|p]; [reflexivity|].
  repeat (destruct p as [p|p|]; try reflexivity).
  destruct bytes as [|b bytes]; [reflexivity|].
  destruct b as [|q]; [reflexivity|].
  repeat (destruct q as [q|q|]; try reflexivity).
  destruct H.
Qed.

(** What [decodePdfHexString] does with the bytes a writer printed as
    pairs of hexadecimal digits. *)
Lemma decodePdfHexString_bytes argumentLimit bytes :
  Forall (fun b => (b < 256)%N) bytes -> bytes <> [] ->
  ImportScreen.decodePdfHexString argumentLimit (flat_map hexByte bytes)
  = match bytes with
    | 254%N :: 255%N :: bytes' => Ret (ImportScreen.utf16be bytes')
    | _ => ImportScreen.fromCharCodes argumentLimit bytes
    end.
Proof.
  intros Hb Hne. unfold ImportScreen.decodePdfHexString.
  destruct (hexByte_digits bytes Hb) as (H1 & H2 & H3).
  rewrite H1, H3.
  replace (2 * length bytes <? 2)%nat with false
    by (symmetry; apply Nat.ltb_ge; destruct bytes; [contradiction | cbn; lia]).
  replace (Nat.even (2 * length bytes)) with true
    by (symmetry; apply Nat.even_spec; now exists (length bytes)).
  now rewrite H2.
Qed.

(** X16.  [decodePdfHexString] reads back the bytes a writer printed as
    pairs of hexadecimal digits, whatever other characters stand among
    the digits, when there are no more of them than the engine accepts
    as arguments of a call; bytes that start with the mark [FE FF] are
    read as the UTF-16 code units they spell, however many they are. *)
Theorem decodePdfHexString_reads_bytes :
  (forall argumentLimit hex,
     ImportScreen.decodePdfHexString argumentLimit hex
     = ImportScreen.decodePdfHexString argumentLimit (filter is_hex_digit hex))
  /\ (forall argumentLimit bytes,
        Forall (fun b => (b < 256)%N) bytes -> bytes <> [] ->
        match bytes with 254%N :: 255%N :: _ => False | _ => True end ->
        (length bytes <= argumentLimit)%nat ->
        ImportScreen.decodePdfHexString argumentLimit (flat_map hexByte bytes)
        = Ret bytes)
  /\ (forall argumentLimit s,
        Forall (fun c => (c < 65536)%N) s ->
        ImportScreen.decodePdfHexString argumentLimit
          (flat_map hexByte (254%N :: 255%N :: flat_map bigEndian s)) = Ret s).
Proof.
  split; [|split].
  - intros argumentLimit hex. unfold ImportScreen.decodePdfHexString.
    assert (Hf : filter is_hex_digit (filter is_hex_digit hex) = filter is_hex_digit hex).
    { induction hex as [|c hex IH]; [reflexivity|]. cbn [filter].
      destruct (is_hex_digit c) eqn:Ec; [|exact IH]. cbn [filter]. now rewrite Ec, IH. }
    now rewrite Hf.
  - intros argumentLimit bytes Hb Hne Hbom Hlen.
    rewrite decodePdfHexString_bytes by assumption.
    rewrite no_mark by exact Hbom. unfold ImportScreen.fromCharCodes.
    apply Nat.leb_le in Hlen. now rewrite Hlen.
  - intros argumentLimit s Hs.
    rewrite decodePdfHexString_bytes; [now rewrite utf16be_bigEndian | | discriminate].
    constructor; [lia|]. constructor; [lia|].
    apply Forall_flat_map. eapply Forall_impl; [|exact Hs]. intros c Hc.
    cbn beta in Hc. unfold bigEndian.
    constructor; [apply N.Div0.div_lt_upper_bound; lia|].
    constructor; [apply N.mod_lt; lia | constructor].
Qed.

Lemma decodePdfHexString_reads_bytes_witness :
  ImportScreen.decodePdfHexString argument_limit (str "<48 69>") = Ret [72; 105]%N
  /\ ImportScreen.decodePdfHexString argument_limit (str "FEFF0041263A")
     = Ret [65; 9786]%N.
Proof.
  split.
  - rewrite (proj1 decodePdfHexString_reads_bytes).
    apply (proj1 (proj2 decodePdfHexString_reads_bytes) argument_limit [72; 105]%N);
      [repeat constructor; lia | discriminate | exact I
      | apply Nat.leb_le; vm_compute; reflexivity].
  - apply (proj2 (proj2 decodePdfHexString_reads_bytes) argument_limit [65; 9786]%N).
    repeat constructor; lia.
Defined.

(** X17.  Bytes pass unchanged through the binary text of the
    extractor, and what [binaryToBytes] returns are bytes whatever the
    text holds. *)
Theorem binary_round_trip :
  (forall bytes, Forall (fun b => (b < 256)%N) bytes ->
     ImportScreen.binaryToBytes (ImportScreen.bytesToBinary bytes) = bytes)
  /\ (forall binary, Forall (fun b => (b < 256)%N) (ImportScreen.binaryToBytes binary))
  /\ (forall binary, length (ImportScreen.binaryToBytes binary) = length binary).
Proof.
  unfold ImportScreen.binaryToBytes, ImportScreen.bytesToBinary.
  assert (Hland : forall c, N.land c 255 = (c mod 256)%N).
  { intro c. change 255%N with (N.ones 8). now rewrite N.land_ones. }
  split; [|split].
  - induction 1 as [|b bytes Hb _ IH]; [reflexivity|]. cbn [map].
    rewrite IH, Hland, N.mod_small by exact Hb. reflexivity.
  - intro binary. apply Forall_map. apply Forall_forall. intros c _.
    rewrite Hland. apply N.mod_lt. lia.
  - intro binary. apply length_map.
Qed.

Lemma binary_round_trip_witness :
  ImportScreen.binaryToBytes (ImportScreen.bytesToBinary [37; 80; 68; 70; 255]%N)
  = [37; 80; 68; 70; 255]%N.
Proof.
  apply (proj1 binary_round_trip). repeat constructor; lia.
Defined.

(** ** Tokens of a document *)

Definition normal_token (t : jsstring) : Prop :=
  t <> [] /\ ImportScreen.normalizeTextToken t = t.

Lemma push_token_normal v :
  Forall normal_token (ImportScreen.push_token (ImportScreen.normalizeTextToken v)).
Proof.
  unfold ImportScreen.push_token.
  destruct (ImportScreen.normalizeTextToken v) as [|c t] eqn:E; constructor;
    [|constructor].
  split; [discriminate|]. rewrite <- E. apply normalizeTextToken_idem.
Qed.

Lemma Forall_flat_map_intro {A B} (P : B -> Prop) (f : A -> list B) l :
  (forall a, Forall P (f a)) -> Forall P (flat_map f l).
Proof.
  intro H. induction l as [|a l IH]; cbn [flat_map]; [constructor|].
  apply Forall_app. split; [apply H | exact IH].
Qed.

Lemma mapM_Ret {A B} (P : B -> Prop) (f : A -> outcome B) : forall l out,
  (forall a b, f a = Ret b -> P b) -> mapM f l = Ret out -> Forall P out.
Proof.
  induction l as [|a l IH]; intros out Hf H; cbn [mapM] in H.
  - injection H as <-. constructor.
  - destruct (f a) as [b| |] eqn:Eb; try discriminate. cbn [bind] in H.
    destruct (mapM f l) as [bs| |]; try discriminate. cbn [bind] in H.
    injection H as <-. constructor; [now apply (Hf a) | now apply IH].
Qed.

Lemma Forall_concat_intro {A} (P : A -> Prop) (ls : list (list A)) :
  Forall (Forall P) ls -> Forall P (concat ls).
Proof.
  induction 1 as [|l ls Hl _ IH]; cbn [concat]; [constructor|].
  apply Forall_app. now split.
Qed.

Lemma blockTokens_normal argumentLimit block out :
  ImportScreen.blockTokens argumentLimit block = Ret out -> Forall normal_token out.
Proof.
  unfold ImportScreen.blockTokens. intro H.
  destruct (mapM _ _) as [arrays| |] eqn:Ea; try discriminate.
  cbn [bind] in H. injection H as <-. apply Forall_app. split.
  - apply Forall_concat_intro.
    refine (mapM_Ret _ _ _ _ _ Ea). intros m tokens Hm.
    unfold ImportScreen.arrayTokens in Hm. cbv zeta in Hm.
    match type of Hm with
    | bind ?decoded _ = _ => destruct decoded as [hexes| |]; try discriminate
    end.
    cbn [bind] in Hm. injection Hm as <-. apply push_token_normal.
  - apply Forall_flat_map_intro; intro m; apply push_token_normal.
Qed.

Section TokenExtraction.
Import ImportScreen.
Variable argumentLimit : nat.
Variable unzlibSync : list N -> option (list N).

Lemma streamLoop_normal fuel binary : forall i s tokens out,
  Forall normal_token tokens ->
  streamLoop argumentLimit unzlibSync fuel binary i s tokens = Ret out ->
  Forall normal_token out.
Proof.
  induction fuel as [|fuel IH]; intros i s tokens out Ht H; cbn [streamLoop] in H.
  - destruct (search re_stream i s); [discriminate|]. now injection H as <-.
  - destruct (search re_stream i s) as [m|]; [|now injection H as <-].
    destruct (streamTokens argumentLimit unzlibSync binary m) as [found| |] eqn:Ef;
      try discriminate.
    cbn [bind] in H. apply IH in H; [exact H|].
    unfold streamTokens in Ef.
    destruct (if test re_flate _ then _ else _);
      [|injection Ef as <-; exact Ht].
    destruct (mapM _ _) as [blocks| |] eqn:Eb; try discriminate.
    cbn [bind] in Ef. injection Ef as <-.
    apply Forall_app. split; [exact Ht|].
    apply Forall_concat_intro.
    apply (mapM_Ret _ _ _ _ (blockTokens_normal argumentLimit) Eb).
Qed.

(** X18.  Every token that [extractPdfTokens] returns is a text that is
    not empty and is in normal form: [normalizeTextToken] leaves it as
    it is. *)
Theorem extractPdfTokens_normal fuel pdfBytes tokens :
  extractPdfTokens argumentLimit unzlibSync fuel pdfBytes = Ret tokens ->
  Forall normal_token tokens.
Proof.
  unfold extractPdfTokens. apply streamLoop_normal. constructor.
Qed.

End TokenExtraction.

Lemma extractPdfTokens_normal_witness :
  Forall normal_token (map str ["5th Semester"; "Maths"; "CR-1"; "Monday"]%string).
Proof.
  apply (extractPdfTokens_normal argument_limit never_inflates 1 timetable_pdf).
  vm_compute. reflexivity.
Defined.

(** ** Lectures of a timetable *)

Lemma includes_In l s : includes l s = true <-> In s l.
Proof.
  unfold includes. rewrite existsb_exists. split.
  - intros (x & Hx & He). apply jseq_spec in He. now subst.
  - intro H. exists s. split; [exact H | now apply jseq_spec].
Qed.

Lemma daySegmentsFrom_days tokens : forall pending,
  Forall (fun segment => In (fst segment) ImportScreen.DAYS)
         (ImportScreen.daySegmentsFrom pending tokens).
Proof.
  induction tokens as [|t tokens IH]; intro pending;
    cbn [ImportScreen.daySegmentsFrom]; [constructor|].
  destruct (includes ImportScreen.DAYS t) eqn:E; [|apply IH].
  constructor; [now apply includes_In | apply IH].
Qed.

Section TimetableResults.
Import ImportScreen.

Variable targetSemester : Z.
Variable targetSection : jsstring.
Variable slotTimes : list (jsstring * jsstring).

(** What holds of every lecture the walk emits. *)
Definition well_formed (l : InsertLecture jsstring) : Prop :=
  In (day l) DAYS
  /\ In (startTime l, endTime l) slotTimes
  /\ reminderEnabled l = 0%Z
  /\ includes controlTokens (subject l) = false
  /\ test re_room (room l) = true
  /\ (teacher l = str "TBA" \/ test re_teacher (teacher l) = true).

Definition gathered (c : cursor) : Prop :=
  Forall well_formed (lectures c)
  /\ seen c = map lecture_key (lectures c)
  /\ NoDup (seen c).

Lemma takeLecture_gathered dayName token room teacher c :
  In dayName DAYS -> includes controlTokens token = false ->
  test re_room room = true ->
  (teacher = str "TBA" \/ test re_teacher teacher = true) ->
  gathered c ->
  gathered (takeLecture targetSemester targetSection slotTimes
              dayName token room teacher c).
Proof.
  intros Hday Htoken Hroom Hteacher (Hl & Hs & Hn).
  unfold takeLecture, gathered.
  destruct (_ && _); [|now cbn [lectures seen]].
  destruct (nth_error slotTimes (slotIndex c)) as [slot|] eqn:Eslot;
    [|now cbn [lectures seen]].
  destruct (includes (seen c) _) eqn:Eseen; [now cbn [lectures seen]|].
  cbn [lectures seen]. split; [|split].
  - apply Forall_app. split; [exact Hl|]. constructor; [|constructor].
    unfold well_formed. cbn [day startTime endTime reminderEnabled subject
                             ImportScreen.room ImportScreen.teacher].
    repeat split; try assumption.
    rewrite <- surjective_pairing. eapply nth_error_In, Eslot.
  - now rewrite map_app, Hs.
  - apply NoDup_app_remove_l with (l := []). cbn [app].
    rewrite <- (rev_involutive (seen c ++ _)). apply NoDup_rev.
    rewrite rev_app_distr. cbn [rev app]. constructor.
    + rewrite <- in_rev. intro Hin. apply includes_In in Hin. congruence.
    + now apply NoDup_rev.
Qed.

Lemma walk_gathered dayName tokens : forall skip c,
  In dayName DAYS -> gathered c ->
  gathered (walk targetSemester targetSection slotTimes dayName skip c tokens).
Proof.
  induction tokens as [|token after IH]; intros skip c Hday Hc; cbn [walk];
    [exact Hc|].
  destruct skip as [|skip]; [|now apply IH].
  destruct (if test re_SemesterEnd token then parseSemesterNumber token else None).
  { apply IH; [exact Hday|]. exact Hc. }
  destruct (is_section_code token).
  { apply IH; [exact Hday|]. exact Hc. }
  destruct (_ || _); [now apply IH|].
  destruct (includes controlTokens token || includes controlTokens (hd [] after)) eqn:Ec;
    [now apply IH|].
  apply orb_false_iff in Ec as [Ec _].
  destruct (negb (test re_room (hd [] after))) eqn:Er; [now apply IH|].
  apply negb_false_iff in Er.
  apply IH; [exact Hday|].
  apply takeLecture_gathered; try assumption.
  destruct (test re_teacher (hd [] (tl after))) eqn:Et; [now right | now left].
Qed.

Lemma walkSegments_gathered segments :
  Forall (fun segment => In (fst segment) DAYS) segments ->
  let result := walkSegments targetSemester targetSection slotTimes segments in
  Forall well_formed result /\ NoDup (map lecture_key result).
Proof.
  intro Hseg. unfold walkSegments.
  assert (H : forall c, gathered c ->
    gathered (fold_left (fun c segment =>
       walk targetSemester targetSection slotTimes (fst segment) 0
         {| currentSemester := 0; currentSection := []; sectionOrderIndex := 0;
            slotIndex := 0; lectures := lectures c; seen := seen c |}
         (snd segment)) segments c)).
  { induction Hseg as [|segment segments Hd _ IH]; intros c Hc; cbn [fold_left];
      [exact Hc|].
    apply IH. apply walk_gathered; [exact Hd | exact Hc]. }
  cbv zeta.
  match goal with
  | |- Forall _ (lectures ?c) /\ _ =>
      assert (Hg : gathered c) by (apply H; repeat split; constructor)
  end.
  destruct Hg as (Hl & Hs & Hn). split; [exact Hl | now rewrite <- Hs].
Qed.

End TimetableResults.

Lemma slotTable_six tokens : length (ImportScreen.slotTable tokens) = 6%nat.
Proof.
  unfold ImportScreen.slotTable.
  match goal with
  | |- context [firstn 6 ?l] => generalize l; intro slots
  end.
  destruct (Nat.leb 6 (length (firstn 6 slots))) eqn:E; [|reflexivity].
  apply Nat.leb_le in E. pose proof (firstn_le_length 6 slots). lia.
Qed.

(** X19.  [parseTimetablePdf] turns down a semester text without a
    digit from 1 to 8 before it looks at the document.  Every lecture it
    returns is on a weekday, in one of the six slots of the table, with
    the reminder off, a subject that is no control token, a room that
    reads as a room, and a teacher that either starts with a title or is
    ["TBA"]; and no two lectures of the result agree on all of day, slot,
    subject, room and teacher. *)
Theorem parseTimetablePdf_lectures argumentLimit unzlibSync fuel pdfBytes semesterInput
    sectionInput :
  (ImportScreen.parseSemesterNumber semesterInput = None ->
   ImportScreen.parseTimetablePdf argumentLimit unzlibSync fuel pdfBytes semesterInput sectionInput
   = Throw (Error (str "Invalid semester. Use 1 to 8 (example: 5th).")))
  /\ (forall result,
        ImportScreen.parseTimetablePdf argumentLimit unzlibSync fuel pdfBytes semesterInput sectionInput
        = Ret result ->
        exists tokens,
          ImportScreen.extractPdfTokens argumentLimit unzlibSync fuel pdfBytes = Ret tokens
          /\ length (ImportScreen.slotTable tokens) = 6%nat
          /\ Forall (well_formed (ImportScreen.slotTable tokens)) result
          /\ NoDup (map ImportScreen.lecture_key result)).
Proof.
  unfold ImportScreen.parseTimetablePdf. split.
  - now intros ->.
  - intros result H.
    destruct (ImportScreen.parseSemesterNumber semesterInput) as [sem|]; [|discriminate].
    destruct (ImportScreen.extractPdfTokens argumentLimit unzlibSync fuel pdfBytes) as [tokens| |];
      try discriminate.
    cbn [bind] in H. injection H as <-. exists tokens.
    split; [reflexivity|]. split; [apply slotTable_six|].
    unfold ImportScreen.timetableOfTokens.
    destruct tokens as [|t tokens]; [split; constructor|].
    apply walkSegments_gathered. apply daySegmentsFrom_days.
Qed.

Lemma parseTimetablePdf_lectures_witness :
  ImportScreen.parseTimetablePdf argument_limit never_inflates 1 timetable_pdf (str "fifth") []
  = Throw (Error (str "Invalid semester. Use 1 to 8 (example: 5th)."))
  /\ exists tokens,
       ImportScreen.extractPdfTokens argument_limit never_inflates 1 timetable_pdf = Ret tokens
       /\ length (ImportScreen.slotTable tokens) = 6%nat
       /\ Forall (well_formed (ImportScreen.slotTable tokens))
            [{| ImportScreen.day := str "Monday"; ImportScreen.subject := str "Maths";
                ImportScreen.room := str "CR-1"; ImportScreen.teacher := str "TBA";
                ImportScreen.startTime := str "08:00";
                ImportScreen.endTime := str "09:20";
                ImportScreen.reminderEnabled := 0 |}]
       /\ NoDup (map ImportScreen.lecture_key
            [{| ImportScreen.day := str "Monday"; ImportScreen.subject := str "Maths";
                ImportScreen.room := str "CR-1"; ImportScreen.teacher := str "TBA";
                ImportScreen.startTime := str "08:00";
                ImportScreen.endTime := str "09:20";
                ImportScreen.reminderEnabled := 0 |}]).
Proof.
  split.
  - apply (proj1 (parseTimetablePdf_lectures argument_limit never_inflates 1 timetable_pdf
                    (str "fifth") [])). reflexivity.
  - apply (proj2 (parseTimetablePdf_lectures argument_limit never_inflates 1 timetable_pdf
                    (str "5th") [])). vm_compute. reflexivity.
Defined.

(** ** Decimal texts of integers *)

Definition uint_chars (d : Decimal.uint) : jsstring :=
  str (DecimalString.NilEmpty.string_of_uint d).

Lemma uint_chars_digits d : Forall (fun c => is_digit c = true) (uint_chars d).
Proof. induction d; constructor; try assumption; reflexivity. Qed.

Lemma radix_val_acc d : forall acc,
  fold_left (fun a c => a * 10 + hex_val c)%Z (uint_chars d) (Z.pos acc)
  = Z.pos (Pos.of_uint_acc d acc).
Proof.
  induction d; intro acc; try reflexivity;
    unfold uint_chars in *; cbn [DecimalString.NilEmpty.string_of_uint str
                                 list_ascii_of_string map fold_left Pos.of_uint_acc];
    match goal with
    | |- fold_left _ _ ?z = _ =>
        match goal with
        | |- _ = Z.pos (Pos.of_uint_acc _ ?p) =>
            replace z with (Z.pos p) by (vm_compute (hex_val _); lia)
        end
    end; apply IHd.
Qed.

Lemma radix_val_uint d :
  radix_val 10 (uint_chars d) = Z.of_N (Pos.of_uint d).
Proof.
  unfold radix_val.
  induction d; try reflexivity;
    unfold uint_chars in *; cbn [DecimalString.NilEmpty.string_of_uint str
                                 list_ascii_of_string map fold_left Pos.of_uint];
    try exact IHd;
    match goal with
    | |- fold_left _ _ ?z = Z.of_N (N.pos (Pos.of_uint_acc _ ?p)) =>
        replace z with (Z.pos p) by (vm_compute; reflexivity)
    end; apply (radix_val_acc d).
Qed.

Lemma span_all p s :
  Forall (fun c => p c = true) s -> span p s = (s, []).
Proof.
  induction 1 as [|c s Hc _ IH]; [reflexivity|]. cbn [span]. now rewrite Hc, IH.
Qed.

Lemma digits_of_N_chars n : digits_of_N n = uint_chars (N.to_uint n) /\ digits_of_N n <> [].
Proof.
  unfold digits_of_N, uint_chars, DecimalString.NilZero.string_of_uint.
  destruct (N.to_uint n) eqn:E; try (split; [reflexivity | discriminate]).
  exfalso. pose proof (DecimalN.Unsigned.of_to n) as H. rewrite E in H.
  destruct n; [discriminate E|]. discriminate H.
Qed.

Lemma parseInt_digits_of_N n : parseInt (digits_of_N n) 10 = Some (Z.of_N n).
Proof.
  destruct (digits_of_N_chars n) as [E Hne]. rewrite E in *.
  pose proof (uint_chars_digits (N.to_uint n)) as Hd.
  pose proof (radix_val_uint (N.to_uint n)) as Hv.
  change (Pos.of_uint (N.to_uint n)) with (N.of_uint (N.to_uint n)) in Hv.
  rewrite DecimalN.Unsigned.of_to in Hv.
  destruct (uint_chars (N.to_uint n)) as [|c s] eqn:Es; [contradiction|].
  inversion Hd as [|? ? Hc Hs]; subst.
  assert (Hc' : In c digit_chars) by now apply is_digit_In.
  unfold parseInt. cbn [trimStart].
  replace (is_space c) with false
    by (symmetry; apply negb_true_iff;
        now apply (forall_in digit_chars (fun c => negb (is_space c)))).
  cbv zeta.
  replace (c =? chr "-")%N with false
    by (symmetry; apply negb_true_iff;
        now apply (forall_in digit_chars (fun c => negb (c =? chr "-")%N))).
  replace (c =? chr "+")%N with false
    by (symmetry; apply negb_true_iff;
        now apply (forall_in digit_chars (fun c => negb (c =? chr "+")%N))).
  rewrite span_all.
  - cbn [fst]. now rewrite Hv.
  - eapply Forall_impl; [|exact Hd]. intros a Ha. cbn beta in Ha.
    apply is_digit_In in Ha.
    now apply (forall_in digit_chars (is_radix_digit 10)).
Qed.

Lemma parseInt_string_of_Z z :
  (0 <= z)%Z -> parseInt (string_of_Z z) 10 = Some z.
Proof.
  intro H. unfold string_of_Z. destruct z as [|p|p]; try lia.
  - apply (parseInt_digits_of_N 0).
  - change (Z.to_N (Z.pos p)) with (N.pos p). apply (parseInt_digits_of_N (N.pos p)).
Qed.

(** ** The lecture store *)

Lemma jseq_refl s : jseq s s = true.
Proof. now apply jseq_spec. Qed.

Lemma jseq_false a b : a <> b -> jseq a b = false.
Proof.
  intro H. destruct (jseq a b) eqn:E; [|reflexivity].
  apply jseq_spec in E. contradiction.
Qed.

Section StoreFacts.
Import Database.

Variable exotic : number -> jsstring.

(** The number the counter cell stands for. *)
Definition counter_is (st : store) (n : Z) : Prop :=
  parseInt (match getItem COUNTER_KEY (texts st) with
            | Some v => v
            | None => str "0"
            end) 10 = Some n.

(** Rows whose ids are whole numbers from 1 to [n]. *)
Definition ids_upto (n : Z) (rows : list Lecture) : Prop :=
  Forall (fun l => exists i, id l = Some (Int i) /\ (1 <= i <= n)%Z) rows.

Lemma throughJson_whole l i : id l = Some (Int i) -> throughJson l = l.
Proof. intro H. destruct l. cbn in *. subst. reflexivity. Qed.

Lemma throughJson_rows n rows : ids_upto n rows -> map throughJson rows = rows.
Proof.
  induction 1 as [|l rows (i & Hi & _) _ IH]; [reflexivity|].
  cbn [map]. now rewrite (throughJson_whole l i Hi), IH.
Qed.

Lemma ids_upto_weaken n m rows : (n <= m)%Z -> ids_upto n rows -> ids_upto m rows.
Proof.
  intros Hle H. eapply Forall_impl; [|exact H].
  intros l (i & Hi & Hr). exists i. split; [exact Hi | lia].
Qed.

Lemma getNextId_next st n :
  counter_is st n -> (0 <= n < 2 ^ 53)%Z ->
  exists st',
    getNextId exotic st = (Int (n + 1), st')
    /\ counter_is st' (n + 1) /\ lectureRows st' = lectureRows st
    /\ (forall key, jseq COUNTER_KEY key = false ->
          getItem key (texts st') = getItem key (texts st)).
Proof.
  intros Hc Hn. unfold counter_is in Hc. unfold getNextId. rewrite Hc.
  eexists. split; [reflexivity|]. cbn [numberToString].
  replace (Z.abs (n + 1) <? 10 ^ 21)%Z with true
    by (symmetry; apply Z.ltb_lt; change (2 ^ 53)%Z with 9007199254740992%Z in Hn;
        change (10 ^ 21)%Z with 1000000000000000000000%Z; lia).
  split; [|split; [reflexivity|]].
  - unfold counter_is, setItem. cbn [texts getItem]. rewrite jseq_refl.
    apply parseInt_string_of_Z. lia.
  - intros key Hk. unfold setItem. cbn [texts getItem]. now rewrite Hk.
Qed.

Lemma ids_fresh n rows i :
  ids_upto n rows -> (n < i)%Z -> ~ In (Some (Int i)) (map id rows).
Proof.
  intros H Hi Hin. apply in_map_iff in Hin as (l & Hl & Hin).
  unfold ids_upto in H. rewrite Forall_forall in H. destruct (H l Hin) as (j & Hj & Hr).
  rewrite Hj in Hl. injection Hl as ->. lia.
Qed.

(** The lectures of [insertLectures], numbered from [n + 1] on. *)
Fixpoint numbered (n : Z) (lectures : list InsertLecture) : list Lecture :=
  match lectures with
  | [] => []
  | l :: lectures' => withId l (Int (n + 1)) :: numbered (n + 1) lectures'
  end.

Lemma numbered_ids lectures : forall n,
  (0 <= n)%Z ->
  Forall (fun l => exists i, id l = Some (Int i)
                             /\ (n + 1 <= i <= n + Z.of_nat (length lectures))%Z)
         (numbered n lectures)
  /\ NoDup (map id (numbered n lectures)).
Proof.
  induction lectures as [|l lectures IH]; intros n Hn; cbn [numbered length map].
  - split; constructor.
  - destruct (IH (n + 1)%Z ltac:(lia)) as [Hall Hnd]. split.
    + constructor; [exists (n + 1)%Z; split; [reflexivity | lia]|].
      eapply Forall_impl; [|exact Hall]. intros x (i & Hi & Hr).
      exists i. split; [exact Hi | lia].
    + constructor; [|exact Hnd]. cbn [withId id]. intro Hin.
      apply in_map_iff in Hin as (x & Hx & Hin).
      rewrite Forall_forall in Hall. destruct (Hall x Hin) as (i & Hi & Hr).
      rewrite Hi in Hx. injection Hx as ->. lia.
Qed.

Lemma pushAll_numbered lectures : forall all st n,
  counter_is st n -> (0 <= n)%Z -> (n + Z.of_nat (length lectures) <= 2 ^ 53)%Z ->
  exists st',
    pushAll exotic lectures all st = (all ++ numbered n lectures, st')
    /\ counter_is st' (n + Z.of_nat (length lectures))
    /\ lectureRows st' = lectureRows st
    /\ (forall key, jseq COUNTER_KEY key = false ->
          getItem key (texts st') = getItem key (texts st)).
Proof.
  induction lectures as [|l lectures IH]; intros all st n Hc Hn Hb;
    cbn [pushAll numbered length] in *.
  - exists st. rewrite app_nil_r, Z.add_0_r. repeat split; assumption.
  - destruct (getNextId_next st n Hc) as (st1 & -> & Hc1 & Hr1 & Hk1); [lia|].
    destruct (IH (all ++ [withId l (Int (n + 1))]) st1 (n + 1)%Z Hc1)
      as (st' & -> & Hc' & Hr' & Hk'); [lia | lia|].
    exists st'. rewrite <- app_assoc. cbn [app]. split; [reflexivity|].
    split; [|split].
    + replace (n + Z.of_nat (S (length lectures)))%Z
        with (n + 1 + Z.of_nat (length lectures))%Z by lia. exact Hc'.
    + now rewrite Hr'.
    + intros key Hk. now rewrite Hk', Hk1.
Qed.

(** X20.  New lectures get fresh ids.  In a store whose counter stands
    at [n] and whose lectures have whole ids from 1 to [n],
    [insertLectures] appends the new lectures in order under the ids
    [n + 1], [n + 2], ..., leaves the stored ones as they are, and moves
    the counter to the last id given; [insertLecture] does so for one
    lecture and returns its id.  Ids that were distinct stay distinct. *)
Theorem insertLectures_fresh_ids st n :
  counter_is st n -> (0 <= n)%Z -> ids_upto n (loadLectures st) ->
  (forall lectures,
     (n + Z.of_nat (length lectures) <= 2 ^ 53)%Z ->
     let st' := insertLectures exotic lectures st in
     loadLectures st' = loadLectures st ++ numbered n lectures
     /\ counter_is st' (n + Z.of_nat (length lectures))
     /\ ids_upto (n + Z.of_nat (length lectures)) (loadLectures st')
     /\ (NoDup (map id (loadLectures st)) -> NoDup (map id (loadLectures st'))))
  /\ (forall lecture,
        (n < 2 ^ 53)%Z ->
        fst (insertLecture exotic lecture st) = Int (n + 1)
        /\ snd (insertLecture exotic lecture st) = insertLectures exotic [lecture] st).
Proof.
  intros Hc Hn Hids. split.
  - intros lectures Hb st'.
    destruct (pushAll_numbered lectures (loadLectures st) st n Hc Hn Hb)
      as (st1 & Hp & Hc1 & Hr1 & _).
    destruct (numbered_ids lectures n Hn) as [Hnum Hnd].
    assert (Hall : ids_upto (n + Z.of_nat (length lectures))
                     (loadLectures st ++ numbered n lectures)).
    { apply Forall_app. split.
      - apply (ids_upto_weaken n); [lia | exact Hids].
      - eapply Forall_impl; [|exact Hnum]. intros x (i & Hi & Hr).
        exists i. split; [exact Hi | lia]. }
    assert (Hload : loadLectures st' = loadLectures st ++ numbered n lectures).
    { unfold st', insertLectures. rewrite Hp. unfold saveLectures, loadLectures at 1.
      cbn [lectureRows]. now rewrite (throughJson_rows _ _ Hall). }
    split; [exact Hload|]. split; [|split].
    + unfold st', insertLectures. rewrite Hp. exact Hc1.
    + now rewrite Hload.
    + intro Hnodup. rewrite Hload, map_app.
      apply NoDup_app; [exact Hnodup | exact Hnd|].
      intros x Hx Hy. apply in_map_iff in Hy as (y & <- & Hy).
      rewrite Forall_forall in Hnum. destruct (Hnum y Hy) as (i & Hi & Hr).
      rewrite Hi in Hx. apply (ids_fresh n _ i Hids) in Hx; [exact Hx | lia].
  - intros lecture Hb.
    destruct (getNextId_next st n Hc ltac:(lia)) as (st1 & Hg & _).
    unfold insertLecture, insertLectures. cbn [pushAll]. rewrite Hg.
    split; reflexivity.
Qed.


(** Rows whose ids are whole numbers, and the first row under an id. *)
Definition whole_ids (rows : list Lecture) : Prop :=
  Forall (fun l => exists i, id l = Some (Int i)) rows.

Definition lookup (target : Z) (rows : list Lecture) : option Lecture :=
  find (fun l => same_id (id l) (Some (Int target))) rows.

Lemma same_id_Int a b : same_id (Some (Int a)) (Some (Int b)) = (a =? b)%Z.
Proof.
  unfold same_id, neq, ncompare. destruct (Z.compare_spec a b) as [->|H|H].
  - now rewrite Z.eqb_refl.
  - symmetry. apply Z.eqb_neq. lia.
  - symmetry. apply Z.eqb_neq. lia.
Qed.

Lemma whole_rows rows : whole_ids rows -> map throughJson rows = rows.
Proof.
  induction 1 as [|l rows (i & Hi) _ IH]; [reflexivity|].
  cbn [map]. now rewrite (throughJson_whole l i Hi), IH.
Qed.

Lemma atFirst_whole target f rows :
  whole_ids rows -> (forall l, exists i, id (f l) = Some (Int i)) ->
  whole_ids (atFirst target f rows).
Proof.
  intros H Hf. induction H as [|l rows Hl Hrows IH]; cbn [atFirst]; [constructor|].
  destruct (same_id (id l) target); constructor;
    [apply Hf | exact Hrows | exact Hl | exact IH].
Qed.

Lemma atFirst_length target f rows : length (atFirst target f rows) = length rows.
Proof.
  induction rows as [|l rows IH]; cbn [atFirst]; [reflexivity|].
  destruct (same_id (id l) target); cbn [length]; congruence.
Qed.

Lemma atFirst_lookup i f rows :
  (forall l, id l = Some (Int i) -> id (f l) = Some (Int i)) ->
  whole_ids rows ->
  lookup i (atFirst (Some (Int i)) f rows) = option_map f (lookup i rows)
  /\ (lookup i rows = None -> atFirst (Some (Int i)) f rows = rows)
  /\ forall j, j <> i ->
       lookup j (atFirst (Some (Int i)) f rows) = lookup j rows.
Proof.
  intros Hf H. unfold lookup.
  induction H as [|l rows (k & Hk) _ (IH1 & IH2 & IH3)]; cbn [atFirst find].
  - repeat split.
  - destruct (same_id (id l) (Some (Int i))) eqn:E.
    + cbn [find option_map]. rewrite Hk, same_id_Int in E.
      apply Z.eqb_eq in E. subst k. rewrite (Hf l Hk), Hk.
      split; [now rewrite same_id_Int, Z.eqb_refl|]. split; [discriminate|].
      intros j Hj. rewrite !same_id_Int.
      replace (i =? j)%Z with false by (symmetry; apply Z.eqb_neq; lia).
      reflexivity.
    + cbn [find]. rewrite E. split; [exact IH1|]. split.
      * intro Hn. now rewrite IH2.
      * intros j Hj. destruct (same_id (id l) (Some (Int j))); [reflexivity|].
        now apply IH3.
Qed.

Lemma filter_lookup i rows :
  whole_ids rows ->
  lookup i (filter (fun l => negb (same_id (id l) (Some (Int i)))) rows) = None
  /\ forall j, j <> i ->
       lookup j (filter (fun l => negb (same_id (id l) (Some (Int i)))) rows)
       = lookup j rows.
Proof.
  intro H. unfold lookup.
  induction H as [|l rows (k & Hk) _ (IH1 & IH2)]; cbn [filter find].
  - split; reflexivity.
  - destruct (same_id (id l) (Some (Int i))) eqn:E; cbn [negb].
    + split; [exact IH1|]. intros j Hj.
      rewrite Hk, same_id_Int in E. apply Z.eqb_eq in E. subst k.
      rewrite Hk, same_id_Int.
      replace (i =? j)%Z with false by (symmetry; apply Z.eqb_neq; lia).
      now apply IH2.
    + cbn [find]. rewrite E. split; [exact IH1|]. intros j Hj.
      destruct (same_id (id l) (Some (Int j))); [reflexivity | now apply IH2].
Qed.

Lemma filter_whole (p : Lecture -> bool) rows : whole_ids rows -> whole_ids (filter p rows).
Proof.
  intro H. unfold whole_ids in *. rewrite Forall_forall in *.
  intros l Hl. apply filter_In in Hl as [Hl _]. now apply H.
Qed.

(** X21.  Looking a lecture up by its id after the store has changed.
    In a store whose lectures have whole ids: [updateLecture] puts the
    given lecture in the place of the stored one with its id and changes
    nothing when there is none; [toggleReminder] sets the flag of the
    lecture with the id; [deleteLecture] leaves no lecture with the id.
    None of them touches a lecture with another id, and the first two
    keep the number of lectures. *)
Theorem store_lookup st i :
  whole_ids (loadLectures st) ->
  (forall lecture,
     id lecture = Some (Int i) ->
     let st' := updateLecture lecture st in
     lookup i (loadLectures st')
     = option_map (fun _ => lecture) (lookup i (loadLectures st))
     /\ (lookup i (loadLectures st) = None -> loadLectures st' = loadLectures st)
     /\ length (loadLectures st') = length (loadLectures st)
     /\ forall j, j <> i ->
          lookup j (loadLectures st') = lookup j (loadLectures st))
  /\ (forall enabled,
        let st' := toggleReminder (Some (Int i)) enabled st in
        lookup i (loadLectures st')
        = option_map (withFlag enabled) (lookup i (loadLectures st))
        /\ length (loadLectures st') = length (loadLectures st)
        /\ forall j, j <> i ->
             lookup j (loadLectures st') = lookup j (loadLectures st))
  /\ (let st' := deleteLecture (Some (Int i)) st in
      lookup i (loadLectures st') = None
      /\ forall j, j <> i ->
           lookup j (loadLectures st') = lookup j (loadLectures st)).
Proof.
  intro Hw. split; [|split].
  - intros lecture Hid st'.
    assert (Hrows : loadLectures st'
                    = atFirst (Some (Int i)) (fun _ => lecture) (loadLectures st)).
    { unfold st', updateLecture, saveLectures, loadLectures at 1. cbn [lectureRows].
      rewrite Hid. apply whole_rows. apply atFirst_whole; [exact Hw|].
      intros _. now exists i. }
    rewrite Hrows.
    destruct (atFirst_lookup i (fun _ => lecture) (loadLectures st)
                (fun _ _ => Hid) Hw) as (H1 & H2 & H3).
    repeat split; try assumption. apply atFirst_length.
  - intros enabled st'.
    assert (Hrows : loadLectures st'
                    = atFirst (Some (Int i)) (withFlag enabled) (loadLectures st)).
    { unfold st', toggleReminder, saveLectures, loadLectures at 1. cbn [lectureRows].
      apply whole_rows.
      assert (G : forall rows, whole_ids rows ->
                    whole_ids (atFirst (Some (Int i)) (withFlag enabled) rows)).
      { intros rows H. induction H as [|l rows (k & Hk) Hrows IH]; cbn [atFirst];
          [constructor|].
        destruct (same_id (id l) (Some (Int i))); constructor; try assumption;
          now exists k. }
      now apply G. }
    rewrite Hrows.
    destruct (atFirst_lookup i (withFlag enabled) (loadLectures st)
                (fun l H => H) Hw) as (H1 & _ & H3).
    repeat split; try assumption. apply atFirst_length.
  - intro st'.
    assert (Hrows : loadLectures st'
      = filter (fun l => negb (same_id (id l) (Some (Int i)))) (loadLectures st)).
    { unfold st', deleteLecture, saveLectures, loadLectures at 1. cbn [lectureRows].
      apply whole_rows. now apply filter_whole. }
    rewrite Hrows. now apply filter_lookup.
Qed.

(** X22.  Settings.  A setting reads back as it was written, whatever
    was written under other names and however many ids were handed out
    since; a lead time that was never set reads as ["10"], any other
    name that was never set as [null]; and writing a setting does not
    move the id counter. *)
Theorem settings_read_back st key value :
  getSetting key (setSetting key value st) = Some value
  /\ (forall other, other <> key ->
        getSetting other (setSetting key value st) = getSetting other st)
  /\ getSetting key (snd (getNextId exotic st)) = getSetting key st
  /\ fst (getNextId exotic (setSetting key value st)) = fst (getNextId exotic st)
  /\ (getItem (settingKey key) (texts st) = None ->
      getSetting key st
      = if jseq key (str "reminderLeadTime") then Some (str "10") else None).
Proof.
  assert (Hc : forall k, jseq (settingKey k) COUNTER_KEY = false) by (intro; reflexivity).
  assert (Hc' : forall k, jseq COUNTER_KEY (settingKey k) = false) by (intro; reflexivity).
  split; [|split; [|split; [|split]]].
  - unfold getSetting, setSetting, setItem. cbn [texts getItem]. now rewrite jseq_refl.
  - intros other Hne. unfold getSetting, setSetting, setItem. cbn [texts getItem].
    rewrite jseq_false; [reflexivity|].
    unfold settingKey. intro H. apply app_inv_head in H. apply app_inv_head in H.
    congruence.
  - unfold getSetting, getNextId, setItem. cbn [snd texts getItem]. now rewrite Hc'.
  - unfold getNextId, setSetting, setItem. cbn [fst texts getItem]. now rewrite Hc.
  - intro H. unfold getSetting. now rewrite H.
Qed.

End StoreFacts.

Definition empty_store : Database.store :=
  {| Database.texts := []; Database.lectureRows := None |}.

Definition algebra : Database.InsertLecture :=
  {| Database.i_day := str "Monday"; Database.i_subject := str "Algebra";
     Database.i_room := str "CR-1"; Database.i_teacher := str "Dr. A";
     Database.i_startTime := str "09:00"; Database.i_endTime := str "10:20";
     Database.i_reminderEnabled := None |}.

Definition physics : Database.InsertLecture :=
  {| Database.i_day := str "Tuesday"; Database.i_subject := str "Physics";
     Database.i_room := str "Lab 2"; Database.i_teacher := str "Ms. B";
     Database.i_startTime := str "11:00"; Database.i_endTime := str "12:20";
     Database.i_reminderEnabled := Some 1%Z |}.

Definition two_lectures : Database.store :=
  Database.insertLectures no_exotic [algebra; physics] empty_store.

Lemma insertLectures_fresh_ids_witness :
  Database.loadLectures two_lectures
  = [] ++ [Database.withId algebra (Int 1); Database.withId physics (Int 2)]
  /\ fst (Database.insertLecture no_exotic algebra empty_store) = Int 1.
Proof.
  pose proof (insertLectures_fresh_ids no_exotic empty_store 0
                eq_refl ltac:(lia) ltac:(constructor)) as [H1 H2].
  split.
  - apply (H1 [algebra; physics]). cbn. lia.
  - apply (H2 algebra). lia.
Defined.

Lemma store_lookup_witness :
  lookup 2 (Database.loadLectures (Database.deleteLecture (Some (Int 2)) two_lectures))
  = None
  /\ lookup 1 (Database.loadLectures (Database.deleteLecture (Some (Int 2)) two_lectures))
     = Some (Database.withId algebra (Int 1)).
Proof.
  assert (Hw : whole_ids (Database.loadLectures two_lectures))
    by (repeat constructor; eexists; reflexivity).
  destruct (store_lookup two_lectures 2 Hw) as (_ & _ & H1 & H2).
  split; [exact H1|]. rewrite (H2 1%Z); [reflexivity | lia].
Defined.

Lemma settings_read_back_witness :
  Database.getSetting (str "theme")
    (Database.setSetting (str "reminderLeadTime") (str "15") empty_store) = None
  /\ Database.getSetting (str "reminderLeadTime") empty_store = Some (str "10").
Proof.
  pose proof (settings_read_back no_exotic empty_store (str "reminderLeadTime") (str "15"))
    as (_ & H2 & _ & _ & H5).
  split.
  - rewrite (H2 (str "theme")); [reflexivity | discriminate].
  - rewrite H5; reflexivity.
Defined.

(** ** The provider of the lecture schedule *)

(** A computation that only adds calls satisfying [P] to the log,
    whatever the calls are. *)
Definition adds {C A} (P : C -> Prop) (m : M C A) : Prop :=
  forall log, exists calls, snd (m log) = log ++ calls /\ Forall P calls.

Lemma adds_ret {C A} (P : C -> Prop) (a : A) : adds P (ret a).
Proof. intro log. exists []. now rewrite app_nil_r. Qed.

Lemma adds_perform {C A} (P : C -> Prop) c (result : list C -> outcome A) :
  P c -> adds P (perform c result).
Proof. intros Hc log. exists [c]. split; [reflexivity | now constructor]. Qed.

Lemma adds_mbind {C A B} (P : C -> Prop) (m : M C A) (f : A -> M C B) :
  adds P m -> (forall a, adds P (f a)) -> adds P (mbind m f).
Proof.
  intros Hm Hf log. unfold mbind.
  destruct (Hm log) as (c1 & H1 & P1).
  destruct (m log) as [[a|e|] log1]; simpl in H1; subst log1.
  - destruct (Hf a (log ++ c1)) as (c2 & H2 & P2).
    exists (c1 ++ c2). rewrite H2, app_assoc. split; [reflexivity|].
    apply Forall_app. now split.
  - now exists c1.
  - now exists c1.
Qed.

Lemma adds_catch_ignore {C} (P : C -> Prop) (m : M C unit) :
  adds P m -> adds P (catch_ignore m).
Proof.
  intros Hm log. destruct (Hm log) as (calls & H & HP). exists calls.
  split; [|exact HP]. unfold catch_ignore.
  now destruct (m log) as [[a|e|] log1].
Qed.

Lemma adds_forEach {C A} (P : C -> Prop) (f : A -> M C unit) l :
  (forall a, In a l -> adds P (f a)) -> adds P (forEach f l).
Proof.
  induction l as [|a l IH]; intro H; cbn [forEach]; [apply adds_ret|].
  apply adds_mbind; [apply H; now left|]. intros _. apply IH.
  intros b Hb. apply H. now right.
Qed.

Lemma adds_weaken {C A} (P Q : C -> Prop) (m : M C A) :
  (forall c, P c -> Q c) -> adds P m -> adds Q m.
Proof.
  intros HPQ Hm log. destruct (Hm log) as (calls & H & HP). exists calls.
  split; [exact H|]. revert HP. apply Forall_impl. exact HPQ.
Qed.

Lemma within_run {C D A} (inj : C -> D) proj (m : M C A) log r calls :
  m (own proj log) = (r, own proj log ++ calls) ->
  within inj proj m log = (r, log ++ map inj calls).
Proof.
  intro H. unfold within. rewrite H.
  rewrite skipn_app, skipn_all, Nat.sub_diag. reflexivity.
Qed.

Lemma within_adds {C D A} (inj : C -> D) proj (P : C -> Prop) (m : M C A) log :
  adds P m ->
  exists calls, within inj proj m log = (fst (m (own proj log)), log ++ map inj calls)
                /\ Forall P calls.
Proof.
  intro Hm. destruct (Hm (own proj log)) as (calls & H & HP). exists calls.
  split; [|exact HP]. apply within_run. rewrite <- H. now destruct (m (own proj log)).
Qed.

Section ProviderFacts.

Import ScheduleContext ScheduleProvider.
Local Open Scope effect_scope.

Variable exotic : number -> jsstring.
Variable E : env.
Variable D : database.

(** The calls about the notification called [name]. *)
Definition about (name : jsstring) (c : ScheduleContext.call) : Prop :=
  match c with
  | GetPermissions | RequestPermissions => True
  | Cancel n | Schedule n _ _ _ => n = name
  end.

Lemma requestNotificationPermissions_about name :
  adds (about name) (requestNotificationPermissions E).
Proof.
  unfold requestNotificationPermissions. destruct (platformIsWeb E); [apply adds_ret|].
  apply adds_mbind; [now apply adds_perform|]. intros [|]; [apply adds_ret|].
  now apply adds_perform.
Qed.

Lemma scheduleNotification_about lecture lead :
  adds (about (lectureIdentifier (id lecture))) (scheduleNotification E lecture lead).
Proof.
  unfold scheduleNotification.
  apply adds_mbind; [apply requestNotificationPermissions_about|]. intros granted.
  destruct (negb granted); [apply adds_ret|].
  destruct (_ <? 0)%Z; [apply adds_ret|].
  destruct (_ || _); [apply adds_ret|].
  apply adds_mbind; [apply adds_catch_ignore; now apply adds_perform|]. intros _.
  apply adds_mbind; [now apply adds_perform|]. intros newId. apply adds_ret.
Qed.

Lemma cancelNotification_run lectureId log :
  cancelResult E (log ++ [Cancel (lectureIdentifier lectureId)]) <> Unfinished ->
  cancelNotification E lectureId log
  = (Ret tt, log ++ [Cancel (lectureIdentifier lectureId)]).
Proof.
  intro H. unfold cancelNotification, catch_ignore, perform.
  destruct (cancelResult E _) as [[]|e|]; [reflexivity | reflexivity | now elim H].
Qed.

Lemma notify_cancel lectureId log :
  (forall l, cancelResult E l <> Unfinished) ->
  notify (cancelNotification E lectureId) log
  = (Ret tt, log ++ [Notification (Cancel (lectureIdentifier lectureId))]).
Proof.
  intro H. unfold notify.
  apply (within_run Notification notification _ log (Ret tt)
           [Cancel (lectureIdentifier lectureId)]).
  apply cancelNotification_run, H.
Qed.

Lemma notify_schedule lecture lead log :
  exists calls,
    snd ((notify (scheduleNotification E lecture lead) ;;; ret tt) log)
    = log ++ map Notification calls
    /\ Forall (about (lectureIdentifier (id lecture))) calls.
Proof.
  destruct (within_adds Notification notification _ _ log
              (scheduleNotification_about lecture lead)) as (calls & H & HP).
  exists calls. split; [|exact HP]. unfold mbind, notify. rewrite H.
  now destruct (fst _).
Qed.

(** X23.  [removeLecture] first asks for the notification of the
    lecture to be cancelled and then asks the store to delete the
    lecture, whatever the cancellation answered; the lecture leaves the
    list on display only when the store has deleted it.  When the store
    fails, the failure is the result and the lecture stays on display,
    its notification cancelled. *)
Theorem removeLecture_outcomes lectureId log :
  (forall l, cancelResult E l <> Unfinished) ->
  let asked := log ++ [Notification (Cancel (lectureIdentifier lectureId));
                       DeleteLecture lectureId] in
  removeLecture E D lectureId log
  = match done D asked with
    | Ret _ => (Ret tt, asked ++ [DropLecture lectureId])
    | Throw e => (Throw e, asked)
    | Unfinished => (Unfinished, asked)
    end.
Proof.
  intros H asked. unfold removeLecture, mbind at 1.
  rewrite (notify_cancel lectureId log H).
  unfold mbind, perform. rewrite <- app_assoc. cbn [app]. fold asked.
  now destruct (done D asked) as [[]|e|].
Qed.

(** The name a cancel or schedule call carries. *)
Definition named (c : ScheduleContext.call) : option jsstring :=
  match c with
  | Cancel n | Schedule n _ _ _ => Some n
  | _ => None
  end.

Definition reminding (all : list Lecture) (c : ScheduleContext.call) : Prop :=
  forall name, named c = Some name ->
    exists l, In l all /\ reminderEnabled l <> 0%Z
              /\ name = lectureIdentifier (id l).

Lemma rescheduleAll_adds all mins :
  adds (fun c => match notification c with
                 | Some n => reminding all n
                 | None => False
                 end) (rescheduleAll E all mins).
Proof.
  unfold rescheduleAll. apply adds_forEach. intros l Hl.
  destruct (reminderEnabled l =? 0)%Z eqn:Eon; [apply adds_ret|].
  apply Z.eqb_neq in Eon. intro log.
  destruct (notify_schedule l mins log) as (calls & H & HP).
  exists (map Notification calls). split; [exact H|].
  apply Forall_map. revert HP. apply Forall_impl. intros c Hc. cbn.
  intros name Hn. exists l. repeat split; try assumption.
  destruct c; unfold named in Hn; unfold about in Hc; try discriminate;
    injection Hn as <-; exact Hc.
Qed.

(** X24.  [setReminderLeadTime] sets the lead time on display, then
    stores it under [reminderLeadTime] as the text of the number; when
    the store fails nothing more happens (the display keeps the new lead
    time).  Otherwise it reads the lectures from the store and every
    cancel or schedule call it makes carries the name of a stored
    lecture whose reminder is on: a lecture with its reminder off is
    never rescheduled. *)
Theorem setReminderLeadTime_reschedules mins log :
  let stored := log ++ [SetReminderLeadTime mins;
                        SetSetting (str "reminderLeadTime")
                          (numberToString exotic mins)] in
  (forall e, done D stored = Throw e ->
     setReminderLeadTime exotic E D mins log = (Throw e, stored))
  /\ (forall all,
        done D stored = Ret tt ->
        allLectures D (stored ++ [GetAllLectures]) = Ret all ->
        exists calls,
          snd (setReminderLeadTime exotic E D mins log)
          = stored ++ GetAllLectures :: map Notification calls
          /\ Forall (reminding all) calls).
Proof.
  intro stored.
  assert (Hrun : setReminderLeadTime exotic E D mins log
                 = match done D stored with
                   | Ret _ => (all <- perform GetAllLectures (allLectures D) ;;
                               rescheduleAll E all mins) stored
                   | Throw e => (Throw e, stored)
                   | Unfinished => (Unfinished, stored)
                   end).
  { unfold setReminderLeadTime.
    unfold mbind at 1, perform at 1. unfold mbind at 1, perform at 1.
    rewrite <- app_assoc. reflexivity. }
  rewrite Hrun. split.
  - intros e He. now rewrite He.
  - intros all Hd Ha. rewrite Hd. unfold mbind, perform. rewrite Ha.
    destruct (rescheduleAll_adds all mins (stored ++ [GetAllLectures]))
      as (calls & H & HP).
    assert (Hn : exists ns, calls = map Notification ns /\ Forall (reminding all) ns).
    { clear H. induction HP as [|c calls Hc _ (ns & -> & Hns)]; [now exists []|].
      destruct c; cbn in Hc; try contradiction.
      exists (c :: ns). split; [reflexivity | now constructor]. }
    destruct Hn as (ns & -> & Hns). exists ns. split; [|exact Hns].
    rewrite H, <- app_assoc. reflexivity.
Qed.

(** What [refresh] adds to the log: the question to the store and then
    the lectures on display or the error message. *)
Lemma refresh_run log :
  exists shown,
    snd (refresh D log) = log ++ GetAllLectures :: shown
    /\ Forall (fun c => notification c = None) shown
    /\ (allLectures D (log ++ [GetAllLectures]) <> Unfinished ->
        fst (refresh D log) = Ret tt).
Proof.
  unfold refresh, mbind, perform.
  destruct (allLectures D (log ++ [GetAllLectures])) as [all|e|].
  - exists [SetLectures all]. rewrite <- app_assoc. repeat split.
    now constructor.
  - exists [ConsoleError e]. rewrite <- app_assoc. repeat split.
    now constructor.
  - exists []. repeat split; [constructor | now intros []].
Qed.

(** X25.  [addLecture] asks the store to insert the lecture; when that
    fails nothing more happens.  Otherwise it reloads the lectures, and a
    failure of the reload does not stop it; every notification call
    that follows is about the notification named after the identifier
    the store gave, and there is none when the lecture came without a
    reminder. *)
Theorem addLecture_uses_new_id lead lecture log :
  let asked := log ++ [InsertLecture_ lecture] in
  (forall e, insertedId D asked = Throw e ->
     addLecture E D lead lecture log = (Throw e, asked))
  /\ (forall newId,
        insertedId D asked = Ret newId ->
        allLectures D (asked ++ [GetAllLectures]) <> Unfinished ->
        exists shown calls,
          snd (addLecture E D lead lecture log)
          = asked ++ GetAllLectures :: shown ++ map Notification calls
          /\ Forall (fun c => notification c = None) shown
          /\ Forall (about (lectureIdentifier newId)) calls
          /\ (ImportScreen.reminderEnabled lecture = 0%Z -> calls = [])).
Proof.
  intro asked.
  assert (Hrun : addLecture E D lead lecture log
                 = match insertedId D asked with
                   | Ret newId =>
                       (refresh D ;;;
                        if (ImportScreen.reminderEnabled lecture =? 0)%Z then ret tt
                        else notify (scheduleNotification E (inserted lecture newId) lead) ;;;
                             ret tt) asked
                   | Throw e => (Throw e, asked)
                   | Unfinished => (Unfinished, asked)
                   end) by reflexivity.
  rewrite Hrun. split.
  - intros e He. now rewrite He.
  - intros newId Hi Hall. rewrite Hi.
    destruct (refresh_run asked) as (shown & Hs & Hshown & Hr).
    specialize (Hr Hall). unfold mbind at 1.
    destruct (refresh D asked) as [r log1]. cbn in Hs, Hr. subst r log1.
    destruct (ImportScreen.reminderEnabled lecture =? 0)%Z eqn:Eon.
    + exists shown, []. cbn [map]. rewrite app_nil_r.
      repeat split; [exact Hshown | constructor].
    + apply Z.eqb_neq in Eon.
      destruct (notify_schedule (inserted lecture newId) lead
                  (asked ++ GetAllLectures :: shown)) as (calls & H & HP).
      exists shown, calls. rewrite H, <- app_assoc.
      repeat split; [exact Hshown | exact HP | now intros].
Qed.

Lemma find_id all lectureId lecture :
  find (fun l => (id l =? lectureId)%Z) all = Some lecture ->
  In lecture all /\ id lecture = lectureId.
Proof.
  intro H. apply find_some in H. destruct H as [Hin Hid].
  split; [exact Hin | now apply Z.eqb_eq].
Qed.

(** X26.  [toggleLectureReminder] records the choice in the store and
    on display and then looks the lecture up in the store: for an
    identifier the store does not hold it makes no notification call;
    switching off makes the one cancel call for the lecture; and
    switching on makes only calls about the notification named after the
    lecture. *)
Theorem toggleLectureReminder_calls lead lectureId enabled all log :
  let stored := log ++ [ToggleReminder lectureId enabled;
                        FlagLecture lectureId enabled; GetAllLectures] in
  done D (log ++ [ToggleReminder lectureId enabled]) = Ret tt ->
  allLectures D stored = Ret all ->
  (forall l, cancelResult E l <> Unfinished) ->
  exists calls,
    snd (toggleLectureReminder E D lead lectureId enabled log)
    = stored ++ map Notification calls
    /\ Forall (about (lectureIdentifier lectureId)) calls
    /\ ((forall l, In l all -> id l <> lectureId) -> calls = [])
    /\ (enabled = false ->
        (exists l, In l all /\ id l = lectureId) ->
        calls = [Cancel (lectureIdentifier lectureId)]).
Proof.
  intros stored Hd Ha Hc. unfold toggleLectureReminder.
  unfold mbind at 1, perform at 1. rewrite Hd.
  unfold mbind at 1, perform at 1. unfold mbind at 1, perform at 1.
  rewrite <- !app_assoc. cbn [app]. fold stored. rewrite Ha.
  destruct (find (fun l => (id l =? lectureId)%Z) all) as [lecture|] eqn:Ef.
  - apply find_id in Ef. destruct Ef as [Hin Hid]. destruct enabled.
    + destruct (notify_schedule lecture lead stored) as (calls & H & HP).
      exists calls. rewrite Hid in HP. repeat split; try assumption.
      * intro Hno. now elim (Hno lecture Hin).
      * discriminate.
    + exists [Cancel (lectureIdentifier lectureId)].
      rewrite (notify_cancel lectureId stored Hc). repeat split.
      * now constructor.
      * intro Hno. now elim (Hno lecture Hin).
  - exists []. cbn [map ret snd]. rewrite app_nil_r.
    repeat split; [constructor|].
    intros _ (l & Hin & Hid). apply (find_none _ _ Ef) in Hin.
    apply Z.eqb_neq in Hin. contradiction.
Qed.

(** X30.  [editLecture] asks the store to update the lecture; when that
    fails nothing more happens.  Otherwise it reloads the lectures, and
    a failure of the reload does not stop it; what follows are only calls
    about the notification named after the lecture, and for a lecture
    with its reminder off that is the one cancel call. *)
Theorem editLecture_calls lead lecture log :
  let asked := log ++ [UpdateLecture lecture] in
  (forall e, done D asked = Throw e ->
     editLecture E D lead lecture log = (Throw e, asked))
  /\ (done D asked = Ret tt ->
      allLectures D (asked ++ [GetAllLectures]) <> Unfinished ->
      (forall l, cancelResult E l <> Unfinished) ->
      exists shown calls,
        snd (editLecture E D lead lecture log)
        = asked ++ GetAllLectures :: shown ++ map Notification calls
        /\ Forall (fun c => notification c = None) shown
        /\ Forall (about (lectureIdentifier (id lecture))) calls
        /\ (reminderEnabled lecture = 0%Z ->
            calls = [Cancel (lectureIdentifier (id lecture))])).
Proof.
  intro asked.
  assert (Hrun : editLecture E D lead lecture log
                 = match done D asked with
                   | Ret _ =>
                       (refresh D ;;;
                        if (reminderEnabled lecture =? 0)%Z
                        then notify (cancelNotification E (id lecture))
                        else notify (scheduleNotification E lecture lead) ;;; ret tt)
                         asked
                   | Throw e => (Throw e, asked)
                   | Unfinished => (Unfinished, asked)
                   end) by reflexivity.
  rewrite Hrun. split.
  - intros e He. now rewrite He.
  - intros Hd Hall Hc. rewrite Hd.
    destruct (refresh_run asked) as (shown & Hs & Hshown & Hr).
    specialize (Hr Hall). unfold mbind at 1.
    destruct (refresh D asked) as [r log1]. cbn in Hs, Hr. subst r log1.
    destruct (reminderEnabled lecture =? 0)%Z eqn:Eon.
    + exists shown, [Cancel (lectureIdentifier (id lecture))].
      rewrite (notify_cancel (id lecture) _ Hc), <- app_assoc.
      repeat split; [exact Hshown | now constructor].
    + apply Z.eqb_neq in Eon.
      destruct (notify_schedule lecture lead (asked ++ GetAllLectures :: shown))
        as (calls & H & HP).
      exists shown, calls. rewrite H, <- app_assoc.
      repeat split; [exact Hshown | exact HP | now intros].
Qed.

End ProviderFacts.

Definition lecture_quiet : ScheduleContext.Lecture :=
  {| ScheduleContext.id := 2; ScheduleContext.day := str "Tuesday";
     ScheduleContext.subject := str "Physics"; ScheduleContext.room := str "Lab-2";
     ScheduleContext.teacher := str "Dr. B"; ScheduleContext.startTime := str "11:00";
     ScheduleContext.endTime := str "12:20"; ScheduleContext.reminderEnabled := 0 |}.

Definition database_ok : ScheduleProvider.database :=
  {| ScheduleProvider.allLectures := fun _ => Ret [lecture_sunday; lecture_quiet];
     ScheduleProvider.insertedId := fun _ => Ret 7%Z;
     ScheduleProvider.done := fun _ => Ret tt |}.

Definition new_lecture : ScheduleProvider.InsertLecture :=
  {| ImportScreen.day := str "Monday"; ImportScreen.subject := str "Algebra";
     ImportScreen.room := str "CR-1"; ImportScreen.teacher := str "Dr. A";
     ImportScreen.startTime := str "09:00"; ImportScreen.endTime := str "10:20";
     ImportScreen.reminderEnabled := 1 |}.

Lemma removeLecture_outcomes_witness :
  ScheduleProvider.removeLecture env_granted database_ok 1 []
  = (Ret tt,
     [ScheduleProvider.Notification (ScheduleContext.Cancel (str "lecture-1"));
      ScheduleProvider.DeleteLecture 1; ScheduleProvider.DropLecture 1]).
Proof.
  apply (removeLecture_outcomes env_granted database_ok 1 []). discriminate.
Defined.

Lemma setReminderLeadTime_reschedules_witness :
  exists calls,
    snd (ScheduleProvider.setReminderLeadTime no_exotic env_granted database_ok
           (Int 10) [])
    = [ScheduleProvider.SetReminderLeadTime (Int 10);
       ScheduleProvider.SetSetting (str "reminderLeadTime") (str "10");
       ScheduleProvider.GetAllLectures]
      ++ map ScheduleProvider.Notification calls
    /\ Forall (reminding [lecture_sunday; lecture_quiet]) calls.
Proof.
  apply (proj2 (setReminderLeadTime_reschedules no_exotic env_granted database_ok
                  (Int 10) [])); reflexivity.
Defined.

Lemma addLecture_uses_new_id_witness :
  exists shown calls,
    snd (ScheduleProvider.addLecture env_granted database_ok (Int 10) new_lecture [])
    = [ScheduleProvider.InsertLecture_ new_lecture]
      ++ ScheduleProvider.GetAllLectures :: shown
      ++ map ScheduleProvider.Notification calls
    /\ Forall (fun c => ScheduleProvider.notification c = None) shown
    /\ Forall (about (str "lecture-7")) calls
    /\ (ImportScreen.reminderEnabled new_lecture = 0%Z -> calls = []).
Proof.
  apply (proj2 (addLecture_uses_new_id env_granted database_ok (Int 10)
                  new_lecture []) 7%Z); [reflexivity | discriminate].
Defined.

Lemma toggleLectureReminder_calls_off_witness :
  exists calls,
    snd (ScheduleProvider.toggleLectureReminder env_granted database_ok (Int 10)
           1 false [])
    = [ScheduleProvider.ToggleReminder 1 false; ScheduleProvider.FlagLecture 1 false;
       ScheduleProvider.GetAllLectures] ++ map ScheduleProvider.Notification calls
    /\ Forall (about (str "lecture-1")) calls
    /\ ((forall l, In l [lecture_sunday; lecture_quiet] ->
         ScheduleContext.id l <> 1%Z) -> calls = [])
    /\ (false = false ->
        (exists l, In l [lecture_sunday; lecture_quiet] /\ ScheduleContext.id l = 1%Z) ->
        calls = [ScheduleContext.Cancel (str "lecture-1")]).
Proof.
  apply (toggleLectureReminder_calls env_granted database_ok (Int 10) 1 false
           [lecture_sunday; lecture_quiet] []);
    [reflexivity | reflexivity | discriminate].
Defined.

Lemma editLecture_calls_witness :
  exists shown calls,
    snd (ScheduleProvider.editLecture env_granted database_ok (Int 10) lecture_quiet [])
    = [ScheduleProvider.UpdateLecture lecture_quiet]
      ++ ScheduleProvider.GetAllLectures :: shown
      ++ map ScheduleProvider.Notification calls
    /\ Forall (fun c => ScheduleProvider.notification c = None) shown
    /\ Forall (about (str "lecture-2")) calls
    /\ (ScheduleContext.reminderEnabled lecture_quiet = 0%Z ->
        calls = [ScheduleContext.Cancel (str "lecture-2")]).
Proof.
  apply (proj2 (editLecture_calls env_granted database_ok (Int 10) lecture_quiet []));
    [reflexivity | discriminate | discriminate].
Defined.

(** ** Importing parsed routine rows *)








Section RoutineImportFacts.

Import Routine RoutineImport.
Local Open Scope effect_scope.

Variable E : env.
Variable clock : nat -> Z.
Variable random : nat -> jsstring.











End RoutineImportFacts.



(** ** The timetable import screen *)

Section PdfScreenFacts.

Import ImportScreen PdfScreen.
Local Open Scope effect_scope.

Variable argumentLimit : nat.
Variable unzlibSync : list N -> option (list N).
Variable atob : option (jsstring -> outcome jsstring).
Variable readResult : list call -> outcome jsstring.
Variable importResult : list call -> outcome unit.

Let handle := handleImportPdf argumentLimit unzlibSync atob readResult importResult.




End PdfScreenFacts.


(** ** Loading the stored routine *)

(** The end time that a start time at minute [m] of the day gets. *)
Definition hour_later (m : Z) : Z := if (m <? 1380)%Z then (m + 60)%Z else m.

Definition defaultEnd_check (m : Z) : bool :=
  let e := RoutineStore.defaultEnd (Routine.toHHMM m) in
  Routine.validTime e
  && match Routine.timeToMinutes e with
     | Int z => (z =? hour_later m)%Z
     | _ => false
     end.

Lemma defaultEnd_hour_later start :
  Routine.validTime start = true ->
  exists m, Routine.timeToMinutes start = Int m /\ (0 <= m < 1440)%Z
    /\ Routine.validTime (RoutineStore.defaultEnd start) = true
    /\ Routine.timeToMinutes (RoutineStore.defaultEnd start) = Int (hour_later m).
Proof.
  intro H. destruct (validTime_minutes start H) as (m & Hm & Hr & Hs).
  exists m. split; [exact Hm|]. split; [exact Hr|].
  assert (Hc : defaultEnd_check m = true)
    by (apply (forall_minute defaultEnd_check); [now vm_compute | exact Hr]).
  unfold defaultEnd_check in Hc. rewrite Hs in Hc.
  apply andb_prop in Hc. destruct Hc as [Hv He]. split; [exact Hv|].
  destruct (Routine.timeToMinutes (RoutineStore.defaultEnd start)); try discriminate.
  apply Z.eqb_eq in He. now subst.
Qed.

Section RoutineStoreFacts.

Import Routine RoutineStore.

Variable clock : nat -> Z.

(** X29.  A stored item is loaded with the end time it has.  One
    without an end time, whose start time (or, for an item of the old
    form, [time]) is a valid [HH:MM], is loaded with that start and with
    a valid end time one hour later at the same minute, unless the start
    is in hour 23: then the end time is the start time itself, and the
    item has no length. *)
Theorem normalizeItem_end_time item idx :
  (forall e, s_endTime item = Some e ->
     r_endTime (normalizeItem clock item idx) = e)
  /\ (s_endTime item = None ->
      validTime (startOf item) = true ->
      let loaded := normalizeItem clock item idx in
      exists m,
        r_startTime loaded = startOf item
        /\ timeToMinutes (r_startTime loaded) = Int m
        /\ validTime (r_endTime loaded) = true
        /\ timeToMinutes (r_endTime loaded)
           = Int (if (m <? 23 * 60)%Z then m + 60 else m)).
Proof.
  split.
  - intros e He. unfold normalizeItem. cbn. now rewrite He.
  - intros He Hv loaded.
    destruct (defaultEnd_hour_later _ Hv) as (m & Hm & _ & Hve & Hme).
    exists m. unfold loaded, normalizeItem. cbn. rewrite He. cbn.
    repeat split; assumption.
Qed.

End RoutineStoreFacts.

Definition stored_late : RoutineStore.StoredItem :=
  {| RoutineStore.s_id := None; RoutineStore.s_title := Some (str "Read");
     RoutineStore.s_day := None; RoutineStore.s_startTime := None;
     RoutineStore.s_time := Some (str "23:30"); RoutineStore.s_endTime := None;
     RoutineStore.s_notes := None; RoutineStore.s_done := None;
     RoutineStore.s_reminderEnabled := None; RoutineStore.s_reminderIds := None;
     RoutineStore.s_reminderId := None |}.

Lemma normalizeItem_end_time_witness :
  exists m,
    Routine.r_startTime (RoutineStore.normalizeItem (fun _ => 0%Z) stored_late 0)
    = str "23:30"
    /\ Routine.timeToMinutes
         (Routine.r_startTime (RoutineStore.normalizeItem (fun _ => 0%Z) stored_late 0))
       = Int m
    /\ Routine.validTime
         (Routine.r_endTime (RoutineStore.normalizeItem (fun _ => 0%Z) stored_late 0))
       = true
    /\ Routine.timeToMinutes
         (Routine.r_endTime (RoutineStore.normalizeItem (fun _ => 0%Z) stored_late 0))
       = Int (if (m <? 23 * 60)%Z then m + 60 else m).
Proof.
  apply (proj2 (normalizeItem_end_time (fun _ => 0%Z) stored_late 0));
    reflexivity.
Defined.
